(** * rpi_fb_capture: the frame encoders, the command parser and the daemon
      loop of [main.c]

    A shallow embedding of [src/main.c].  C integers are mathematical
    integers ([Z]) with every narrowing store written out ([u8], [u16],
    [u32]); buffers are lists indexed from zero; a read outside a buffer is
    undefined behaviour in C and is the outcome [Fault] here.  Loops keep
    their test, body and increment; a loop that can run forever takes fuel.

    What [main.c] takes from [capture.h] and [dithering.h] (neither is among
    the sources) enters as follows: the layout of [struct capture_info] is
    the record [capture_info]; the capacity of the request buffer, the
    capture backend and the dithering engine are variables of the sections
    that use them.

    The first part holds the definitions, the second part the properties. *)

From Stdlib Require Import ZArith Lia.
From stdpp Require Import base tactics option list numbers.

Local Open Scope Z_scope.

(** ** Fixed-width integers *)

Definition u8 (z : Z) : Z := z mod 256.
Definition u16 (z : Z) : Z := z mod 65536.
Definition u32 (z : Z) : Z := z mod 4294967296.

Definition is_u16 (z : Z) : Prop := 0 <= z < 65536.

(** ** Outcomes of a run of C code

    [Done a]: the code ran to its end with [a].  [Fault]: it read outside a
    buffer.  [Timeout]: a loop was still running when its fuel ran out.
    [Exit c]: it ended the process ([exit], [err]) with status [c]. *)

Inductive result (A : Type) : Type :=
| Done (a : A)
| Fault
| Timeout
| Exit (status : Z).
Arguments Done {A} a.
Arguments Fault {A}.
Arguments Timeout {A}.
Arguments Exit {A} status.

Definition EXIT_SUCCESS : Z := 0.
Definition EXIT_FAILURE : Z := 1.

#[global] Instance result_ret : MRet result := λ A a, Done a.
#[global] Instance result_bind : MBind result := λ A B f r,
  match r with
  | Done a => f a
  | Fault => Fault
  | Timeout => Timeout
  | Exit c => Exit c
  end.

(** [p[i]] for a pointer [p] to the start of [mem]. *)
Definition load (mem : list Z) (i : Z) : result Z :=
  if bool_decide (0 <= i) then
    match mem !! Z.to_nat i with
    | Some v => Done v
    | None => Fault
    end
  else Fault.

(** ** The session record

    Modelled from the spec: [struct capture_info] and
    [MAX_REQUEST_BUFFER_SIZE] are declared in [capture.h], which is not among
    the sources.  The record has the fields [main.c] uses; the three
    threshold fields are taken to be [uint16_t] (they hold values up to
    [31 << 11]), [dithering] to be [uint8_t], and the name field to be
    [char[16]]. *)

Record capture_info : Type := mk_capture_info {
  backend_name : list Z;
  display_id : Z;
  display_width : Z;
  display_height : Z;
  capture_width : Z;
  capture_height : Z;
  capture_stride : Z;
  buffer : list Z;
  dithering_buffer : list Z;
  request_buffer : list Z;
  request_buffer_ix : Z;
  send_snapshot : Z;
  mono_threshold_r5 : Z;
  mono_threshold_g6 : Z;
  mono_threshold_b5 : Z;
  dithering : Z
}.

(** Modelled from the spec: [DITHERING_NONE] is declared in [dithering.h],
    which is not among the sources; for command 7 any non-zero argument
    enables dithering, so no dithering is zero. *)
Definition DITHERING_NONE : Z := 0.

(** Field assignments through the [info] pointer. *)

Definition store_thresholds (info : capture_info) (r5 g6 b5 : Z) : capture_info :=
  mk_capture_info (backend_name info) (display_id info) (display_width info)
    (display_height info) (capture_width info) (capture_height info)
    (capture_stride info) (buffer info) (dithering_buffer info)
    (request_buffer info) (request_buffer_ix info) (send_snapshot info)
    (u16 r5) (u16 g6) (u16 b5) (dithering info).

Definition store_dithering (info : capture_info) (v : Z) : capture_info :=
  mk_capture_info (backend_name info) (display_id info) (display_width info)
    (display_height info) (capture_width info) (capture_height info)
    (capture_stride info) (buffer info) (dithering_buffer info)
    (request_buffer info) (request_buffer_ix info) (send_snapshot info)
    (mono_threshold_r5 info) (mono_threshold_g6 info) (mono_threshold_b5 info)
    v.

Definition store_send_snapshot (info : capture_info) (v : Z) : capture_info :=
  mk_capture_info (backend_name info) (display_id info) (display_width info)
    (display_height info) (capture_width info) (capture_height info)
    (capture_stride info) (buffer info) (dithering_buffer info)
    (request_buffer info) (request_buffer_ix info) v
    (mono_threshold_r5 info) (mono_threshold_g6 info) (mono_threshold_b5 info)
    (dithering info).

Definition store_request (info : capture_info) (buf : list Z) (ix : Z) : capture_info :=
  mk_capture_info (backend_name info) (display_id info) (display_width info)
    (display_height info) (capture_width info) (capture_height info)
    (capture_stride info) (buffer info) (dithering_buffer info)
    buf ix (send_snapshot info)
    (mono_threshold_r5 info) (mono_threshold_g6 info) (mono_threshold_b5 info)
    (dithering info).

Definition store_dithering_buffer (info : capture_info) (d : list Z) : capture_info :=
  mk_capture_info (backend_name info) (display_id info) (display_width info)
    (display_height info) (capture_width info) (capture_height info)
    (capture_stride info) (buffer info) d
    (request_buffer info) (request_buffer_ix info) (send_snapshot info)
    (mono_threshold_r5 info) (mono_threshold_g6 info) (mono_threshold_b5 info)
    (dithering info).

(** ** Threshold and dithering setters

    Both take their argument as a [uint8_t]. *)

Definition set_mono_threshold (info : capture_info) (threshold : Z) : capture_info :=
  let threshold := u8 threshold in
  store_thresholds info (threshold ≫ 3) ((threshold ≫ 2) ≪ 5) ((threshold ≫ 3) ≪ 11).

Definition set_dithering (info : capture_info) (value : Z) : capture_info :=
  let value := u8 value in
  store_dithering info value.

(** ** The monochrome decision *)

Definition to_1bpp (info : capture_info) (rgb565 : Z) : Z :=
  if bool_decide (Z.land rgb565 0x001f > mono_threshold_r5 info) ||
     bool_decide (Z.land rgb565 0x07e0 > mono_threshold_g6 info) ||
     bool_decide (Z.land rgb565 0xf800 > mono_threshold_b5 info)
  then 1 else 0.

(** ** Loops

    [for (i = 0; i < bound; i += step) body]: the test, the body and the
    increment as written.  [wrap] is the store into the counter's type: the
    identity for an [int] counter, [u16] for a [uint16_t] one.  The loop
    stops with [Timeout] when [fuel] iterations were not enough. *)

Fixpoint for_loop {S : Type} (wrap : Z → Z) (fuel : nat) (i bound step : Z)
    (body : Z → S → result S) (s : S) : result S :=
  if bool_decide (i < bound) then
    match fuel with
    | O => Timeout
    | Datatypes.S fuel' =>
        s' ← body i s;
        for_loop wrap fuel' (wrap (i + step)) bound step body s'
    end
  else Done s.

(** An [int] counter that starts at zero and grows by [step >= 1] passes
    [bound] within [bound] iterations. *)
Definition for_int {S : Type} (bound step : Z) (body : Z → S → result S) (s : S) : result S :=
  for_loop id (Z.to_nat bound) 0 bound step body s.

(** ** Output framing *)

Definition add_packet_length (size : Z) : list Z :=
  let size := u32 size in
  [u8 (size ≫ 24); Z.land (size ≫ 16) 0xff; Z.land (size ≫ 8) 0xff; Z.land size 0xff].

(** ** Encoders

    Each encoder returns the bytes [work[0 .. out - work)] that it hands to
    [write_stdout].  [out] only ever advances by one byte per store, so the
    bytes written are the list of stores in order; how many they are,
    against the size [initialize] gives [work] ([work_capacity]), is
    settled with the properties.  The pointer [image] is an index into
    [buffer]. *)

Definition rgb24_bytes (pixel : Z) : list Z :=
  [u8 ((pixel ≫ 11) ≪ 3); u8 ((Z.land (pixel ≫ 5) 0x3f) ≪ 2); u8 ((Z.land pixel 0x1f) ≪ 3)].

Definition emit_rgb24 (info : capture_info) : result (list Z) :=
  let width := capture_width info in
  let height := capture_height info in
  let out := add_packet_length (3 * width * height) in
  st ← for_int height 1 (λ y '(image, out),
          out ← for_int width 1 (λ x out,
                   pixel ← load (buffer info) (image + x);
                   mret (out ++ rgb24_bytes pixel)) out;
          mret (image + capture_stride info, out)) (0, out);
  mret (st.2).

(** [memcpy] of [n] pixels starting at [image]; a pixel is stored low byte
    first (the targets are little-endian). *)
Definition pixel_bytes (pixel : Z) : list Z := [Z.land pixel 0xff; Z.land (pixel ≫ 8) 0xff].

Definition memcpy_pixels (mem : list Z) (image n : Z) : result (list Z) :=
  if bool_decide (n < 0) then Fault
  else for_int n 1 (λ k acc, pixel ← load mem (image + k); mret (acc ++ pixel_bytes pixel)) [].

Definition emit_rgb565 (info : capture_info) : result (list Z) :=
  let width := capture_width info in
  let height := capture_height info in
  let out := add_packet_length (2 * width * height) in
  st ← for_int height 1 (λ y '(image, out),
          row ← memcpy_pixels (buffer info) image width;
          mret (image + capture_stride info, out ++ row)) (0, out);
  mret (st.2).

Definition pack8 (b0 b1 b2 b3 b4 b5 b6 b7 : Z) : Z :=
  u8 (Z.lor (Z.lor (Z.lor (Z.lor (Z.lor (Z.lor (Z.lor
        b0 (b1 ≪ 1)) (b2 ≪ 2)) (b3 ≪ 3)) (b4 ≪ 4)) (b5 ≪ 5)) (b6 ≪ 6)) (b7 ≪ 7)).

Definition nonzero (v : Z) : Z := if bool_decide (v ≠ 0) then 1 else 0.

Section Encoders.

(** The dithering engine ([dithering.h], not among the sources):
    [dithering_apply info] is the content of [info->dithering_buffer]
    after the call. *)
Variable dithering_apply : capture_info → list Z.

Definition emit_mono (info : capture_info) : result (list Z) :=
  let width := capture_width info in
  let height := capture_height info in
  let row_skip := capture_stride info - capture_width info in
  let out := add_packet_length (Z.quot (width * height) 8) in
  if bool_decide (dithering info = DITHERING_NONE) then
    st ← for_int height 1 (λ y st,
            '(image, out) ← for_int width 8 (λ x '(image, out),
                 p0 ← load (buffer info) (image + 0);
                 p1 ← load (buffer info) (image + 1);
                 p2 ← load (buffer info) (image + 2);
                 p3 ← load (buffer info) (image + 3);
                 p4 ← load (buffer info) (image + 4);
                 p5 ← load (buffer info) (image + 5);
                 p6 ← load (buffer info) (image + 6);
                 p7 ← load (buffer info) (image + 7);
                 mret (image + 8,
                       out ++ [pack8 (to_1bpp info p0) (to_1bpp info p1)
                                     (to_1bpp info p2) (to_1bpp info p3)
                                     (to_1bpp info p4) (to_1bpp info p5)
                                     (to_1bpp info p6) (to_1bpp info p7)])) st;
            mret (image + row_skip, out)) (0, out);
    mret (st.2)
  else
    let residual := dithering_apply info in
    st ← for_int height 1 (λ y st,
            for_int width 8 (λ x '(buffer, out),
                 d0 ← load residual (buffer + 0);
                 d1 ← load residual (buffer + 1);
                 d2 ← load residual (buffer + 2);
                 d3 ← load residual (buffer + 3);
                 d4 ← load residual (buffer + 4);
                 d5 ← load residual (buffer + 5);
                 d6 ← load residual (buffer + 6);
                 d7 ← load residual (buffer + 7);
                 mret (buffer + 8,
                       out ++ [pack8 (nonzero d0) (nonzero d1) (nonzero d2) (nonzero d3)
                                     (nonzero d4) (nonzero d5) (nonzero d6) (nonzero d7)])) st)
            (0, out);
    mret (st.2).

(** The dithered branch declares its counters [uint16_t] and reads the
    residuals through a [const uint16_t *]. *)
Definition emit_mono_rotate_flip (fuel : nat) (info : capture_info) : result (list Z) :=
  let width := capture_width info in
  let height := capture_height info in
  let stride := capture_stride info in
  let out := add_packet_length (Z.quot (width * height) 8) in
  if bool_decide (dithering info = DITHERING_NONE) then
    st ← for_int width 1 (λ x '(image, out),
            '(_, out) ← for_int height 8 (λ y '(column, out),
                 p0 ← load (buffer info) (column + 0);
                 p1 ← load (buffer info) (column + stride);
                 p2 ← load (buffer info) (column + 2 * stride);
                 p3 ← load (buffer info) (column + 3 * stride);
                 p4 ← load (buffer info) (column + 4 * stride);
                 p5 ← load (buffer info) (column + 5 * stride);
                 p6 ← load (buffer info) (column + 6 * stride);
                 p7 ← load (buffer info) (column + 7 * stride);
                 mret (column + 8 * stride,
                       out ++ [pack8 (to_1bpp info p0) (to_1bpp info p1)
                                     (to_1bpp info p2) (to_1bpp info p3)
                                     (to_1bpp info p4) (to_1bpp info p5)
                                     (to_1bpp info p6) (to_1bpp info p7)])) (image, out);
            mret (image + 1, out)) (0, out);
    mret (st.2)
  else
    let residual := dithering_apply info in
    st ← for_loop u16 fuel 0 width 1 (λ x '(dithering_buffer, out),
            '(_, out) ← for_loop u16 fuel 0 height 8 (λ y '(column, out),
                 d0 ← load residual (column + 0);
                 d1 ← load residual (column + width);
                 d2 ← load residual (column + width * 2);
                 d3 ← load residual (column + width * 3);
                 d4 ← load residual (column + width * 4);
                 d5 ← load residual (column + width * 5);
                 d6 ← load residual (column + width * 6);
                 d7 ← load residual (column + width * 7);
                 mret (column + 8 * width,
                       out ++ [pack8 (nonzero (u16 d0)) (nonzero (u16 d1))
                                     (nonzero (u16 d2)) (nonzero (u16 d3))
                                     (nonzero (u16 d4)) (nonzero (u16 d5))
                                     (nonzero (u16 d6)) (nonzero (u16 d7))])) (dithering_buffer, out);
            mret (dithering_buffer + 1, out)) (0, out);
    mret (st.2).

End Encoders.

(** The capability frame.  [memcpy(out, &info->backend_name, 16)] copies the
    16 bytes of the name field; the 32-bit fields are copied in their
    in-memory form, low byte first. *)
Definition native32 (v : Z) : list Z :=
  let v := u32 v in
  [Z.land v 0xff; Z.land (v ≫ 8) 0xff; Z.land (v ≫ 16) 0xff; Z.land (v ≫ 24) 0xff].

Definition memcpy_bytes (src : list Z) (n : nat) : result (list Z) :=
  if bool_decide (n ≤ length src)%nat then Done (take n src) else Fault.

Definition emit_capture_info (info : capture_info) : result (list Z) :=
  let out := add_packet_length 36 in
  name ← memcpy_bytes (backend_name info) 16;
  let out := out ++ name in
  let out := out ++ native32 (display_id info) in
  let out := out ++ native32 (display_width info) in
  let out := out ++ native32 (display_height info) in
  let out := out ++ native32 (capture_width info) in
  let out := out ++ native32 (capture_height info) in
  mret out.

(** ** The work buffer

    [initialize] allocates [capture_width * capture_height * 4] bytes for
    [work] (line 38).  The product is formed in 32 bits before it becomes
    the [size_t] of [malloc]: [work_capacity] is its value modulo [2^32].
    That is the product itself while it is at most [INT_MAX]; above, an
    [int] product overflows, and the properties that compare a run with the
    capacity carry that bound. *)

Definition INT_MAX : Z := 2147483647.

Definition work_capacity (info : capture_info) : Z :=
  u32 (capture_width info * capture_height info * 4).

(** ** The stores of a run

    An encoder above returns the bytes it hands to [write_stdout], and only
    when it gets there.  What a run has stored through [out] when it stops
    earlier, at a read outside a buffer or with its fuel used up, is kept
    here: the same code once more, as functions from the bytes stored so
    far to the bytes stored when the run stops and its outcome.  [out] is no
    longer part of a loop's state; the pointers that walk the inputs are. *)

Definition stores (A : Type) : Type := list Z → list Z * result A.

#[global] Instance stores_ret : MRet stores := λ A a out, (out, Done a).
#[global] Instance stores_bind : MBind stores := λ A B f m out,
  match m out with
  | (out', Done a) => f a out'
  | (out', Fault) => (out', Fault)
  | (out', Timeout) => (out', Timeout)
  | (out', Exit c) => (out', Exit c)
  end.

(** [out[0] = b0; ...; out += n]: the bytes go behind those stored so far. *)
Definition store (bytes : list Z) : stores unit := λ out, (out ++ bytes, Done ()).

(** Code that stores nothing. *)
Definition pure_run {A : Type} (r : result A) : stores A := λ out, (out, r).

Definition read (mem : list Z) (i : Z) : stores Z := pure_run (load mem i).

Fixpoint for_loop_stores {S : Type} (wrap : Z → Z) (fuel : nat) (i bound step : Z)
    (body : Z → S → stores S) (s : S) : stores S :=
  if bool_decide (i < bound) then
    match fuel with
    | O => pure_run Timeout
    | Datatypes.S fuel' =>
        s' ← body i s;
        for_loop_stores wrap fuel' (wrap (i + step)) bound step body s'
    end
  else mret s.

Definition for_int_stores {S : Type} (bound step : Z) (body : Z → S → stores S) (s : S)
    : stores S :=
  for_loop_stores id (Z.to_nat bound) 0 bound step body s.

Definition emit_rgb24_stores (info : capture_info) : stores unit :=
  let width := capture_width info in
  let height := capture_height info in
  store (add_packet_length (3 * width * height));;
  for_int_stores height 1 (λ y image,
    for_int_stores width 1 (λ x _,
      pixel ← read (buffer info) (image + x);
      store (rgb24_bytes pixel)) ();;
    mret (image + capture_stride info)) 0;;
  mret ().

Definition memcpy_pixels_stores (mem : list Z) (image n : Z) : stores unit :=
  if bool_decide (n < 0) then pure_run Fault
  else for_int_stores n 1 (λ k _, pixel ← read mem (image + k); store (pixel_bytes pixel)) ().

Definition emit_rgb565_stores (info : capture_info) : stores unit :=
  let width := capture_width info in
  let height := capture_height info in
  store (add_packet_length (2 * width * height));;
  for_int_stores height 1 (λ y image,
    memcpy_pixels_stores (buffer info) image width;;
    mret (image + capture_stride info)) 0;;
  mret ().

Section EncoderStores.

Variable dithering_apply : capture_info → list Z.

Definition emit_mono_stores (info : capture_info) : stores unit :=
  let width := capture_width info in
  let height := capture_height info in
  let row_skip := capture_stride info - capture_width info in
  store (add_packet_length (Z.quot (width * height) 8));;
  if bool_decide (dithering info = DITHERING_NONE) then
    for_int_stores height 1 (λ y image,
      image ← for_int_stores width 8 (λ x image,
        p0 ← read (buffer info) (image + 0);
        p1 ← read (buffer info) (image + 1);
        p2 ← read (buffer info) (image + 2);
        p3 ← read (buffer info) (image + 3);
        p4 ← read (buffer info) (image + 4);
        p5 ← read (buffer info) (image + 5);
        p6 ← read (buffer info) (image + 6);
        p7 ← read (buffer info) (image + 7);
        store [pack8 (to_1bpp info p0) (to_1bpp info p1)
                     (to_1bpp info p2) (to_1bpp info p3)
                     (to_1bpp info p4) (to_1bpp info p5)
                     (to_1bpp info p6) (to_1bpp info p7)];;
        mret (image + 8)) image;
      mret (image + row_skip)) 0;;
    mret ()
  else
    let residual := dithering_apply info in
    for_int_stores height 1 (λ y buffer,
      for_int_stores width 8 (λ x buffer,
        d0 ← read residual (buffer + 0);
        d1 ← read residual (buffer + 1);
        d2 ← read residual (buffer + 2);
        d3 ← read residual (buffer + 3);
        d4 ← read residual (buffer + 4);
        d5 ← read residual (buffer + 5);
        d6 ← read residual (buffer + 6);
        d7 ← read residual (buffer + 7);
        store [pack8 (nonzero d0) (nonzero d1) (nonzero d2) (nonzero d3)
                     (nonzero d4) (nonzero d5) (nonzero d6) (nonzero d7)];;
        mret (buffer + 8)) buffer) 0;;
    mret ().

Definition emit_mono_rotate_flip_stores (fuel : nat) (info : capture_info) : stores unit :=
  let width := capture_width info in
  let height := capture_height info in
  let stride := capture_stride info in
  store (add_packet_length (Z.quot (width * height) 8));;
  if bool_decide (dithering info = DITHERING_NONE) then
    for_int_stores width 1 (λ x image,
      for_int_stores height 8 (λ y column,
        p0 ← read (buffer info) (column + 0);
        p1 ← read (buffer info) (column + stride);
        p2 ← read (buffer info) (column + 2 * stride);
        p3 ← read (buffer info) (column + 3 * stride);
        p4 ← read (buffer info) (column + 4 * stride);
        p5 ← read (buffer info) (column + 5 * stride);
        p6 ← read (buffer info) (column + 6 * stride);
        p7 ← read (buffer info) (column + 7 * stride);
        store [pack8 (to_1bpp info p0) (to_1bpp info p1)
                     (to_1bpp info p2) (to_1bpp info p3)
                     (to_1bpp info p4) (to_1bpp info p5)
                     (to_1bpp info p6) (to_1bpp info p7)];;
        mret (column + 8 * stride)) image;;
      mret (image + 1)) 0;;
    mret ()
  else
    let residual := dithering_apply info in
    for_loop_stores u16 fuel 0 width 1 (λ x dithering_buffer,
      for_loop_stores u16 fuel 0 height 8 (λ y column,
        d0 ← read residual (column + 0);
        d1 ← read residual (column + width);
        d2 ← read residual (column + width * 2);
        d3 ← read residual (column + width * 3);
        d4 ← read residual (column + width * 4);
        d5 ← read residual (column + width * 5);
        d6 ← read residual (column + width * 6);
        d7 ← read residual (column + width * 7);
        store [pack8 (nonzero (u16 d0)) (nonzero (u16 d1))
                     (nonzero (u16 d2)) (nonzero (u16 d3))
                     (nonzero (u16 d4)) (nonzero (u16 d5))
                     (nonzero (u16 d6)) (nonzero (u16 d7))];;
        mret (column + 8 * width)) dithering_buffer;;
      mret (dithering_buffer + 1)) 0;;
    mret ().

End EncoderStores.

Definition emit_capture_info_stores (info : capture_info) : stores unit :=
  store (add_packet_length 36);;
  name ← pure_run (memcpy_bytes (backend_name info) 16);
  store name;;
  store (native32 (display_id info));;
  store (native32 (display_width info));;
  store (native32 (display_height info));;
  store (native32 (capture_width info));;
  store (native32 (capture_height info)).

(** A run from the start of [work]: the bytes in [work] when it stops, and
    how it stops. *)
Definition run {A : Type} (m : stores A) : list Z * result A := m [].

(** What a run hands to [write_stdout]: all it stored, when it gets there. *)
Definition written {A : Type} (r : list Z * result A) : result (list Z) :=
  r.2 ≫= λ _, Done r.1.

(** [agrees R r t]: the run [r] of an encoder above and the run [t] of its
    counterpart here stop the same way, and when both are done their states
    are related by [R]. *)
Definition agrees {S C : Type} (R : S → C → list Z → Prop)
    (r : result S) (t : list Z * result C) : Prop :=
  match t.2 with
  | Done c => ∃ s, r = Done s ∧ R s c t.1
  | Fault => r = Fault
  | Timeout => r = Timeout
  | Exit k => r = Exit k
  end.

(** ** The command parser *)

(** What one pass through the [switch] of [handle_stdin] did.  The log of
    these is not part of the C state; it records the order of dispatch. *)
Inductive dispatch : Type :=
| SelectSnapshot (code : Z)
| SetThreshold (threshold : Z)
| SetDithering (value : Z)
| Ignored (code : Z).

#[global] Instance dispatch_eq_dec : EqDecision dispatch.
Proof. solve_decision. Defined.

(** [memmove(buf, buf + len, n)]. *)
Definition memmove_front (buf : list Z) (len n : Z) : list Z :=
  take (Z.to_nat n) (drop (Z.to_nat len) buf) ++ drop (Z.to_nat n) buf.

(** The bytes [read] stored at [&buf[ix]]. *)
Definition store_at (buf : list Z) (ix : Z) (data : list Z) : list Z :=
  take (Z.to_nat ix) buf ++ data ++ drop (Z.to_nat ix + length data) buf.

Section Parser.

(** The capacity of [request_buffer] ([capture.h]). *)
Variable MAX_REQUEST_BUFFER_SIZE : Z.

Definition switch_command (info : capture_info) (cmd : Z) : result (capture_info * dispatch) :=
  if bool_decide (1 <= cmd <= 5) then
    Done (store_send_snapshot info cmd, SelectSnapshot cmd)
  else if bool_decide (cmd = 6) then
    arg ← load (request_buffer info) 5;
    Done (set_mono_threshold info arg, SetThreshold arg)
  else if bool_decide (cmd = 7) then
    arg ← load (request_buffer info) 5;
    Done (set_dithering info arg, SetDithering arg)
  else Done (info, Ignored cmd).

(** The [while (info->request_buffer_ix >= 5)] loop. *)
Fixpoint parse_commands (fuel : nat) (info : capture_info) (log : list dispatch)
    : result (capture_info * list dispatch) :=
  if bool_decide (request_buffer_ix info >= 5) then
    match fuel with
    | O => Timeout
    | S fuel' =>
        b0 ← load (request_buffer info) 0;
        b1 ← load (request_buffer info) 1;
        b2 ← load (request_buffer info) 2;
        if bool_decide (b0 ≠ 0) || bool_decide (b1 ≠ 0) || bool_decide (b2 ≠ 0)
        then Exit EXIT_FAILURE
        else
          b3 ← load (request_buffer info) 3;
          let len := u8 (4 + b3) in
          if bool_decide (request_buffer_ix info < len) then Done (info, log)
          else
            cmd ← load (request_buffer info) 4;
            '(info, ev) ← switch_command info cmd;
            let ix := request_buffer_ix info - len in
            let buf :=
              if bool_decide (ix > 0)
              then memmove_front (request_buffer info) len ix
              else request_buffer info in
            parse_commands fuel' (store_request info buf ix) (log ++ [ev])
    end
  else Done (info, log).

(** [input] is what [read] finds on stdin: [None] for a failed read,
    [Some avail] for the bytes ready at the time of the call, of which
    [read] transfers at most [count]. *)
Definition handle_stdin (fuel : nat) (info : capture_info) (input : option (list Z))
    : result (capture_info * list dispatch) :=
  match input with
  | None => Exit EXIT_FAILURE
  | Some avail =>
      let count := MAX_REQUEST_BUFFER_SIZE - request_buffer_ix info - 1 in
      if bool_decide (count < 0) then Fault
      else
        let data := take (Z.to_nat count) avail in
        let amount_read := Z.of_nat (length data) in
        if bool_decide (amount_read = 0) then Exit EXIT_SUCCESS
        else
          let info := store_request info
                        (store_at (request_buffer info) (request_buffer_ix info) data)
                        (request_buffer_ix info + amount_read) in
          parse_commands fuel info []
  end.

(** Successive calls, one per delivery; the logs are concatenated. *)
Fixpoint deliver (fuel : nat) (info : capture_info) (chunks : list (list Z))
    : result (capture_info * list dispatch) :=
  match chunks with
  | [] => Done (info, [])
  | c :: rest =>
      '(info, log1) ← handle_stdin fuel info (Some c);
      '(info, log2) ← deliver fuel info rest;
      Done (info, log1 ++ log2)
  end.

End Parser.

(** ** Command frames on the wire

    The reference against which the parser is checked, after the wire
    format [00 00 00 L CMD [ARG]] and the table of command effects of the
    specification. *)

Record frame : Type := mk_frame { frame_code : Z; frame_args : list Z }.

(** The length byte counts the command code and the argument bytes. *)
Definition frame_length_byte (f : frame) : Z := 1 + Z.of_nat (length (frame_args f)).

Definition wire (f : frame) : list Z :=
  [0; 0; 0; frame_length_byte f; frame_code f] ++ frame_args f.

Definition wires (fs : list frame) : list Z := concat (wire <$> fs).

(** A frame is well formed when its total size [L + 4] fits the byte-wide
    [len] of the parser and codes 6 and 7 carry their argument. *)
Definition well_formed (f : frame) : Prop :=
  frame_length_byte f <= 251 ∧
  (frame_code f = 6 ∨ frame_code f = 7 → frame_args f ≠ []).

(** A partial frame: the bytes of a frame of which at least one is still to
    come. *)
Definition partial_frame (q : list Z) : Prop :=
  ∃ f rest, well_formed f ∧ wire f = q ++ rest ∧ rest ≠ [].

Definition frame_arg (f : frame) : Z := default 0 (head (frame_args f)).

Definition frame_effect (info : capture_info) (f : frame) : capture_info :=
  if bool_decide (1 <= frame_code f <= 5) then store_send_snapshot info (frame_code f)
  else if bool_decide (frame_code f = 6) then set_mono_threshold info (frame_arg f)
  else if bool_decide (frame_code f = 7) then set_dithering info (frame_arg f)
  else info.

Definition frame_dispatch (f : frame) : dispatch :=
  if bool_decide (1 <= frame_code f <= 5) then SelectSnapshot (frame_code f)
  else if bool_decide (frame_code f = 6) then SetThreshold (frame_arg f)
  else if bool_decide (frame_code f = 7) then SetDithering (frame_arg f)
  else Ignored (frame_code f).

(** The part of the session the commands act on: the pending encoding
    request, the three thresholds and the dithering mode. *)
Definition session_view (info : capture_info) : Z * Z * Z * Z * Z :=
  (send_snapshot info, mono_threshold_r5 info, mono_threshold_g6 info,
   mono_threshold_b5 info, dithering info).

(** ** Frames

    The frame buffer as [initialize] allocates it and the backend fills it:
    [capture_stride * capture_height] pixels of 16 bits, rows of
    [capture_width] pixels followed by [capture_stride - capture_width]
    pixels of padding. *)
Definition frame_ok (info : capture_info) : Prop :=
  0 <= capture_width info ∧
  0 <= capture_height info ∧
  capture_width info <= capture_stride info ∧
  Z.of_nat (length (buffer info)) = capture_stride info * capture_height info ∧
  Forall is_u16 (buffer info).

(** The pixel in column [x] of row [y]. *)
Definition pixel_at (info : capture_info) (x y : Z) : Z :=
  default 0 (buffer info !! Z.to_nat (y * capture_stride info + x)).

(** The value of a 4-byte big-endian length field. *)
Definition be32 (bs : list Z) : Z :=
  match bs with
  | [b0; b1; b2; b3] => ((b0 * 256 + b1) * 256 + b2) * 256 + b3
  | _ => 0
  end.

(** [n] blocks of output, one per loop iteration. *)
Definition blocks (f : nat → list Z) (n : nat) : list Z := concat (f <$> seq 0 n).

(** The RGB24 bytes of row [y]. *)
Definition rgb24_row (info : capture_info) (y : nat) : list Z :=
  blocks (λ x, rgb24_bytes (pixel_at info (Z.of_nat x) (Z.of_nat y)))
         (Z.to_nat (capture_width info)).

(** The undithered byte for the group of 8 pixels that starts at column
    [8 g] of row [y], and the payload row it belongs to. *)
Definition mono_byte (info : capture_info) (y g : nat) : Z :=
  let px k := to_1bpp info (pixel_at info (8 * Z.of_nat g + k) (Z.of_nat y)) in
  pack8 (px 0) (px 1) (px 2) (px 3) (px 4) (px 5) (px 6) (px 7).

Definition mono_row (info : capture_info) (y : nat) : list Z :=
  blocks (λ g, [mono_byte info y g]) (Z.to_nat (capture_width info `div` 8)).

(** The undithered byte for the 8 pixels of column [x] that start at row
    [8 g], and the payload column it belongs to. *)
Definition mono_column_byte (info : capture_info) (x g : nat) : Z :=
  let px k := to_1bpp info (pixel_at info (Z.of_nat x) (8 * Z.of_nat g + k)) in
  pack8 (px 0) (px 1) (px 2) (px 3) (px 4) (px 5) (px 6) (px 7).

Definition mono_column (info : capture_info) (x : nat) : list Z :=
  blocks (λ g, [mono_column_byte info x g]) (Z.to_nat (capture_height info `div` 8)).

(** The residual of pixel [(x, y)] in a dither buffer of [width] columns. *)
Definition residual_at (residual : list Z) (width x y : Z) : Z :=
  default 0 (residual !! Z.to_nat (y * width + x)).

(** A dither buffer as [initialize] allocates it: one [int16_t] per pixel. *)
Definition residual_ok (info : capture_info) (residual : list Z) : Prop :=
  Z.of_nat (length residual) = capture_width info * capture_height info ∧
  Forall (λ v, -32768 <= v < 32768) residual.

Definition dither_byte (info : capture_info) (residual : list Z) (y g : nat) : Z :=
  let px k := nonzero (residual_at residual (capture_width info)
                         (8 * Z.of_nat g + k) (Z.of_nat y)) in
  pack8 (px 0) (px 1) (px 2) (px 3) (px 4) (px 5) (px 6) (px 7).

Definition dither_row (info : capture_info) (residual : list Z) (y : nat) : list Z :=
  blocks (λ g, [dither_byte info residual y g]) (Z.to_nat (capture_width info `div` 8)).

Definition dither_column_byte (info : capture_info) (residual : list Z) (x g : nat) : Z :=
  let px k := nonzero (u16 (residual_at residual (capture_width info)
                              (Z.of_nat x) (8 * Z.of_nat g + k))) in
  pack8 (px 0) (px 1) (px 2) (px 3) (px 4) (px 5) (px 6) (px 7).

Definition dither_column (info : capture_info) (residual : list Z) (x : nat) : list Z :=
  blocks (λ g, [dither_column_byte info residual x g])
         (Z.to_nat (capture_height info `div` 8)).

(** The bi-level decision for pixel [(x, y)]: [to_1bpp] of the pixel without
    dithering, residual non-zero with dithering. *)
Definition decision (info : capture_info) (residual : list Z) (x y : Z) : bool :=
  if bool_decide (dithering info = DITHERING_NONE)
  then bool_decide (to_1bpp info (pixel_at info x y) = 1)
  else bool_decide (residual_at residual (capture_width info) x y ≠ 0).

Definition is_bit (b : Z) : Prop := b = 0 ∨ b = 1.

(** ** The daemon *)

Definition store_buffers (info : capture_info) (frame residual : list Z) : capture_info :=
  mk_capture_info (backend_name info) (display_id info) (display_width info)
    (display_height info) (capture_width info) (capture_height info)
    (capture_stride info) frame residual
    (request_buffer info) (request_buffer_ix info) (send_snapshot info)
    (mono_threshold_r5 info) (mono_threshold_g6 info) (mono_threshold_b5 info)
    (dithering info).

Section Daemon.

Variable MAX_REQUEST_BUFFER_SIZE : Z.
Variable dithering_apply : capture_info → list Z.

(** The capture backend ([capture.h], not among the sources):
    [capture_initialize device width height info] fills in the backend
    fields of [info] or fails; [capture info] is the content of
    [info->buffer] after the call. *)
Variable capture_initialize : Z → Z → Z → capture_info → option capture_info.
Variable capture : capture_info → list Z.

(** [memset] of the whole of [info] to zero. *)
Definition zeroed_info : capture_info :=
  mk_capture_info (replicate 16 0) 0 0 0 0 0 0 [] []
    (replicate (Z.to_nat MAX_REQUEST_BUFFER_SIZE) 0) 0 0 0 0 0 0.

(** The buffers come from [malloc]; nothing reads them before [capture]
    or [dithering_apply] has filled them, and they are zero here. *)
Definition initialize (device width height : Z) : option capture_info :=
  info ← capture_initialize device width height zeroed_info;
  let info := set_mono_threshold info 25 in
  Some (store_buffers info
          (replicate (Z.to_nat (capture_stride info * capture_height info)) 0)
          (replicate (Z.to_nat (capture_width info * capture_height info)) 0)).

(** [send_snapshot()]: the writes of the selected encoder. *)
Definition send_snapshot_frame (fuel : nat) (info : capture_info) : result (list (list Z)) :=
  let request := send_snapshot info in
  if bool_decide (request = 1 ∨ request = 2) then out ← emit_rgb24 info; mret [out]
  else if bool_decide (request = 3) then out ← emit_rgb565 info; mret [out]
  else if bool_decide (request = 4) then out ← emit_mono dithering_apply info; mret [out]
  else if bool_decide (request = 5)
       then out ← emit_mono_rotate_flip dithering_apply fuel info; mret [out]
  else mret [].

(** The dither buffer after an emission. *)
Definition after_snapshot (info : capture_info) : capture_info :=
  if bool_decide (send_snapshot info = 4 ∨ send_snapshot info = 5) &&
     bool_decide (dithering info ≠ DITHERING_NONE)
  then store_dithering_buffer info (dithering_apply info)
  else info.

(** The [for (;;)] loop over the reads that [poll] wakes it up for; when
    they run out the daemon is blocked in [poll].  The result is the list
    of writes to stdout and how the run stands. *)
Fixpoint daemon_loop (fuel : nat) (info : capture_info) (reads : list (option (list Z)))
    : list (list Z) * result capture_info :=
  match reads with
  | [] => ([], Done info)
  | input :: reads =>
      match handle_stdin MAX_REQUEST_BUFFER_SIZE fuel info input with
      | Done (info, _) =>
          if bool_decide (send_snapshot info ≠ 0) then
            let info := store_buffers info (capture info) (dithering_buffer info) in
            match send_snapshot_frame fuel info with
            | Done written =>
                let info := store_send_snapshot (after_snapshot info) 0 in
                let '(more, r) := daemon_loop fuel info reads in
                (written ++ more, r)
            | Fault => ([], Fault)
            | Timeout => ([], Timeout)
            | Exit c => ([], Exit c)
            end
          else daemon_loop fuel info reads
      | Fault => ([], Fault)
      | Timeout => ([], Timeout)
      | Exit c => ([], Exit c)
      end
  end.

(** [main] after its arguments are parsed. *)
Definition main (fuel : nat) (device width height : Z) (reads : list (option (list Z)))
    : list (list Z) * result capture_info :=
  match initialize device width height with
  | None => ([], Exit EXIT_FAILURE)
  | Some info =>
      match emit_capture_info info with
      | Done frame =>
          let '(written, r) := daemon_loop fuel info reads in
          (frame :: written, r)
      | Fault => ([], Fault)
      | Timeout => ([], Timeout)
      | Exit c => ([], Exit c)
      end
  end.

End Daemon.

(** ** Closed forms and views

    What follows is not code of [main.c]: it names what the further
    properties of the encoders, the parser and the daemon speak about. *)

(** The RGB565 bytes of row [y]. *)
Definition rgb565_row (info : capture_info) (y : nat) : list Z :=
  blocks (λ x, pixel_bytes (pixel_at info (Z.of_nat x) (Z.of_nat y)))
         (Z.to_nat (capture_width info)).

(** The undithered byte for the eight pixels stored from [pos] on, whatever
    row or padding they belong to. *)
Definition mono_byte_at (info : capture_info) (pos : Z) : Z :=
  let px k := to_1bpp info (default 0 (buffer info !! Z.to_nat (pos + k))) in
  pack8 (px 0) (px 1) (px 2) (px 3) (px 4) (px 5) (px 6) (px 7).

(** The part of the session that belongs to the capture backend: the
    name, the geometry and the two pixel buffers.  The command parser has
    no assignment to any of these fields. *)
Definition backend_view (info : capture_info) :=
  (backend_name info, display_id info, display_width info, display_height info,
   capture_width info, capture_height info, capture_stride info,
   buffer info, dithering_buffer info).


(** The session whose frame is the captured one with rows and columns
    exchanged, stored without padding; everything else is as in [info]. *)
Definition transpose (info : capture_info) : capture_info :=
  mk_capture_info (backend_name info) (display_id info) (display_width info)
    (display_height info) (capture_height info) (capture_width info)
    (capture_height info)
    (blocks (λ x, (λ y, pixel_at info (Z.of_nat x) (Z.of_nat y))
                    <$> seq 0 (Z.to_nat (capture_height info)))
            (Z.to_nat (capture_width info)))
    (dithering_buffer info)
    (request_buffer info) (request_buffer_ix info) (send_snapshot info)
    (mono_threshold_r5 info) (mono_threshold_g6 info) (mono_threshold_b5 info)
    (dithering info).

(** * Properties *)

(** ** Arithmetic of shifts and masks *)

Ltac shifts_to_div :=
  rewrite ?Z.shiftr_div_pow2, ?Z.shiftl_mul_pow2 by lia;
  change (2 ^ 1) with 2; change (2 ^ 2) with 4; change (2 ^ 3) with 8;
  change (2 ^ 5) with 32; change (2 ^ 8) with 256; change (2 ^ 11) with 2048;
  change (2 ^ 6) with 64; change (2 ^ 7) with 128;
  change (2 ^ 16) with 65536; change (2 ^ 24) with 16777216.

Ltac dlia := Z.div_mod_to_equations; lia.

(** A mask of [n] ones starting at bit [k] selects the [n]-bit field at
    [k] and leaves it in place. *)
Lemma land_field (p k n : Z) :
  0 <= k → 0 <= n → Z.land p (Z.ones n ≪ k) = ((p ≫ k) `mod` 2 ^ n) ≪ k.
Proof.
  intros Hk Hn. apply Z.bits_inj'. intros i Hi.
  rewrite Z.land_spec, !Z.shiftl_spec by lia.
  destruct (decide (i < k)) as [Hlt|Hge].
  - rewrite (Z.testbit_neg_r (Z.ones n)), (Z.testbit_neg_r (_ `mod` _)) by lia.
    apply andb_false_r.
  - destruct (decide (i - k < n)) as [Hin|Hout].
    + rewrite Z.ones_spec_low by lia.
      rewrite Z.mod_pow2_bits_low by lia.
      rewrite Z.shiftr_spec by lia.
      rewrite andb_true_r. f_equal. lia.
    + rewrite Z.ones_spec_high by lia.
      rewrite Z.mod_pow2_bits_high by lia.
      apply andb_false_r.
Qed.

Lemma land_001f (p : Z) : Z.land p 0x001f = p `mod` 32.
Proof. change 0x001f with (Z.ones 5). by rewrite Z.land_ones. Qed.

Lemma land_07e0 (p : Z) : Z.land p 0x07e0 = ((p `div` 32) `mod` 64) * 32.
Proof.
  change 0x07e0 with (Z.ones 6 ≪ 5). rewrite land_field by lia.
  by shifts_to_div.
Qed.

Lemma land_f800 (p : Z) : Z.land p 0xf800 = ((p `div` 2048) `mod` 32) * 2048.
Proof.
  change 0xf800 with (Z.ones 5 ≪ 11). rewrite land_field by lia.
  by shifts_to_div.
Qed.

Lemma set_mono_threshold_fields (info : capture_info) (t : Z) :
  0 <= t <= 255 →
  mono_threshold_r5 (set_mono_threshold info t) = t ≫ 3 ∧
  mono_threshold_g6 (set_mono_threshold info t) = (t ≫ 2) ≪ 5 ∧
  mono_threshold_b5 (set_mono_threshold info t) = (t ≫ 3) ≪ 11.
Proof.
  intros Ht. cbn. unfold u8. rewrite (Z.mod_small t) by lia.
  unfold u16. shifts_to_div.
  repeat split; apply Z.mod_small; dlia.
Qed.

Lemma to_1bpp_off (info : capture_info) (p : Z) :
  to_1bpp info p = 0 ↔
  Z.land p 0x001f <= mono_threshold_r5 info ∧
  Z.land p 0x07e0 <= mono_threshold_g6 info ∧
  Z.land p 0xf800 <= mono_threshold_b5 info.
Proof.
  unfold to_1bpp. repeat case_bool_decide; cbn; split; intros; try done; lia.
Qed.

Lemma to_1bpp_on (info : capture_info) (p : Z) :
  to_1bpp info p = 1 ↔
  Z.land p 0x001f > mono_threshold_r5 info ∨
  Z.land p 0x07e0 > mono_threshold_g6 info ∨
  Z.land p 0xf800 > mono_threshold_b5 info.
Proof.
  unfold to_1bpp. repeat case_bool_decide; cbn; split; intros; try done; lia.
Qed.

Lemma to_1bpp_bit (info : capture_info) (p : Z) : to_1bpp info p = 0 ∨ to_1bpp info p = 1.
Proof. unfold to_1bpp. destruct (_ || _); auto. Qed.

(** C3.  [to_1bpp] answers 1 exactly when one of the three masked components
    of the pixel (masks 0x001f, 0x07e0, 0xf800) is strictly above its stored
    threshold, and 0 exactly when all three are at most their thresholds; it
    answers nothing else.  The masked components are the three colour
    fields left in their packed positions: bits 0-4, bits 5-10 times 32,
    bits 11-15 times 2048. *)
Theorem to_1bpp_decision (info : capture_info) (rgb565 : Z) :
  (to_1bpp info rgb565 = 1 ↔
     Z.land rgb565 0x001f > mono_threshold_r5 info ∨
     Z.land rgb565 0x07e0 > mono_threshold_g6 info ∨
     Z.land rgb565 0xf800 > mono_threshold_b5 info) ∧
  (to_1bpp info rgb565 = 0 ↔
     Z.land rgb565 0x001f <= mono_threshold_r5 info ∧
     Z.land rgb565 0x07e0 <= mono_threshold_g6 info ∧
     Z.land rgb565 0xf800 <= mono_threshold_b5 info) ∧
  (to_1bpp info rgb565 = 0 ∨ to_1bpp info rgb565 = 1) ∧
  Z.land rgb565 0x001f = rgb565 `mod` 32 ∧
  Z.land rgb565 0x07e0 = ((rgb565 `div` 32) `mod` 64) * 32 ∧
  Z.land rgb565 0xf800 = ((rgb565 `div` 2048) `mod` 32) * 2048.
Proof.
  split_and!;
    [apply to_1bpp_on | apply to_1bpp_off | apply to_1bpp_bit
    | apply land_001f | apply land_07e0 | apply land_f800].
Qed.

(** C5.  For one pixel and two 8-bit threshold inputs [t1 <= t2]: if the
    undithered decision is off after [set_mono_threshold] with [t1], it is
    off after [set_mono_threshold] with [t2]. *)
Theorem threshold_monotone (info : capture_info) (rgb565 t1 t2 : Z) :
  0 <= t1 → t1 <= t2 → t2 <= 255 →
  to_1bpp (set_mono_threshold info t1) rgb565 = 0 →
  to_1bpp (set_mono_threshold info t2) rgb565 = 0.
Proof.
  intros H0 H12 H2. rewrite !to_1bpp_off.
  destruct (set_mono_threshold_fields info t1) as (-> & -> & ->); [lia|].
  destruct (set_mono_threshold_fields info t2) as (-> & -> & ->); [lia|].
  shifts_to_div. intros (Hr & Hg & Hb).
  assert (t1 `div` 8 <= t2 `div` 8) by (apply Z.div_le_mono; lia).
  assert (t1 `div` 4 <= t2 `div` 4) by (apply Z.div_le_mono; lia).
  lia.
Qed.

Lemma threshold_monotone_witness :
  to_1bpp (set_mono_threshold (mk_capture_info [] 0 0 0 0 0 0 [] [] [] 0 0 0 0 0 0) 200) 0x18c3 = 0.
Proof.
  apply (threshold_monotone (mk_capture_info [] 0 0 0 0 0 0 [] [] [] 0 0 0 0 0 0) 0x18c3 25 200);
    [lia|lia|lia|reflexivity].
Defined.

(** ** The command parser *)

Lemma load_prefix (content stale : list Z) (i : nat) (v : Z) :
  content !! i = Some v → load (content ++ stale) (Z.of_nat i) = Done v.
Proof.
  intros Hv. unfold load. rewrite bool_decide_true by lia.
  rewrite Nat2Z.id. by rewrite (lookup_app_l_Some _ _ _ _ Hv).
Qed.

Lemma load_at_0 (a : Z) (l : list Z) : load (a :: l) 0 = Done a.
Proof. done. Qed.
Lemma load_at_1 (a b : Z) (l : list Z) : load (a :: b :: l) 1 = Done b.
Proof. done. Qed.
Lemma load_at_2 (a b c : Z) (l : list Z) : load (a :: b :: c :: l) 2 = Done c.
Proof. done. Qed.
Lemma load_at_3 (a b c d : Z) (l : list Z) : load (a :: b :: c :: d :: l) 3 = Done d.
Proof. done. Qed.
Lemma load_at_4 (a b c d e : Z) (l : list Z) :
  load (a :: b :: c :: d :: e :: l) 4 = Done e.
Proof. done. Qed.
Lemma load_at_5 (a b c d e f : Z) (l : list Z) :
  load (a :: b :: c :: d :: e :: f :: l) 5 = Done f.
Proof. done. Qed.

Lemma length_wire (f : frame) :
  Z.of_nat (length (wire f)) = 4 + frame_length_byte f.
Proof. unfold wire, frame_length_byte. cbn [length app]. lia. Qed.

Lemma well_formed_len (f : frame) :
  well_formed f → u8 (4 + frame_length_byte f) = Z.of_nat (length (wire f)).
Proof.
  intros [Hl _]. rewrite length_wire. unfold u8. apply Z.mod_small.
  unfold frame_length_byte in *. lia.
Qed.

(** The switch acts as the table of effects says, on a buffer that starts
    with a well-formed frame. *)
Lemma switch_command_frame (info : capture_info) (f : frame) (rest : list Z) :
  well_formed f →
  request_buffer info = wire f ++ rest →
  ∃ info',
    switch_command info (frame_code f) = Done (info', frame_dispatch f) ∧
    session_view info' = session_view (frame_effect info f) ∧
    request_buffer info' = request_buffer info ∧
    request_buffer_ix info' = request_buffer_ix info.
Proof.
  intros [_ Harg] Hbuf. unfold switch_command, frame_effect, frame_dispatch.
  repeat case_bool_decide; try (eexists; split_and!; done).
  - destruct (frame_args f) as [|a args] eqn:Ha; [naive_solver|].
    rewrite Hbuf. rewrite (load_prefix _ _ 5 a); [|unfold wire; by rewrite Ha].
    unfold frame_arg. rewrite Ha. eexists; split_and!; done.
  - destruct (frame_args f) as [|a args] eqn:Ha; [naive_solver|].
    rewrite Hbuf. rewrite (load_prefix _ _ 5 a); [|unfold wire; by rewrite Ha].
    unfold frame_arg. rewrite Ha. eexists; split_and!; done.
Qed.

Lemma frame_effect_view (info1 info2 : capture_info) (f : frame) :
  session_view info1 = session_view info2 →
  session_view (frame_effect info1 f) = session_view (frame_effect info2 f).
Proof.
  unfold session_view, frame_effect. intros [= ? ? ? ? ?].
  repeat case_bool_decide; cbn; congruence.
Qed.

Lemma foldl_frame_effect_view (fs : list frame) (info1 info2 : capture_info) :
  session_view info1 = session_view info2 →
  session_view (foldl frame_effect info1 fs) = session_view (foldl frame_effect info2 fs).
Proof.
  revert info1 info2. induction fs as [|f fs IH]; intros info1 info2 Hv; [done|].
  cbn. by apply IH, frame_effect_view.
Qed.

(** One pass through the loop body, for a buffer whose header is in place:
    it dispatches on the byte at offset 4 and drops [len] bytes. *)
Lemma parse_commands_step (fuel : nat) (info : capture_info) (log : list dispatch)
    (L cmd : Z) (rest : list Z) :
  request_buffer info = [0; 0; 0; L; cmd] ++ rest →
  5 <= request_buffer_ix info →
  u8 (4 + L) <= request_buffer_ix info →
  parse_commands (S fuel) info log =
    '(info1, ev) ← switch_command info cmd;
    let ix := request_buffer_ix info1 - u8 (4 + L) in
    let buf := if bool_decide (ix > 0)
               then memmove_front (request_buffer info1) (u8 (4 + L)) ix
               else request_buffer info1 in
    parse_commands fuel (store_request info1 buf ix) (log ++ [ev]).
Proof.
  intros Hbuf H5 Hlen. cbn [parse_commands].
  rewrite bool_decide_true by lia. rewrite Hbuf. cbn [app].
  rewrite load_at_0, load_at_1, load_at_2, load_at_3, load_at_4.
  cbn [mbind result_bind]. change (bool_decide (0 ≠ 0)) with false. cbn [orb].
  by rewrite bool_decide_false by lia.
Qed.

(** A header whose frame is not complete yet ends the loop. *)
Lemma parse_commands_wait (fuel : nat) (info : capture_info) (log : list dispatch)
    (L : Z) (rest : list Z) :
  request_buffer info = [0; 0; 0; L] ++ rest →
  request_buffer_ix info < u8 (4 + L) →
  parse_commands (S fuel) info log = Done (info, log).
Proof.
  intros Hbuf Hlen. cbn [parse_commands].
  case_bool_decide; [|done]. rewrite Hbuf. cbn [app].
  rewrite load_at_0, load_at_1, load_at_2, load_at_3.
  cbn [mbind result_bind]. change (bool_decide (0 ≠ 0)) with false. cbn [orb].
  by rewrite bool_decide_true by lia.
Qed.

Lemma parse_commands_short (fuel : nat) (info : capture_info) (log : list dispatch) :
  request_buffer_ix info < 5 → parse_commands fuel info log = Done (info, log).
Proof. intros H. destruct fuel; cbn; by rewrite bool_decide_false by lia. Qed.

Lemma memmove_front_app (front kept stale : list Z) :
  ∃ stale',
    memmove_front (front ++ kept ++ stale) (Z.of_nat (length front)) (Z.of_nat (length kept))
      = kept ++ stale' ∧
    length (kept ++ stale') = length (front ++ kept ++ stale).
Proof.
  unfold memmove_front. rewrite !Nat2Z.id.
  rewrite drop_app_length, take_app_length.
  eexists. split; [done|].
  rewrite !length_app, length_drop, !length_app. lia.
Qed.

Lemma partial_frame_header (q : list Z) :
  partial_frame q → (5 <= length q)%nat →
  ∃ L rest, q = [0; 0; 0; L] ++ rest ∧ Z.of_nat (length q) < u8 (4 + L).
Proof.
  intros (f & more & Hwf & Hw & Hmore) Hq.
  pose proof (well_formed_len f Hwf) as Hlen. rewrite Hw in Hlen.
  do 5 (destruct q as [|? q]; [cbn in Hq; lia|]).
  unfold wire in Hw. cbn in Hw. injection Hw as <- <- <- <- <- Hargs.
  eexists _, _. split; [done|]. rewrite Hlen, length_app.
  destruct more; [done|]. cbn [length]. lia.
Qed.

(** The loop on a buffer that holds whole frames and a partial one: every
    frame is dispatched in order, the partial frame is left at the start of
    the buffer. *)
Lemma parse_commands_frames (fs : list frame) :
  ∀ (fuel : nat) (info : capture_info) (log : list dispatch) (q stale : list Z),
    Forall well_formed fs → partial_frame q →
    request_buffer info = (wires fs ++ q) ++ stale →
    request_buffer_ix info = Z.of_nat (length (wires fs ++ q)) →
    (length fs < fuel)%nat →
    ∃ info' stale',
      parse_commands fuel info log = Done (info', log ++ (frame_dispatch <$> fs)) ∧
      session_view info' = session_view (foldl frame_effect info fs) ∧
      request_buffer info' = q ++ stale' ∧
      request_buffer_ix info' = Z.of_nat (length q) ∧
      length (request_buffer info') = length (request_buffer info).
Proof.
  induction fs as [|f fs IH]; intros fuel info log q stale Hwf Hq Hbuf Hix Hfuel.
  - cbn in Hbuf, Hix. exists info, stale. rewrite app_nil_r.
    split_and!; try done.
    destruct (decide (5 <= length q)%nat) as [Hlong|Hshort].
    + destruct (partial_frame_header q Hq Hlong) as (L & rest & -> & Hlt).
      destruct fuel as [|fuel]; [cbn in Hfuel; lia|].
      eapply parse_commands_wait; [by rewrite Hbuf|lia].
    + apply parse_commands_short. lia.
  - inversion_clear Hwf as [|? ? Hf Hwf']. rename Hwf' into Hwf.
    destruct fuel as [|fuel]; [lia|]. cbn [length] in Hfuel.
    unfold wires in Hbuf, Hix. cbn [fmap list_fmap concat] in Hbuf, Hix.
    fold (wires fs) in Hbuf, Hix.
    assert (Hbuf' : request_buffer info = wire f ++ (wires fs ++ q) ++ stale).
    { rewrite Hbuf. by rewrite <- !(assoc_L (++)). }
    assert (Hix' : request_buffer_ix info
                   = Z.of_nat (length (wire f)) + Z.of_nat (length (wires fs ++ q))).
    { rewrite Hix. rewrite <- !(assoc_L (++)), (length_app (wire f)). lia. }
    pose proof (well_formed_len f Hf) as Hlen.
    pose proof (length_wire f) as Hlw.
    assert (1 <= frame_length_byte f) by (unfold frame_length_byte; lia).
    erewrite parse_commands_step; cycle 1.
    { rewrite Hbuf'. unfold wire. by rewrite <- !(assoc_L (++)). }
    { lia. }
    { lia. }
    destruct (switch_command_frame info f _ Hf Hbuf')
      as (info1 & -> & Hview & Hbuf1 & Hix1).
    cbn [mbind result_bind]. rewrite Hbuf1, Hix1, Hlen, Hix', Hbuf'.
    replace (Z.of_nat (length (wire f)) + Z.of_nat (length (wires fs ++ q))
             - Z.of_nat (length (wire f)))
      with (Z.of_nat (length (wires fs ++ q))) by lia.
    destruct (memmove_front_app (wire f) (wires fs ++ q) stale) as (stale1 & Hmv & Hmvlen).
    set (buf1 := if bool_decide (Z.of_nat (length (wires fs ++ q)) > 0)
                 then memmove_front (wire f ++ (wires fs ++ q) ++ stale)
                        (Z.of_nat (length (wire f))) (Z.of_nat (length (wires fs ++ q)))
                 else wire f ++ (wires fs ++ q) ++ stale).
    assert (∃ stale2, buf1 = (wires fs ++ q) ++ stale2 ∧
                      length buf1 = length (wire f ++ (wires fs ++ q) ++ stale))
      as (stale2 & Hb1 & Hb1len).
    { unfold buf1. case_bool_decide as Hpos.
      - exists stale1. by rewrite Hmv.
      - assert (wires fs ++ q = []) as ->
          by (apply length_zero_iff_nil; lia).
        eexists. split; done. }
    destruct (IH fuel (store_request info1 buf1 (Z.of_nat (length (wires fs ++ q))))
                (log ++ [frame_dispatch f]) q stale2) as (info' & stale' & Hrun & Hv' & Hb' & Hi' & Hl');
      [done|done|done|done|lia|].
    exists info', stale'. split_and!; try done.
    + rewrite Hrun. by rewrite fmap_cons, <- (assoc_L (++)).
    + rewrite Hv'. cbn [foldl]. apply foldl_frame_effect_view.
      by rewrite <- Hview.
    + rewrite Hl'. cbn [request_buffer store_request]. by rewrite Hb1len.
Qed.

(** One call of [handle_stdin] on a buffer that holds the partial frame [p],
    when the bytes read complete [p] to whole frames and a new partial
    frame. *)
Lemma handle_stdin_frames (MAX : Z) (fuel : nat) (info : capture_info)
    (p stale c : list Z) (fs : list frame) (q : list Z) :
  request_buffer info = p ++ stale →
  request_buffer_ix info = Z.of_nat (length p) →
  Z.of_nat (length (request_buffer info)) = MAX →
  c ≠ [] →
  Z.of_nat (length p + length c) <= MAX - 1 →
  p ++ c = wires fs ++ q →
  Forall well_formed fs → partial_frame q →
  (length fs < fuel)%nat →
  ∃ info' stale',
    handle_stdin MAX fuel info (Some c) = Done (info', frame_dispatch <$> fs) ∧
    session_view info' = session_view (foldl frame_effect info fs) ∧
    request_buffer info' = q ++ stale' ∧
    request_buffer_ix info' = Z.of_nat (length q) ∧
    length (request_buffer info') = length (request_buffer info).
Proof.
  intros Hbuf Hix Hmax Hc Hfit Hsplit Hwf Hq Hfuel.
  unfold handle_stdin. rewrite Hix.
  rewrite bool_decide_false by lia.
  rewrite take_ge by lia.
  rewrite bool_decide_false; cycle 1.
  { destruct c; [done|]. cbn [length]. lia. }
  rewrite Hbuf. unfold store_at. rewrite Nat2Z.id, take_app_length.
  set (stale1 := drop (length p + length c) (p ++ stale)).
  destruct (parse_commands_frames fs fuel
              (store_request info (p ++ c ++ stale1)
                 (Z.of_nat (length p) + Z.of_nat (length c)))
              [] q stale1)
    as (info' & stale' & Hrun & Hview & Hb & Hi & Hl); try done.
  - cbn [request_buffer store_request]. by rewrite <- Hsplit, <- (assoc_L (++)).
  - cbn [request_buffer_ix store_request]. rewrite <- Hsplit, length_app. lia.
  - exists info', stale'. split_and!; try done.
    + rewrite Hview. by apply foldl_frame_effect_view.
    + rewrite Hl. cbn [request_buffer store_request]. unfold stale1.
      rewrite Hbuf in Hmax.
      rewrite !length_app, length_drop, !length_app in *. lia.
Qed.

(** Any cut of a stream of frames falls inside one frame or between two. *)
Lemma wires_split (fs : list frame) :
  ∀ (a b q : list Z),
    Forall well_formed fs →
    a ++ b = wires fs ++ q → partial_frame q →
    ∃ fs1 fs2 p,
      fs = fs1 ++ fs2 ∧ a = wires fs1 ++ p ∧ partial_frame p ∧
      p ++ b = wires fs2 ++ q.
Proof.
  induction fs as [|f fs IH]; intros a b q Hwf Hab Hq.
  - exists [], [], a. split_and!; try done.
    destruct Hq as (f & rest & Hf & Hw & Hrest).
    exists f, (b ++ rest). split_and!; [done| |].
    + cbn in Hab. by rewrite Hw, <- Hab, <- (assoc_L (++)).
    + by destruct b.
  - inversion_clear Hwf as [|? ? Hf Hfs].
    unfold wires in Hab. cbn [fmap list_fmap concat] in Hab. fold (wires fs) in Hab.
    rewrite <- (assoc_L (++)) in Hab.
    apply app_eq_inv in Hab as [(k & Ha & Hk)|(k & Hw & Hb)].
    + (* the cut is at or after the end of the first frame *)
      destruct (IH k b q) as (fs1 & fs2 & p & -> & -> & Hp & Hpb); [done|done|done|].
      exists (f :: fs1), fs2, p. split_and!; try done.
      rewrite Ha. unfold wires. cbn [fmap list_fmap concat].
      by rewrite <- (assoc_L (++)).
    + destruct (decide (k = [])) as [->|Hk].
      * (* the cut is at the end of the first frame *)
        rewrite app_nil_r in Hw. cbn [app] in Hb.
        exists [f], fs, []. split_and!; try done.
        -- unfold wires. cbn [fmap list_fmap concat]. by rewrite !app_nil_r.
        -- exists f, (wire f). by split_and!.
      * (* the cut is inside the first frame *)
        exists [], (f :: fs), a. split_and!; try done.
        -- by exists f, k.
        -- rewrite Hb. unfold wires. cbn [fmap list_fmap concat].
           by rewrite Hw, <- !(assoc_L (++)).
Qed.

(** Successive calls over any cut of the stream into non-empty pieces. *)
Lemma deliver_frames (MAX : Z) (fuel : nat) (chunks : list (list Z)) :
  ∀ (c : list Z) (info : capture_info) (p stale : list Z) (fs : list frame) (q : list Z),
    request_buffer info = p ++ stale →
    request_buffer_ix info = Z.of_nat (length p) →
    Z.of_nat (length (request_buffer info)) = MAX →
    Forall (λ c, c ≠ []) (c :: chunks) →
    Z.of_nat (length p + length (concat (c :: chunks))) <= MAX - 1 →
    p ++ concat (c :: chunks) = wires fs ++ q →
    Forall well_formed fs → partial_frame q →
    (length fs < fuel)%nat →
    ∃ info' stale',
      deliver MAX fuel info (c :: chunks) = Done (info', frame_dispatch <$> fs) ∧
      session_view info' = session_view (foldl frame_effect info fs) ∧
      request_buffer info' = q ++ stale' ∧
      request_buffer_ix info' = Z.of_nat (length q) ∧
      length (request_buffer info') = length (request_buffer info).
Proof.
  induction chunks as [|c' chunks IH];
    intros c info p stale fs q Hbuf Hix Hmax Hne Hfit Hsplit Hwf Hq Hfuel.
  - cbn [concat] in Hfit, Hsplit. rewrite app_nil_r in Hfit, Hsplit.
    inversion_clear Hne as [|? ? Hc _].
    destruct (handle_stdin_frames MAX fuel info p stale c fs q
                Hbuf Hix Hmax Hc Hfit Hsplit Hwf Hq Hfuel)
      as (info' & stale' & Hrun & Hrest).
    exists info', stale'. split; [|done].
    cbn [deliver]. rewrite Hrun. cbn. by rewrite app_nil_r.
  - inversion_clear Hne as [|? ? Hc Hne'].
    cbn [concat] in Hfit, Hsplit. rewrite (assoc_L (++)) in Hsplit.
    destruct (wires_split fs (p ++ c) (concat (c' :: chunks)) q)
      as (fs1 & fs2 & p1 & -> & Hpc & Hp1 & Hrest); [done|done|done|].
    apply Forall_app in Hwf as [Hwf1 Hwf2].
    rewrite length_app in Hfuel, Hfit.
    assert (Hsz : (length p + length c = length (wires fs1) + length p1)%nat).
    { rewrite <- !length_app. by rewrite Hpc. }
    assert (Hfit0 : Z.of_nat (length p + length c) <= MAX - 1) by lia.
    assert (Hfuel1 : (length fs1 < fuel)%nat) by lia.
    destruct (handle_stdin_frames MAX fuel info p stale c fs1 p1
                Hbuf Hix Hmax Hc Hfit0 Hpc Hwf1 Hp1 Hfuel1)
      as (info1 & stale1 & Hrun1 & Hview1 & Hbuf1 & Hix1 & Hlen1).
    assert (Hmax1 : Z.of_nat (length (request_buffer info1)) = MAX) by lia.
    assert (Hfit1 : Z.of_nat (length p1 + length (concat (c' :: chunks))) <= MAX - 1).
    { cbn [concat]. lia. }
    assert (Hfuel2 : (length fs2 < fuel)%nat) by lia.
    destruct (IH c' info1 p1 stale1 fs2 q Hbuf1 Hix1 Hmax1 Hne' Hfit1 Hrest Hwf2 Hq Hfuel2)
      as (info' & stale' & Hrun2 & Hview2 & Hbuf2 & Hix2 & Hlen2).
    exists info', stale'. split_and!; try done.
    + cbn [deliver]. rewrite Hrun1. cbn [mbind result_bind].
      cbn [deliver] in Hrun2. rewrite Hrun2. cbn. by rewrite fmap_app.
    + rewrite Hview2, foldl_app. by apply foldl_frame_effect_view.
    + lia.
Qed.

Ltac solve_well_formed :=
  split; unfold frame_length_byte; cbn;
  [lia | intros H; first [discriminate | destruct H; discriminate]].

(** C1.  Chunking invariance.  A stream of well-formed frames followed by a
    partial frame, cut into non-empty pieces at any byte boundaries and
    delivered to [handle_stdin] one piece per call, dispatches the same
    commands in the same order and ends in the same session state (pending
    request, thresholds, dithering mode) as the whole stream delivered in
    one call; in both cases exactly the trailing partial frame is left, at
    the start of the inbound buffer.  The stream is one that a single call
    can take: at most [MAX_REQUEST_BUFFER_SIZE - 1] bytes. *)
Theorem chunking_invariance (MAX : Z) (fuel : nat) (info : capture_info)
    (fs : list frame) (q : list Z) (c : list Z) (chunks : list (list Z)) :
  request_buffer_ix info = 0 →
  Z.of_nat (length (request_buffer info)) = MAX →
  Forall well_formed fs → partial_frame q →
  Forall (λ c, c ≠ []) (c :: chunks) →
  concat (c :: chunks) = wires fs ++ q →
  Z.of_nat (length (concat (c :: chunks))) <= MAX - 1 →
  (length fs < fuel)%nat →
  ∃ whole pieces,
    handle_stdin MAX fuel info (Some (concat (c :: chunks)))
      = Done (whole, frame_dispatch <$> fs) ∧
    deliver MAX fuel info (c :: chunks) = Done (pieces, frame_dispatch <$> fs) ∧
    session_view pieces = session_view whole ∧
    session_view whole = session_view (foldl frame_effect info fs) ∧
    request_buffer_ix pieces = Z.of_nat (length q) ∧
    request_buffer_ix whole = Z.of_nat (length q) ∧
    q `prefix_of` request_buffer pieces ∧
    q `prefix_of` request_buffer whole.
Proof.
  intros Hix Hmax Hwf Hq Hne Hsplit Hfit Hfuel.
  assert (Hbuf : request_buffer info = [] ++ request_buffer info) by done.
  assert (Hwhole : concat (c :: chunks) ≠ []).
  { inversion_clear Hne as [|? ? Hc _]. cbn [concat]. by destruct c. }
  destruct (handle_stdin_frames MAX fuel info [] (request_buffer info)
              (concat (c :: chunks)) fs q Hbuf Hix Hmax Hwhole Hfit Hsplit Hwf Hq Hfuel)
    as (whole & stale1 & Hrun1 & Hview1 & Hbuf1 & Hix1 & _).
  destruct (deliver_frames MAX fuel chunks c info [] (request_buffer info) fs q
              Hbuf Hix Hmax Hne Hfit Hsplit Hwf Hq Hfuel)
    as (pieces & stale2 & Hrun2 & Hview2 & Hbuf2 & Hix2 & _).
  exists whole, pieces. split_and!; try done.
  - by rewrite Hview1.
  - by exists stale2.
  - by exists stale1.
Qed.

Lemma chunking_invariance_witness :
  let info := mk_capture_info [] 0 0 0 0 0 0 [] [] (replicate 256 0) 0 0 0 0 0 0 in
  let fs := [mk_frame 6 [255]; mk_frame 3 []] in
  let q := [0; 0; 0; 2; 7] in
  let c := [0; 0; 0; 2; 6] in
  let chunks := [[255; 0; 0; 0; 1; 3; 0; 0]; [0; 2; 7]] in
  ∃ whole pieces,
    handle_stdin 256 3 info (Some (concat (c :: chunks)))
      = Done (whole, frame_dispatch <$> fs) ∧
    deliver 256 3 info (c :: chunks) = Done (pieces, frame_dispatch <$> fs) ∧
    session_view pieces = session_view whole ∧
    session_view whole = session_view (foldl frame_effect info fs) ∧
    request_buffer_ix pieces = Z.of_nat (length q) ∧
    request_buffer_ix whole = Z.of_nat (length q) ∧
    q `prefix_of` request_buffer pieces ∧
    q `prefix_of` request_buffer whole.
Proof.
  intros info fs q c chunks.
  apply (chunking_invariance 256 3 info fs q c chunks).
  - reflexivity.
  - reflexivity.
  - do 2 (constructor; [solve_well_formed|]). constructor.
  - exists (mk_frame 7 [1]), [1]. split_and!; [solve_well_formed|reflexivity|discriminate].
  - do 3 (constructor; [discriminate|]). constructor.
  - reflexivity.
  - cbn. lia.
  - cbn. lia.
Defined.

(** The switch reads its argument at offset 5 of the buffer. *)
Lemma switch_command_arg (info : capture_info) (cmd arg : Z) :
  load (request_buffer info) 5 = Done arg →
  ∃ info',
    switch_command info cmd = Done (info', frame_dispatch (mk_frame cmd [arg])) ∧
    session_view info' = session_view (frame_effect info (mk_frame cmd [arg])) ∧
    request_buffer info' = request_buffer info ∧
    request_buffer_ix info' = request_buffer_ix info.
Proof.
  intros Harg. unfold switch_command, frame_effect, frame_dispatch. cbn.
  rewrite Harg.
  repeat case_bool_decide; eexists; split_and!; done.
Qed.

(** C4.  Command code 6 with argument byte [t]: the stored thresholds become
    [t >> 3], [(t >> 2) << 5] and [(t >> 3) << 11]; with [t = 255] they are
    the largest values of their fields, 0x001f, 0x07e0 and 0xf800, and no
    pixel is on. *)
Theorem threshold_command (MAX : Z) (fuel : nat) (info : capture_info) (t : Z) :
  0 <= t <= 255 →
  request_buffer_ix info = 0 →
  Z.of_nat (length (request_buffer info)) = MAX →
  7 <= MAX →
  (1 < fuel)%nat →
  ∃ info',
    handle_stdin MAX fuel info (Some [0; 0; 0; 2; 6; t]) = Done (info', [SetThreshold t]) ∧
    mono_threshold_r5 info' = t ≫ 3 ∧
    mono_threshold_g6 info' = (t ≫ 2) ≪ 5 ∧
    mono_threshold_b5 info' = (t ≫ 3) ≪ 11 ∧
    (t = 255 →
       mono_threshold_r5 info' = 0x001f ∧
       mono_threshold_g6 info' = 0x07e0 ∧
       mono_threshold_b5 info' = 0xf800 ∧
       ∀ rgb565, to_1bpp info' rgb565 = 0).
Proof.
  intros Ht Hix Hmax H7 Hfuel.
  assert (Hbuf : request_buffer info = [] ++ request_buffer info) by done.
  assert (Hwf : Forall well_formed [mk_frame 6 [t]]).
  { constructor; [solve_well_formed|constructor]. }
  assert (Hq : partial_frame []).
  { exists (mk_frame 1 []), (wire (mk_frame 1 [])).
    split_and!; [solve_well_formed|reflexivity|discriminate]. }
  destruct (handle_stdin_frames MAX fuel info [] (request_buffer info)
              [0; 0; 0; 2; 6; t] [mk_frame 6 [t]] [])
    as (info' & stale' & Hrun & Hview & _); try done.
  { cbn. lia. }
  unfold session_view in Hview. cbn [foldl] in Hview.
  unfold frame_effect in Hview. cbn in Hview.
  injection Hview as _ Hr Hg Hb _.
  destruct (set_mono_threshold_fields info t Ht) as (Hr' & Hg' & Hb').
  cbn in Hr', Hg', Hb'.
  exists info'. split; [done|].
  rewrite Hr, Hg, Hb, Hr', Hg', Hb'. split_and!; try done.
  intros ->. split_and!; try done.
  intros p. apply to_1bpp_off. rewrite Hr, Hg, Hb, Hr', Hg', Hb'.
  rewrite land_001f, land_07e0, land_f800.
  change (255 ≫ 3) with 31. change ((255 ≫ 2) ≪ 5) with 2016.
  change (31 ≪ 11) with 63488.
  pose proof (Z.mod_pos_bound p 32). pose proof (Z.mod_pos_bound (p `div` 32) 64).
  pose proof (Z.mod_pos_bound (p `div` 2048) 32). lia.
Qed.

Lemma threshold_command_witness :
  ∃ info',
    handle_stdin 256 2 (mk_capture_info [] 0 0 0 0 0 0 [] [] (replicate 256 0) 0 0 0 0 0 0)
      (Some [0; 0; 0; 2; 6; 255]) = Done (info', [SetThreshold 255]) ∧
    mono_threshold_r5 info' = 255 ≫ 3 ∧
    mono_threshold_g6 info' = (255 ≫ 2) ≪ 5 ∧
    mono_threshold_b5 info' = (255 ≫ 3) ≪ 11 ∧
    (255 = 255 →
       mono_threshold_r5 info' = 0x001f ∧
       mono_threshold_g6 info' = 0x07e0 ∧
       mono_threshold_b5 info' = 0xf800 ∧
       ∀ rgb565, to_1bpp info' rgb565 = 0).
Proof.
  apply (threshold_command 256 2); [lia|reflexivity|reflexivity|lia|lia].
Defined.

(** C9.  One pass of the parser loop over a buffer [00 00 00 L cmd arg ...]
    acts on [cmd], read at offset 4, and on [arg], read at offset 5,
    whatever [L] is, and drops [len = (4 + L) mod 256] bytes.  With [L = 0]
    it drops the 4 header bytes only, so the byte it dispatched on is the
    first byte of what is parsed next.  With [L = 1] it drops 5 bytes, so
    the argument of a code 6 or 7 is the byte behind the frame, which stays
    in the buffer as the first byte of what is parsed next. *)
Theorem fixed_offset_reads (fuel : nat) (info : capture_info) (log : list dispatch)
    (L cmd arg : Z) (rest : list Z) :
  request_buffer info = [0; 0; 0; L; cmd; arg] ++ rest →
  5 <= request_buffer_ix info →
  u8 (4 + L) <= request_buffer_ix info →
  request_buffer_ix info <= Z.of_nat (length (request_buffer info)) →
  ∃ info1,
    parse_commands (S fuel) info log
      = parse_commands fuel info1 (log ++ [frame_dispatch (mk_frame cmd [arg])]) ∧
    session_view info1 = session_view (frame_effect info (mk_frame cmd [arg])) ∧
    (cmd = 6 → session_view info1 = session_view (set_mono_threshold info arg)) ∧
    (cmd = 7 → session_view info1 = session_view (set_dithering info arg)) ∧
    request_buffer_ix info1 = request_buffer_ix info - u8 (4 + L) ∧
    (L = 0 →
       request_buffer_ix info1 = request_buffer_ix info - 4 ∧
       request_buffer info1 !! 0%nat = Some cmd) ∧
    (L = 1 →
       request_buffer_ix info1 = request_buffer_ix info - 5 ∧
       (6 <= request_buffer_ix info → request_buffer info1 !! 0%nat = Some arg)).
Proof.
  intros Hbuf H5 Hlen Hcap.
  erewrite parse_commands_step; [|by rewrite Hbuf|done|done].
  destruct (switch_command_arg info cmd arg) as (info0 & -> & Hview & Hbuf0 & Hix0).
  { by rewrite Hbuf. }
  cbn [mbind result_bind]. rewrite Hbuf0, Hix0.
  eexists. split; [reflexivity|].
  rewrite Hbuf in Hcap. cbn [length app] in Hcap.
  match goal with
  | |- context [session_view (store_request ?a ?b ?c)] =>
      change (session_view (store_request a b c)) with (session_view a)
  end.
  cbn [request_buffer request_buffer_ix store_request].
  split_and!; try done.
  - intros ->. rewrite Hview. unfold frame_effect. cbn.
    repeat case_bool_decide; (done || lia).
  - intros ->. rewrite Hview. unfold frame_effect. cbn.
    repeat case_bool_decide; (done || lia).
  - intros ->. change (u8 (4 + 0)) with 4. split; [done|].
    rewrite bool_decide_true by lia. unfold memmove_front.
    rewrite lookup_app_l by (rewrite length_take, length_drop, Hbuf; cbn [length app]; lia).
    rewrite lookup_take_lt by lia. rewrite lookup_drop. by rewrite Hbuf.
  - intros ->. change (u8 (4 + 1)) with 5. split; [done|]. intros H6.
    rewrite bool_decide_true by lia. unfold memmove_front.
    rewrite lookup_app_l by (rewrite length_take, length_drop, Hbuf; cbn [length app]; lia).
    rewrite lookup_take_lt by lia. rewrite lookup_drop. by rewrite Hbuf.
Qed.

Lemma fixed_offset_reads_witness :
  let info := mk_capture_info [] 0 0 0 0 0 0 [] []
                ([0; 0; 0; 1; 6; 0] ++ [0; 0; 1; 3] ++ replicate 246 9) 10 0 3 96 6144 0 in
  ∃ info1,
    parse_commands 3 info []
      = parse_commands 2 info1 ([] ++ [frame_dispatch (mk_frame 6 [0])]) ∧
    session_view info1 = session_view (frame_effect info (mk_frame 6 [0])) ∧
    (6 = 6 → session_view info1 = session_view (set_mono_threshold info 0)) ∧
    (6 = 7 → session_view info1 = session_view (set_dithering info 0)) ∧
    request_buffer_ix info1 = request_buffer_ix info - u8 (4 + 1) ∧
    (1 = 0 →
       request_buffer_ix info1 = request_buffer_ix info - 4 ∧
       request_buffer info1 !! 0%nat = Some 6) ∧
    (1 = 1 →
       request_buffer_ix info1 = request_buffer_ix info - 5 ∧
       (6 <= request_buffer_ix info → request_buffer info1 !! 0%nat = Some 0)).
Proof.
  intros info.
  apply (fixed_offset_reads 2 info [] 1 6 0 ([0; 0; 1; 3] ++ replicate 246 9)).
  - reflexivity.
  - by vm_compute.
  - by vm_compute.
  - by vm_compute.
Defined.

(** A frame with [L = 0] in front of a snapshot request: the loop dispatches
    on the 0 that opens the next frame, then parses that frame. *)
Example zero_length_frame :
  handle_stdin 256 4 (mk_capture_info [] 0 0 0 0 0 0 [] [] (replicate 256 9) 0 0 3 96 6144 0)
    (Some [0; 0; 0; 0; 0; 0; 0; 1; 3])
  = Done (mk_capture_info [] 0 0 0 0 0 0 [] []
            ([0; 0; 0; 1; 3; 0; 0; 1; 3] ++ replicate 247 9) 0 3 3 96 6144 0,
          [Ignored 0; SelectSnapshot 3]).
Proof. vm_compute. reflexivity. Qed.

(** A code 6 frame with [L = 1] in front of a snapshot request: the
    threshold becomes the 0 that opens the next frame. *)
Example short_threshold_frame :
  handle_stdin 256 4 (mk_capture_info [] 0 0 0 0 0 0 [] [] (replicate 256 9) 0 0 3 96 6144 0)
    (Some [0; 0; 0; 1; 6; 0; 0; 0; 1; 3])
  = Done (mk_capture_info [] 0 0 0 0 0 0 [] []
            ([0; 0; 0; 1; 3; 0; 0; 0; 1; 3] ++ replicate 246 9) 0 3 0 0 0 0,
          [SetThreshold 0; SelectSnapshot 3]).
Proof. vm_compute. reflexivity. Qed.

(** ** Loops *)

Section ForLoop.
Context {S : Type}.
Implicit Types (body : Z → S → result S) (s : S).

(** A loop whose counter does not wrap runs its body on
    [0, step, 2 step, ...] until the counter reaches [bound]. *)
Lemma for_loop_run_from (step bound : Z) body (st : nat → S) (n : nat) :
  (∀ k, (k < n)%nat → Z.of_nat k * step < bound) →
  bound <= Z.of_nat n * step →
  (∀ k, (k < n)%nat → body (Z.of_nat k * step) (st k) = Done (st (Datatypes.S k))) →
  ∀ (d j fuel : nat), (j + d = n)%nat → (d <= fuel)%nat →
    for_loop id fuel (Z.of_nat j * step) bound step body (st j) = Done (st n).
Proof.
  intros Hlt Hge Hbody. induction d as [|d IH]; intros j fuel Hj Hfuel.
  - replace j with n by lia.
    destruct fuel; cbn; by rewrite bool_decide_false by lia.
  - destruct fuel as [|fuel]; [lia|]. cbn [for_loop].
    rewrite bool_decide_true by (apply Hlt; lia).
    rewrite Hbody by lia. cbn [mbind result_bind]. unfold id at 1.
    replace (Z.of_nat j * step + step) with (Z.of_nat (Datatypes.S j) * step) by lia.
    apply IH; lia.
Qed.

Lemma for_loop_run (step bound : Z) body (st : nat → S) (n fuel : nat) :
  (∀ k, (k < n)%nat → Z.of_nat k * step < bound) →
  bound <= Z.of_nat n * step →
  (∀ k, (k < n)%nat → body (Z.of_nat k * step) (st k) = Done (st (Datatypes.S k))) →
  (n <= fuel)%nat →
  for_loop id fuel 0 bound step body (st 0%nat) = Done (st n).
Proof.
  intros Hlt Hge Hbody Hfuel.
  apply (for_loop_run_from step bound body st n Hlt Hge Hbody n 0 fuel); lia.
Qed.

(** What holds when a loop is done: an invariant indexed by the number of
    iterations, and that number is the trip count. *)
Lemma for_loop_inv_from (step bound : Z) body (I : nat → S → Prop) :
  (∀ k s s', Z.of_nat k * step < bound → I k s →
             body (Z.of_nat k * step) s = Done s' → I (Datatypes.S k) s') →
  ∀ (fuel j : nat) s s',
    I j s →
    for_loop id fuel (Z.of_nat j * step) bound step body s = Done s' →
    ∃ n, (j <= n)%nat ∧ I n s' ∧ bound <= Z.of_nat n * step ∧
         (∀ k, (j <= k < n)%nat → Z.of_nat k * step < bound).
Proof.
  intros Hbody. induction fuel as [|fuel IH]; intros j s s' HI Hrun.
  - cbn in Hrun. case_bool_decide; [done|]. injection Hrun as <-.
    exists j. split_and!; [lia|done|lia|lia].
  - cbn [for_loop] in Hrun. case_bool_decide as Hlt.
    + destruct (body (Z.of_nat j * step) s) as [s1| | |] eqn:Hb; try done.
      cbn [mbind result_bind] in Hrun. unfold id at 1 in Hrun.
      replace (Z.of_nat j * step + step) with (Z.of_nat (Datatypes.S j) * step) in Hrun by lia.
      destruct (IH (Datatypes.S j) s1 s') as (n & Hn & HIn & Hge & Hlts);
        [by eapply Hbody|done|].
      exists n. split_and!; [lia|done|done|].
      intros k Hk. destruct (decide (k = j)) as [->|]; [done|]. apply Hlts. lia.
    + injection Hrun as <-. exists j. split_and!; [lia|done|lia|lia].
Qed.

Lemma for_loop_inv (step bound : Z) body (I : nat → S → Prop) (fuel : nat) s s' :
  (∀ k s s', Z.of_nat k * step < bound → I k s →
             body (Z.of_nat k * step) s = Done s' → I (Datatypes.S k) s') →
  I 0%nat s →
  for_loop id fuel 0 bound step body s = Done s' →
  ∃ n, I n s' ∧ bound <= Z.of_nat n * step ∧
       (∀ k, (k < n)%nat → Z.of_nat k * step < bound).
Proof.
  intros Hbody HI Hrun.
  destruct (for_loop_inv_from step bound body I Hbody fuel 0 s s' HI Hrun)
    as (n & _ & HIn & Hge & Hlt).
  exists n. split_and!; [done|done|]. intros k Hk. apply Hlt. lia.
Qed.

(** A [uint16_t] counter below [65536 - step] does not wrap. *)
Lemma for_loop_u16_id (step bound : Z) body :
  0 < step → bound <= 65536 - step →
  ∀ (fuel : nat) (i : Z) s, 0 <= i →
    for_loop u16 fuel i bound step body s = for_loop id fuel i bound step body s.
Proof.
  intros Hstep Hbound. induction fuel as [|fuel IH]; intros i s Hi; [done|].
  cbn [for_loop]. case_bool_decide as Hlt; [|done].
  destruct (body i s) as [s1| | |]; try done. cbn [mbind result_bind].
  replace (u16 (i + step)) with (id (i + step)).
  - apply IH. unfold id. lia.
  - unfold id, u16. symmetry. apply Z.mod_small. lia.
Qed.

(** A [uint16_t] counter that moves in steps dividing 65536 towards a
    bound above [65536 - step] wraps to zero before it reaches the bound:
    the loop is never done. *)
Lemma for_loop_u16_wraps (step bound : Z) body :
  0 < step → (step | 65536) → 65536 - step < bound →
  ∀ (fuel : nat) (i : Z) s s', 0 <= i < 65536 → (step | i) →
    for_loop u16 fuel i bound step body s ≠ Done s'.
Proof.
  intros Hstep [m Hm] Hbound.
  assert (Hlast : ∀ i c, 0 <= i < 65536 → i = c * step → i <= 65536 - step).
  { intros i c Hi Hc. assert (c < m) by nia. assert (c + 1 <= m) by lia. nia. }
  induction fuel as [|fuel IH]; intros i s s' Hi [c Hc].
  - cbn. rewrite bool_decide_true; [done|]. specialize (Hlast i c Hi Hc). lia.
  - pose proof (Hlast i c Hi Hc) as Hic.
    cbn [for_loop]. rewrite bool_decide_true by lia.
    destruct (body i s) as [s1| | |]; try done. cbn [mbind result_bind].
    apply IH.
    + unfold u16. apply Z.mod_pos_bound. lia.
    + unfold u16. destruct (decide (i + step < 65536)).
      * rewrite Z.mod_small by lia. exists (c + 1). lia.
      * replace (i + step) with 65536 by lia. exists 0. done.
Qed.

End ForLoop.

(** ** Output in blocks *)

Lemma blocks_S (f : nat → list Z) (n : nat) : blocks f (S n) = blocks f n ++ f n.
Proof.
  unfold blocks. rewrite seq_S, fmap_app, concat_app. cbn. by rewrite app_nil_r.
Qed.

Lemma length_blocks (f : nat → list Z) (m n : nat) :
  (∀ k, (k < n)%nat → length (f k) = m) → length (blocks f n) = (n * m)%nat.
Proof.
  induction n as [|n IH]; intros Hf; [done|].
  rewrite blocks_S, length_app, IH by (intros; apply Hf; lia).
  rewrite Hf by lia. lia.
Qed.

Lemma lookup_blocks (f : nat → list Z) (m n k j : nat) :
  (∀ k, (k < n)%nat → length (f k) = m) →
  (k < n)%nat → (j < m)%nat →
  blocks f n !! (k * m + j)%nat = f k !! j.
Proof.
  induction n as [|n IH]; intros Hf Hk Hj; [lia|].
  rewrite blocks_S.
  assert (Hlen : length (blocks f n) = (n * m)%nat)
    by (apply length_blocks; intros; apply Hf; lia).
  destruct (decide (k = n)) as [->|Hne].
  - rewrite lookup_app_r by lia. f_equal. lia.
  - rewrite lookup_app_l by nia. apply IH; [intros; apply Hf; lia|lia|done].
Qed.

Lemma blocks_ext (f g : nat → list Z) (n : nat) :
  (∀ k, (k < n)%nat → f k = g k) → blocks f n = blocks g n.
Proof.
  induction n as [|n IH]; intros Hfg; [done|].
  rewrite !blocks_S, IH by (intros; apply Hfg; lia).
  by rewrite Hfg by lia.
Qed.

(** ** The length field *)

Lemma add_packet_length_be32 (size : Z) :
  0 <= size < 4294967296 → be32 (add_packet_length size) = size.
Proof.
  intros Hs. unfold add_packet_length, be32, u32, u8.
  rewrite (Z.mod_small size) by lia.
  change 0xff with (Z.ones 8). rewrite !Z.land_ones by lia.
  shifts_to_div. dlia.
Qed.

Lemma length_add_packet_length (size : Z) : length (add_packet_length size) = 4%nat.
Proof. done. Qed.

Lemma add_packet_length_36 : add_packet_length 36 = [0; 0; 0; 36].
Proof. done. Qed.

(** ** Loops that emit

    A loop whose body appends the block [f k] in iteration [k] (and moves a
    pointer by [dpos]) appends [blocks f n] over its [n] iterations. *)

Lemma for_loop_emit (step bound : Z) (body : Z → list Z → result (list Z))
    (out0 : list Z) (f : nat → list Z) (n fuel : nat) :
  (∀ k, (k < n)%nat → Z.of_nat k * step < bound) →
  bound <= Z.of_nat n * step →
  (n <= fuel)%nat →
  (∀ k out, (k < n)%nat → body (Z.of_nat k * step) out = Done (out ++ f k)) →
  for_loop id fuel 0 bound step body out0 = Done (out0 ++ blocks f n).
Proof.
  intros Hlt Hge Hfuel Hbody.
  replace out0 with ((λ k, out0 ++ blocks f k) 0%nat) at 1
    by (cbn; by rewrite app_nil_r).
  apply (for_loop_run step bound body (λ k, out0 ++ blocks f k) n); try done.
  intros k Hk. rewrite Hbody by done. by rewrite blocks_S, (assoc_L (++)).
Qed.

Lemma for_loop_emit_at (step bound : Z) (body : Z → Z * list Z → result (Z * list Z))
    (pos0 dpos : Z) (out0 : list Z) (f : nat → list Z) (n fuel : nat) :
  (∀ k, (k < n)%nat → Z.of_nat k * step < bound) →
  bound <= Z.of_nat n * step →
  (n <= fuel)%nat →
  (∀ k out, (k < n)%nat →
     body (Z.of_nat k * step) (pos0 + Z.of_nat k * dpos, out)
       = Done (pos0 + Z.of_nat (S k) * dpos, out ++ f k)) →
  for_loop id fuel 0 bound step body (pos0, out0)
    = Done (pos0 + Z.of_nat n * dpos, out0 ++ blocks f n).
Proof.
  intros Hlt Hge Hfuel Hbody.
  replace (pos0, out0) with ((λ k, (pos0 + Z.of_nat k * dpos, out0 ++ blocks f k)) 0%nat)
    by (cbn; rewrite app_nil_r; f_equal; lia).
  apply (for_loop_run step bound body
           (λ k, (pos0 + Z.of_nat k * dpos, out0 ++ blocks f k)) n); try done.
  intros k Hk. rewrite Hbody by done. by rewrite blocks_S, (assoc_L (++)).
Qed.

Lemma trip_count_fuel (step bound : Z) (n : nat) :
  0 < step → (∀ k, (k < n)%nat → Z.of_nat k * step < bound) → (n <= Z.to_nat bound)%nat.
Proof. intros Hstep Hlt. destruct n as [|n]; [lia|]. specialize (Hlt n). nia. Qed.

Lemma for_int_emit (step bound : Z) (body : Z → list Z → result (list Z))
    (out0 : list Z) (f : nat → list Z) (n : nat) :
  0 < step →
  (∀ k, (k < n)%nat → Z.of_nat k * step < bound) →
  bound <= Z.of_nat n * step →
  (∀ k out, (k < n)%nat → body (Z.of_nat k * step) out = Done (out ++ f k)) →
  for_int bound step body out0 = Done (out0 ++ blocks f n).
Proof.
  intros Hstep Hlt Hge Hbody. unfold for_int.
  apply for_loop_emit; try done. by apply (trip_count_fuel step).
Qed.

Lemma for_int_emit_at (step bound : Z) (body : Z → Z * list Z → result (Z * list Z))
    (pos0 dpos : Z) (out0 : list Z) (f : nat → list Z) (n : nat) :
  0 < step →
  (∀ k, (k < n)%nat → Z.of_nat k * step < bound) →
  bound <= Z.of_nat n * step →
  (∀ k out, (k < n)%nat →
     body (Z.of_nat k * step) (pos0 + Z.of_nat k * dpos, out)
       = Done (pos0 + Z.of_nat (S k) * dpos, out ++ f k)) →
  for_int bound step body (pos0, out0)
    = Done (pos0 + Z.of_nat n * dpos, out0 ++ blocks f n).
Proof.
  intros Hstep Hlt Hge Hbody. unfold for_int.
  apply for_loop_emit_at; try done. by apply (trip_count_fuel step).
Qed.

(** ** Reading the frame *)

Lemma load_pixel (info : capture_info) (x y : Z) :
  frame_ok info →
  0 <= x < capture_width info → 0 <= y < capture_height info →
  load (buffer info) (y * capture_stride info + x) = Done (pixel_at info x y).
Proof.
  intros (Hw & Hh & Hs & Hlen & _) Hx Hy. unfold load, pixel_at.
  rewrite bool_decide_true by nia.
  destruct (lookup_lt_is_Some_2 (buffer info) (Z.to_nat (y * capture_stride info + x)))
    as [v ->]; [nia|done].
Qed.

Lemma pixel_at_u16 (info : capture_info) (x y : Z) :
  frame_ok info → is_u16 (pixel_at info x y).
Proof.
  intros (_ & _ & _ & _ & Hpx). unfold pixel_at.
  destruct (buffer info !! _) as [v|] eqn:Hv; cbn; [|unfold is_u16; lia].
  by eapply Forall_lookup_1.
Qed.

(** ** RGB24 *)

Lemma rgb24_bytes_u16 (p : Z) :
  is_u16 p →
  rgb24_bytes p = [(p ≫ 11) ≪ 3; (Z.land (p ≫ 5) 0x3f) ≪ 2; (Z.land p 0x1f) ≪ 3].
Proof.
  intros Hp. unfold is_u16 in Hp. unfold rgb24_bytes, u8.
  change 0x3f with (Z.ones 6). change 0x1f with (Z.ones 5).
  rewrite !Z.land_ones by lia. shifts_to_div.
  f_equal; [|f_equal; [|f_equal]]; apply Z.mod_small; dlia.
Qed.

Lemma length_rgb24_row (info : capture_info) (y : nat) :
  length (rgb24_row info y) = (Z.to_nat (capture_width info) * 3)%nat.
Proof. unfold rgb24_row. by apply length_blocks. Qed.

Lemma emit_rgb24_blocks (info : capture_info) :
  frame_ok info →
  emit_rgb24 info =
    Done (add_packet_length (3 * capture_width info * capture_height info)
          ++ blocks (rgb24_row info) (Z.to_nat (capture_height info))).
Proof.
  intros Hok. pose proof Hok as (Hw & Hh & Hs & Hlen & _).
  unfold emit_rgb24.
  set (out0 := add_packet_length _).
  rewrite (for_int_emit_at 1 (capture_height info) _ 0 (capture_stride info) out0
             (rgb24_row info) (Z.to_nat (capture_height info))); [done|lia|lia|lia|].
  intros y out Hy.
  rewrite (for_int_emit 1 (capture_width info) _ out
             (λ x, rgb24_bytes (pixel_at info (Z.of_nat x) (Z.of_nat y)))
             (Z.to_nat (capture_width info))); [|lia|lia|lia|].
  - cbn [mbind result_bind mret result_ret]. do 2 f_equal. lia.
  - intros x out1 Hx.
    replace (0 + Z.of_nat y * capture_stride info + Z.of_nat x * 1)
      with (Z.of_nat y * capture_stride info + Z.of_nat x) by lia.
    by rewrite load_pixel by (done || lia).
Qed.

Lemma lookup_rgb24 (info : capture_info) (x y j : nat) :
  (x < Z.to_nat (capture_width info))%nat →
  (y < Z.to_nat (capture_height info))%nat →
  (j < 3)%nat →
  blocks (rgb24_row info) (Z.to_nat (capture_height info))
    !! (3 * (y * Z.to_nat (capture_width info) + x) + j)%nat
  = rgb24_bytes (pixel_at info (Z.of_nat x) (Z.of_nat y)) !! j.
Proof.
  intros Hx Hy Hj.
  replace (3 * (y * Z.to_nat (capture_width info) + x) + j)%nat
    with (y * (Z.to_nat (capture_width info) * 3) + (x * 3 + j))%nat by lia.
  rewrite (lookup_blocks _ (Z.to_nat (capture_width info) * 3));
    [|intros; apply length_rgb24_row|done|lia].
  unfold rgb24_row. by rewrite (lookup_blocks _ 3).
Qed.

(** C7.  [emit_rgb24] writes the length field of [3 * width * height] and
    then three bytes per pixel, row after row and within a row pixel after
    pixel, only pixels of columns below [width]: bits 11-15 of the pixel
    shifted left by 3, bits 5-10 shifted left by 2, bits 0-4 shifted left
    by 3. *)
Theorem emit_rgb24_spec (info : capture_info) :
  frame_ok info →
  ∃ payload,
    emit_rgb24 info
      = Done (add_packet_length (3 * capture_width info * capture_height info) ++ payload) ∧
    (3 * capture_width info * capture_height info < 4294967296 →
       be32 (add_packet_length (3 * capture_width info * capture_height info))
         = 3 * capture_width info * capture_height info) ∧
    Z.of_nat (length payload) = 3 * capture_width info * capture_height info ∧
    ∀ x y, 0 <= x < capture_width info → 0 <= y < capture_height info →
      payload !! Z.to_nat (3 * (y * capture_width info + x))
        = Some ((pixel_at info x y ≫ 11) ≪ 3) ∧
      payload !! Z.to_nat (3 * (y * capture_width info + x) + 1)
        = Some ((Z.land (pixel_at info x y ≫ 5) 0x3f) ≪ 2) ∧
      payload !! Z.to_nat (3 * (y * capture_width info + x) + 2)
        = Some ((Z.land (pixel_at info x y) 0x1f) ≪ 3).
Proof.
  intros Hok. pose proof Hok as (Hw & Hh & _).
  exists (blocks (rgb24_row info) (Z.to_nat (capture_height info))).
  split_and!.
  - by apply emit_rgb24_blocks.
  - intros Hlt. apply add_packet_length_be32. nia.
  - rewrite (length_blocks _ (Z.to_nat (capture_width info) * 3))
      by (intros; apply length_rgb24_row). nia.
  - intros x y Hx Hy.
    pose proof (rgb24_bytes_u16 _ (pixel_at_u16 info x y Hok)) as Hbytes.
    assert (Hidx : ∀ j, 0 <= j < 3 →
              blocks (rgb24_row info) (Z.to_nat (capture_height info))
                !! Z.to_nat (3 * (y * capture_width info + x) + j)
              = rgb24_bytes (pixel_at info x y) !! Z.to_nat j).
    { intros j Hj.
      replace (Z.to_nat (3 * (y * capture_width info + x) + j))
        with (3 * (Z.to_nat y * Z.to_nat (capture_width info) + Z.to_nat x)
              + Z.to_nat j)%nat by nia.
      rewrite lookup_rgb24 by lia. by rewrite !Z2Nat.id by lia. }
    split_and!.
    + rewrite <- (Z.add_0_r (3 * _)). rewrite (Hidx 0) by lia. by rewrite Hbytes.
    + rewrite (Hidx 1) by lia. by rewrite Hbytes.
    + rewrite (Hidx 2) by lia. by rewrite Hbytes.
Qed.

Lemma emit_rgb24_spec_witness :
  let info := mk_capture_info [] 0 0 0 2 2 3 [0xf800; 0x07e0; 0; 0x001f; 0xffff; 0] []
                [] 0 0 3 96 6144 0 in
  ∃ payload,
    emit_rgb24 info
      = Done (add_packet_length (3 * capture_width info * capture_height info) ++ payload) ∧
    (3 * capture_width info * capture_height info < 4294967296 →
       be32 (add_packet_length (3 * capture_width info * capture_height info))
         = 3 * capture_width info * capture_height info) ∧
    Z.of_nat (length payload) = 3 * capture_width info * capture_height info ∧
    ∀ x y, 0 <= x < capture_width info → 0 <= y < capture_height info →
      payload !! Z.to_nat (3 * (y * capture_width info + x))
        = Some ((pixel_at info x y ≫ 11) ≪ 3) ∧
      payload !! Z.to_nat (3 * (y * capture_width info + x) + 1)
        = Some ((Z.land (pixel_at info x y ≫ 5) 0x3f) ≪ 2) ∧
      payload !! Z.to_nat (3 * (y * capture_width info + x) + 2)
        = Some ((Z.land (pixel_at info x y) 0x1f) ≪ 3).
Proof.
  intros info. apply (emit_rgb24_spec info).
  split_and!; [by vm_compute|by vm_compute|by vm_compute|reflexivity|].
  repeat (constructor; [by vm_compute|]). constructor.
Defined.

Example emit_rgb24_2x2 :
  emit_rgb24 (mk_capture_info [] 0 0 0 2 2 3 [0xf800; 0x07e0; 0; 0x001f; 0xffff; 0] []
                [] 0 0 3 96 6144 0)
  = Done [0; 0; 0; 12;  248; 0; 0;  0; 252; 0;  0; 0; 248;  248; 252; 248].
Proof. reflexivity. Qed.

(** ** Packing eight decisions into a byte *)

Lemma to_1bpp_is_bit (info : capture_info) (p : Z) : is_bit (to_1bpp info p).
Proof. apply to_1bpp_bit. Qed.

Lemma nonzero_is_bit (v : Z) : is_bit (nonzero v).
Proof. unfold nonzero, is_bit. case_bool_decide; auto. Qed.

Lemma pack8_byte (b0 b1 b2 b3 b4 b5 b6 b7 : Z) : 0 <= pack8 b0 b1 b2 b3 b4 b5 b6 b7 < 256.
Proof. unfold pack8, u8. apply Z.mod_pos_bound. lia. Qed.

Lemma testbit_is_bit (b i : Z) :
  is_bit b → 0 <= i → Z.testbit b i = bool_decide (i = 0) && bool_decide (b = 1).
Proof.
  intros [-> | ->] Hi.
  - rewrite Z.bits_0. by rewrite andb_false_r.
  - rewrite andb_true_r. destruct (decide (i = 0)) as [->|Hne].
    + done.
    + rewrite bool_decide_false by done.
      change 1 with (2 ^ 0). apply Z.pow2_bits_false. lia.
Qed.

(** Bit [i] of the packed byte is the [i]-th decision. *)
Lemma testbit_pack8 (b0 b1 b2 b3 b4 b5 b6 b7 : Z) (i : Z) :
  is_bit b0 → is_bit b1 → is_bit b2 → is_bit b3 →
  is_bit b4 → is_bit b5 → is_bit b6 → is_bit b7 →
  0 <= i < 8 →
  Z.testbit (pack8 b0 b1 b2 b3 b4 b5 b6 b7) i
    = bool_decide (default 0 ([b0; b1; b2; b3; b4; b5; b6; b7] !! Z.to_nat i) = 1).
Proof.
  intros H0 H1 H2 H3 H4 H5 H6 H7 Hi.
  unfold pack8, u8. change 256 with (2 ^ 8).
  rewrite Z.mod_pow2_bits_low by lia.
  rewrite !Z.lor_spec, !Z.shiftl_spec by lia.
  assert (i = 0 ∨ i = 1 ∨ i = 2 ∨ i = 3 ∨ i = 4 ∨ i = 5 ∨ i = 6 ∨ i = 7) as Hcases by lia.
  destruct Hcases as [->|[->|[->|[->|[->|[->|[->| ->]]]]]]];
    repeat match goal with
    | |- context [Z.testbit ?b ?j] =>
        first [ rewrite (Z.testbit_neg_r b j) by lia
              | rewrite (testbit_is_bit b j) by (assumption || lia) ]
    end;
    cbn; rewrite ?orb_false_r; reflexivity.
Qed.

(** ** Monochrome encoders *)

Lemma load_pixel_eq (info : capture_info) (pos x y : Z) :
  frame_ok info →
  0 <= x < capture_width info → 0 <= y < capture_height info →
  pos = y * capture_stride info + x →
  load (buffer info) pos = Done (pixel_at info x y).
Proof. intros Hok Hx Hy ->. by apply load_pixel. Qed.

Lemma load_residual_eq (info : capture_info) (residual : list Z) (pos x y : Z) :
  residual_ok info residual →
  0 <= x < capture_width info → 0 <= y < capture_height info →
  pos = y * capture_width info + x →
  load residual pos = Done (residual_at residual (capture_width info) x y).
Proof.
  intros [Hlen _] Hx Hy ->. unfold load, residual_at.
  rewrite bool_decide_true by nia.
  destruct (lookup_lt_is_Some_2 residual (Z.to_nat (y * capture_width info + x)))
    as [v ->]; [nia|done].
Qed.

Lemma residual_at_i16 (info : capture_info) (residual : list Z) (x y : Z) :
  residual_ok info residual →
  -32768 <= residual_at residual (capture_width info) x y < 32768.
Proof.
  intros [_ Hall]. unfold residual_at.
  destruct (residual !! _) as [v|] eqn:Hv; cbn; [|lia].
  by eapply (Forall_lookup_1 _ _ _ _ Hall).
Qed.

(** Reading an [int16_t] through a [uint16_t] pointer keeps zero apart from
    everything else. *)
Lemma nonzero_u16 (v : Z) : -32768 <= v < 32768 → nonzero (u16 v) = nonzero v.
Proof.
  intros Hv. unfold nonzero, u16.
  destruct (decide (v = 0)) as [->|Hne]; [done|].
  rewrite (bool_decide_true (v ≠ 0)) by done.
  rewrite bool_decide_true; [done|].
  intros Hz. apply Z.mod_divide in Hz as [c Hc]; lia.
Qed.

(** Rewrites the eight loads of a group, given the address and the pixel of
    each. *)
Ltac load_one lem pos x y k :=
  let p := eval cbv beta in (pos k) in
  let xk := eval cbv beta in (x k) in
  let yk := eval cbv beta in (y k) in
  rewrite (lem p xk yk) by (done || lia || nia); cbn [mbind result_bind].

Ltac load_group lem pos x y :=
  load_one lem pos x y 0; load_one lem pos x y 1;
  load_one lem pos x y 2; load_one lem pos x y 3;
  load_one lem pos x y 4; load_one lem pos x y 5;
  load_one lem pos x y 6; load_one lem pos x y 7.

Lemma div8_exact (w : Z) : 0 <= w → w `mod` 8 = 0 → Z.of_nat (Z.to_nat (w `div` 8)) * 8 = w.
Proof. intros. rewrite Z2Nat.id by dlia. dlia. Qed.

Lemma quot8_div8 (n : Z) : 0 <= n → Z.quot n 8 = n `div` 8.
Proof. intros. by rewrite Z.quot_div_nonneg by lia. Qed.

Section EncoderProofs.
Variable dithering_apply : capture_info → list Z.

Lemma emit_mono_blocks (info : capture_info) :
  frame_ok info →
  capture_width info `mod` 8 = 0 →
  dithering info = DITHERING_NONE →
  emit_mono dithering_apply info =
    Done (add_packet_length (Z.quot (capture_width info * capture_height info) 8)
          ++ blocks (mono_row info) (Z.to_nat (capture_height info))).
Proof.
  intros Hok Hw8 Hd. pose proof Hok as (Hw & Hh & Hs & Hlen & _).
  pose proof (div8_exact _ Hw Hw8) as Hn.
  unfold emit_mono. rewrite bool_decide_true by done.
  set (out0 := add_packet_length _).
  rewrite (for_int_emit_at 1 (capture_height info) _ 0 (capture_stride info) out0
             (mono_row info) (Z.to_nat (capture_height info))); [done|lia|lia|lia|].
  intros y out Hy.
  rewrite (for_int_emit_at 8 (capture_width info) _
             (0 + Z.of_nat y * capture_stride info) 8 out
             (λ g, [mono_byte info y g]) (Z.to_nat (capture_width info `div` 8)));
    [|lia|intros; dlia|lia|].
  - cbn [mbind result_bind mret result_ret]. f_equal. f_equal. lia.
  - intros g out1 Hg.
    load_group (load_pixel_eq info)
      (λ k : Z, 0 + Z.of_nat y * capture_stride info + Z.of_nat g * 8 + k)
      (λ k : Z, 8 * Z.of_nat g + k) (λ _ : Z, Z.of_nat y).
    cbn [mret result_ret]. apply (f_equal Done), (f_equal2 pair); [lia|reflexivity].
Qed.

Lemma emit_mono_rotate_flip_blocks (fuel : nat) (info : capture_info) :
  frame_ok info →
  capture_height info `mod` 8 = 0 →
  dithering info = DITHERING_NONE →
  emit_mono_rotate_flip dithering_apply fuel info =
    Done (add_packet_length (Z.quot (capture_width info * capture_height info) 8)
          ++ blocks (mono_column info) (Z.to_nat (capture_width info))).
Proof.
  intros Hok Hh8 Hd. pose proof Hok as (Hw & Hh & Hs & Hlen & _).
  pose proof (div8_exact _ Hh Hh8) as Hn.
  unfold emit_mono_rotate_flip. rewrite bool_decide_true by done.
  set (out0 := add_packet_length _).
  rewrite (for_int_emit_at 1 (capture_width info) _ 0 1 out0
             (mono_column info) (Z.to_nat (capture_width info))); [done|lia|lia|lia|].
  intros x out Hx.
  rewrite (for_int_emit_at 8 (capture_height info) _
             (0 + Z.of_nat x * 1) (8 * capture_stride info) out
             (λ g, [mono_column_byte info x g]) (Z.to_nat (capture_height info `div` 8)));
    [|lia|intros; dlia|lia|].
  - cbn [mbind result_bind mret result_ret]. f_equal. f_equal. lia.
  - intros g out1 Hg.
    set (column := 0 + Z.of_nat x * 1 + Z.of_nat g * (8 * capture_stride info)).
    load_one (load_pixel_eq info) (λ _ : Z, column + 0)
      (λ _ : Z, Z.of_nat x) (λ k : Z, 8 * Z.of_nat g + k) 0.
    load_one (load_pixel_eq info) (λ _ : Z, column + capture_stride info)
      (λ _ : Z, Z.of_nat x) (λ k : Z, 8 * Z.of_nat g + k) 1.
    load_one (load_pixel_eq info) (λ k : Z, column + k * capture_stride info)
      (λ _ : Z, Z.of_nat x) (λ k : Z, 8 * Z.of_nat g + k) 2.
    load_one (load_pixel_eq info) (λ k : Z, column + k * capture_stride info)
      (λ _ : Z, Z.of_nat x) (λ k : Z, 8 * Z.of_nat g + k) 3.
    load_one (load_pixel_eq info) (λ k : Z, column + k * capture_stride info)
      (λ _ : Z, Z.of_nat x) (λ k : Z, 8 * Z.of_nat g + k) 4.
    load_one (load_pixel_eq info) (λ k : Z, column + k * capture_stride info)
      (λ _ : Z, Z.of_nat x) (λ k : Z, 8 * Z.of_nat g + k) 5.
    load_one (load_pixel_eq info) (λ k : Z, column + k * capture_stride info)
      (λ _ : Z, Z.of_nat x) (λ k : Z, 8 * Z.of_nat g + k) 6.
    load_one (load_pixel_eq info) (λ k : Z, column + k * capture_stride info)
      (λ _ : Z, Z.of_nat x) (λ k : Z, 8 * Z.of_nat g + k) 7.
    cbn [mret result_ret]. apply (f_equal Done), (f_equal2 pair); [unfold column; lia|reflexivity].
Qed.

Lemma emit_mono_dither_blocks (info : capture_info) :
  0 <= capture_width info → 0 <= capture_height info →
  residual_ok info (dithering_apply info) →
  capture_width info `mod` 8 = 0 →
  dithering info ≠ DITHERING_NONE →
  emit_mono dithering_apply info =
    Done (add_packet_length (Z.quot (capture_width info * capture_height info) 8)
          ++ blocks (dither_row info (dithering_apply info))
                    (Z.to_nat (capture_height info))).
Proof.
  intros Hw Hh Hres Hw8 Hd.
  pose proof (div8_exact _ Hw Hw8) as Hn.
  unfold emit_mono. rewrite bool_decide_false by done.
  set (out0 := add_packet_length _).
  rewrite (for_int_emit_at 1 (capture_height info) _ 0 (capture_width info) out0
             (dither_row info (dithering_apply info))
             (Z.to_nat (capture_height info))); [done|lia|lia|lia|].
  intros y out Hy.
  rewrite (for_int_emit_at 8 (capture_width info) _
             (0 + Z.of_nat y * capture_width info) 8 out
             (λ g, [dither_byte info (dithering_apply info) y g])
             (Z.to_nat (capture_width info `div` 8)));
    [|lia|intros; dlia|lia|].
  - f_equal. f_equal. lia.
  - intros g out1 Hg.
    load_group (load_residual_eq info (dithering_apply info))
      (λ k : Z, 0 + Z.of_nat y * capture_width info + Z.of_nat g * 8 + k)
      (λ k : Z, 8 * Z.of_nat g + k) (λ _ : Z, Z.of_nat y).
    cbn [mret result_ret]. apply (f_equal Done), (f_equal2 pair); [lia|reflexivity].
Qed.

Lemma emit_mono_rotate_flip_dither_blocks (fuel : nat) (info : capture_info) :
  0 <= capture_width info → 0 <= capture_height info →
  residual_ok info (dithering_apply info) →
  capture_height info `mod` 8 = 0 →
  dithering info ≠ DITHERING_NONE →
  capture_width info <= 65535 → capture_height info <= 65535 →
  (Z.to_nat (capture_width info) <= fuel)%nat →
  (Z.to_nat (capture_height info `div` 8) <= fuel)%nat →
  emit_mono_rotate_flip dithering_apply fuel info =
    Done (add_packet_length (Z.quot (capture_width info * capture_height info) 8)
          ++ blocks (dither_column info (dithering_apply info))
                    (Z.to_nat (capture_width info))).
Proof.
  intros Hw Hh Hres Hh8 Hd Hwmax Hhmax Hfw Hfh.
  pose proof (div8_exact _ Hh Hh8) as Hn.
  unfold emit_mono_rotate_flip. rewrite bool_decide_false by done.
  set (out0 := add_packet_length _).
  rewrite for_loop_u16_id by lia.
  rewrite (for_loop_emit_at 1 (capture_width info) _ 0 1 out0
             (dither_column info (dithering_apply info))
             (Z.to_nat (capture_width info)) fuel); [done|lia|lia|lia|].
  intros x out Hx.
  rewrite for_loop_u16_id by dlia.
  rewrite (for_loop_emit_at 8 (capture_height info) _
             (0 + Z.of_nat x * 1) (8 * capture_width info) out
             (λ g, [dither_column_byte info (dithering_apply info) x g])
             (Z.to_nat (capture_height info `div` 8)) fuel);
    [|intros; dlia|lia|lia|].
  - cbn [mbind result_bind mret result_ret]. f_equal. f_equal. lia.
  - intros g out1 Hg.
    set (column := 0 + Z.of_nat x * 1 + Z.of_nat g * (8 * capture_width info)).
    load_one (load_residual_eq info (dithering_apply info)) (λ _ : Z, column + 0)
      (λ _ : Z, Z.of_nat x) (λ k : Z, 8 * Z.of_nat g + k) 0.
    load_one (load_residual_eq info (dithering_apply info)) (λ _ : Z, column + capture_width info)
      (λ _ : Z, Z.of_nat x) (λ k : Z, 8 * Z.of_nat g + k) 1.
    load_one (load_residual_eq info (dithering_apply info)) (λ k : Z, column + capture_width info * k)
      (λ _ : Z, Z.of_nat x) (λ k : Z, 8 * Z.of_nat g + k) 2.
    load_one (load_residual_eq info (dithering_apply info)) (λ k : Z, column + capture_width info * k)
      (λ _ : Z, Z.of_nat x) (λ k : Z, 8 * Z.of_nat g + k) 3.
    load_one (load_residual_eq info (dithering_apply info)) (λ k : Z, column + capture_width info * k)
      (λ _ : Z, Z.of_nat x) (λ k : Z, 8 * Z.of_nat g + k) 4.
    load_one (load_residual_eq info (dithering_apply info)) (λ k : Z, column + capture_width info * k)
      (λ _ : Z, Z.of_nat x) (λ k : Z, 8 * Z.of_nat g + k) 5.
    load_one (load_residual_eq info (dithering_apply info)) (λ k : Z, column + capture_width info * k)
      (λ _ : Z, Z.of_nat x) (λ k : Z, 8 * Z.of_nat g + k) 6.
    load_one (load_residual_eq info (dithering_apply info)) (λ k : Z, column + capture_width info * k)
      (λ _ : Z, Z.of_nat x) (λ k : Z, 8 * Z.of_nat g + k) 7.
    cbn [mret result_ret]. apply (f_equal Done), (f_equal2 pair); [unfold column; lia|reflexivity].
Qed.

End EncoderProofs.

(** ** Bits of the monochrome payloads *)

Lemma length_blocks1 (f : nat → Z) (m : nat) : length (blocks (λ g, [f g]) m) = m.
Proof. rewrite (length_blocks _ 1); [lia|done]. Qed.

Lemma lookup_blocks2 (f : nat → nat → Z) (n m k g : nat) :
  (k < n)%nat → (g < m)%nat →
  blocks (λ k, blocks (λ g, [f k g]) m) n !! (k * m + g)%nat = Some (f k g).
Proof.
  intros Hk Hg.
  rewrite (lookup_blocks _ m); [|intros; apply length_blocks1|done|done].
  replace g with (g * 1 + 0)%nat at 1 by lia.
  rewrite (lookup_blocks _ 1) by (done || lia). done.
Qed.

Lemma length_blocks2 (f : nat → nat → Z) (n m : nat) :
  length (blocks (λ k, blocks (λ g, [f k g]) m) n) = (n * m)%nat.
Proof. apply length_blocks. intros. apply length_blocks1. Qed.

Ltac bit_cases i :=
  let H := fresh "Hcases" in
  assert (i = 0 ∨ i = 1 ∨ i = 2 ∨ i = 3 ∨ i = 4 ∨ i = 5 ∨ i = 6 ∨ i = 7) as H by lia;
  destruct H as [->|[->|[->|[->|[->|[->|[->| ->]]]]]]].

Lemma testbit_mono_byte (info : capture_info) (y g : nat) (i : Z) :
  0 <= i < 8 →
  Z.testbit (mono_byte info y g) i
    = bool_decide (to_1bpp info (pixel_at info (8 * Z.of_nat g + i) (Z.of_nat y)) = 1).
Proof.
  intros Hi. unfold mono_byte.
  rewrite testbit_pack8 by (apply to_1bpp_is_bit || done).
  by bit_cases i.
Qed.

Lemma testbit_mono_column_byte (info : capture_info) (x g : nat) (i : Z) :
  0 <= i < 8 →
  Z.testbit (mono_column_byte info x g) i
    = bool_decide (to_1bpp info (pixel_at info (Z.of_nat x) (8 * Z.of_nat g + i)) = 1).
Proof.
  intros Hi. unfold mono_column_byte.
  rewrite testbit_pack8 by (apply to_1bpp_is_bit || done).
  by bit_cases i.
Qed.

Lemma nonzero_decide (v : Z) : bool_decide (nonzero v = 1) = bool_decide (v ≠ 0).
Proof. unfold nonzero. by repeat case_bool_decide. Qed.

Lemma testbit_dither_byte (info : capture_info) (residual : list Z) (y g : nat) (i : Z) :
  0 <= i < 8 →
  Z.testbit (dither_byte info residual y g) i
    = bool_decide (residual_at residual (capture_width info)
                     (8 * Z.of_nat g + i) (Z.of_nat y) ≠ 0).
Proof.
  intros Hi. unfold dither_byte.
  rewrite testbit_pack8 by (apply nonzero_is_bit || done).
  rewrite <- nonzero_decide. by bit_cases i.
Qed.

Lemma testbit_dither_column_byte (info : capture_info) (residual : list Z)
    (x g : nat) (i : Z) :
  residual_ok info residual →
  0 <= i < 8 →
  Z.testbit (dither_column_byte info residual x g) i
    = bool_decide (residual_at residual (capture_width info)
                     (Z.of_nat x) (8 * Z.of_nat g + i) ≠ 0).
Proof.
  intros Hres Hi. unfold dither_column_byte.
  rewrite testbit_pack8 by (apply nonzero_is_bit || done).
  rewrite <- nonzero_decide.
  rewrite <- (nonzero_u16 (residual_at _ _ _ (_ + i))) by by apply residual_at_i16.
  by bit_cases i.
Qed.

Lemma to_1bpp_thresholds (info info' : capture_info) (p : Z) :
  mono_threshold_r5 info' = mono_threshold_r5 info →
  mono_threshold_g6 info' = mono_threshold_g6 info →
  mono_threshold_b5 info' = mono_threshold_b5 info →
  to_1bpp info' p = to_1bpp info p.
Proof. unfold to_1bpp. by intros -> -> ->. Qed.

(** C6.  With dithering off and a width divisible by 8, [emit_mono] writes
    the length field and then exactly [width * height / 8] bytes; the byte
    of group [g] of row [y] has in bit [i] the [to_1bpp] decision of pixel
    [8 g + i] of that row, rows in order; pixels of the stride padding do
    not enter the output. *)
Theorem emit_mono_packing (dithering_apply : capture_info → list Z) (info : capture_info) :
  frame_ok info →
  capture_width info `mod` 8 = 0 →
  dithering info = DITHERING_NONE →
  ∃ payload,
    emit_mono dithering_apply info
      = Done (add_packet_length ((capture_width info * capture_height info) `div` 8)
              ++ payload) ∧
    Z.of_nat (length payload) = (capture_width info * capture_height info) `div` 8 ∧
    (∀ y g i,
       0 <= y < capture_height info → 0 <= g < capture_width info `div` 8 → 0 <= i < 8 →
       ∃ byte,
         payload !! Z.to_nat (y * (capture_width info `div` 8) + g) = Some byte ∧
         0 <= byte < 256 ∧
         Z.testbit byte i = bool_decide (to_1bpp info (pixel_at info (8 * g + i) y) = 1)) ∧
    (∀ info',
       frame_ok info' →
       capture_width info' = capture_width info →
       capture_height info' = capture_height info →
       session_view info' = session_view info →
       (∀ x y, 0 <= x < capture_width info → 0 <= y < capture_height info →
               pixel_at info' x y = pixel_at info x y) →
       emit_mono dithering_apply info' = emit_mono dithering_apply info).
Proof.
  intros Hok Hw8 Hd. pose proof Hok as (Hw & Hh & _).
  exists (blocks (mono_row info) (Z.to_nat (capture_height info))).
  assert (Hquot : Z.quot (capture_width info * capture_height info) 8
                  = (capture_width info * capture_height info) `div` 8)
    by (apply quot8_div8; nia).
  split_and!.
  - rewrite <- Hquot. by apply emit_mono_blocks.
  - unfold mono_row. rewrite length_blocks2.
    rewrite Nat2Z.inj_mul, !Z2Nat.id by dlia.
    dlia.
  - intros y g i Hy Hg Hi. exists (mono_byte info (Z.to_nat y) (Z.to_nat g)).
    split; [|split].
    + replace (Z.to_nat (y * (capture_width info `div` 8) + g))
        with (Z.to_nat y * Z.to_nat (capture_width info `div` 8) + Z.to_nat g)%nat by nia.
      unfold mono_row. apply lookup_blocks2; lia.
    + apply pack8_byte.
    + rewrite testbit_mono_byte by done. by rewrite !Z2Nat.id by lia.
  - intros info' Hok' Hw' Hh' Hview Hpx.
    unfold session_view in Hview. injection Hview as _ Hr Hg Hb Hd'.
    rewrite !emit_mono_blocks by (done || congruence).
    rewrite Hw', Hh'. do 2 f_equal.
    apply blocks_ext. intros y Hy. unfold mono_row. rewrite Hw'.
    apply blocks_ext. intros g Hg'. unfold mono_byte.
    assert (Hgw : 8 * Z.of_nat g + 7 < capture_width info) by dlia.
    rewrite !(to_1bpp_thresholds info info') by done.
    by rewrite !Hpx by lia.
Qed.

Lemma emit_mono_packing_witness :
  let info := mk_capture_info [] 0 0 0 8 1 10 [0; 1; 0x20; 0x800; 0; 0xffff; 0; 7; 9; 9] []
                [] 0 0 0 0 0 0 in
  ∃ payload,
    emit_mono (λ _, []) info
      = Done (add_packet_length ((capture_width info * capture_height info) `div` 8)
              ++ payload) ∧
    Z.of_nat (length payload) = (capture_width info * capture_height info) `div` 8 ∧
    (∀ y g i,
       0 <= y < capture_height info → 0 <= g < capture_width info `div` 8 → 0 <= i < 8 →
       ∃ byte,
         payload !! Z.to_nat (y * (capture_width info `div` 8) + g) = Some byte ∧
         0 <= byte < 256 ∧
         Z.testbit byte i = bool_decide (to_1bpp info (pixel_at info (8 * g + i) y) = 1)) ∧
    (∀ info',
       frame_ok info' →
       capture_width info' = capture_width info →
       capture_height info' = capture_height info →
       session_view info' = session_view info →
       (∀ x y, 0 <= x < capture_width info → 0 <= y < capture_height info →
               pixel_at info' x y = pixel_at info x y) →
       emit_mono (λ _, []) info' = emit_mono (λ _, []) info).
Proof.
  intros info. apply (emit_mono_packing (λ _, []) info).
  - split_and!; [by vm_compute|by vm_compute|by vm_compute|reflexivity|].
    repeat (constructor; [by vm_compute|]). constructor.
  - reflexivity.
  - reflexivity.
Defined.

(** Width 8, height 1, all thresholds zero: a pixel with any channel set is
    on, a black pixel is off, and the byte holds columns 0 to 7 from the
    least significant bit up. *)
Example emit_mono_8x1 :
  emit_mono (λ _, [])
    (mk_capture_info [] 0 0 0 8 1 10 [0; 1; 0x20; 0x800; 0; 0xffff; 0; 7; 9; 9] []
       [] 0 0 0 0 0 0)
  = Done [0; 0; 0; 1; 0xae].
Proof. reflexivity. Qed.

(** ** Transpose consistency *)

Section Transpose.
Variable dithering_apply : capture_info → list Z.

(** Both encoders on a frame whose sides are divisible by 8 (and, with
    dithering, within the range of the 16-bit counters of the
    column-major encoder): the two payloads have the same length, the
    decision for pixel [(x, y)] is bit [x mod 8] of byte
    [y * (width / 8) + x / 8] of the row-major payload and bit [y mod 8] of
    byte [x * (height / 8) + y / 8] of the column-major payload. *)
Theorem transpose_consistency (fuel : nat) (info : capture_info) :
  frame_ok info →
  capture_width info `mod` 8 = 0 →
  capture_height info `mod` 8 = 0 →
  (dithering info ≠ DITHERING_NONE →
     residual_ok info (dithering_apply info) ∧
     capture_width info <= 65535 ∧ capture_height info <= 65535 ∧
     (Z.to_nat (capture_width info) <= fuel)%nat ∧
     (Z.to_nat (capture_height info `div` 8) <= fuel)%nat) →
  ∃ rows cols,
    emit_mono dithering_apply info
      = Done (add_packet_length ((capture_width info * capture_height info) `div` 8)
              ++ rows) ∧
    emit_mono_rotate_flip dithering_apply fuel info
      = Done (add_packet_length ((capture_width info * capture_height info) `div` 8)
              ++ cols) ∧
    Z.of_nat (length rows) = (capture_width info * capture_height info) `div` 8 ∧
    Z.of_nat (length cols) = (capture_width info * capture_height info) `div` 8 ∧
    ∀ x y, 0 <= x < capture_width info → 0 <= y < capture_height info →
      ∃ br bc,
        rows !! Z.to_nat (y * (capture_width info `div` 8) + x `div` 8) = Some br ∧
        cols !! Z.to_nat (x * (capture_height info `div` 8) + y `div` 8) = Some bc ∧
        Z.testbit br (x `mod` 8) = decision info (dithering_apply info) x y ∧
        Z.testbit bc (y `mod` 8) = decision info (dithering_apply info) x y.
Proof.
  intros Hok Hw8 Hh8 Hdith. pose proof Hok as (Hw & Hh & _).
  assert (Hquot : Z.quot (capture_width info * capture_height info) 8
                  = (capture_width info * capture_height info) `div` 8)
    by (apply quot8_div8; nia).
  assert (Hrow : ∀ x y, 0 <= x < capture_width info → 0 <= y < capture_height info →
            Z.to_nat (y * (capture_width info `div` 8) + x `div` 8)
            = (Z.to_nat y * Z.to_nat (capture_width info `div` 8)
               + Z.to_nat (x `div` 8))%nat).
  { intros x y Hx Hy. assert (0 <= x `div` 8) by dlia.
    assert (0 <= capture_width info `div` 8) by dlia. nia. }
  assert (Hcol : ∀ x y, 0 <= x < capture_width info → 0 <= y < capture_height info →
            Z.to_nat (x * (capture_height info `div` 8) + y `div` 8)
            = (Z.to_nat x * Z.to_nat (capture_height info `div` 8)
               + Z.to_nat (y `div` 8))%nat).
  { intros x y Hx Hy. assert (0 <= y `div` 8) by dlia.
    assert (0 <= capture_height info `div` 8) by dlia. nia. }
  assert (Hsplit : ∀ v, 0 <= v → 8 * Z.of_nat (Z.to_nat (v `div` 8)) + v `mod` 8 = v).
  { intros v Hv. rewrite Z2Nat.id by dlia. dlia. }
  destruct (decide (dithering info = DITHERING_NONE)) as [Hd|Hd].
  - exists (blocks (mono_row info) (Z.to_nat (capture_height info))),
           (blocks (mono_column info) (Z.to_nat (capture_width info))).
    split_and!.
    + rewrite <- Hquot. by apply emit_mono_blocks.
    + rewrite <- Hquot. by apply emit_mono_rotate_flip_blocks.
    + unfold mono_row. rewrite length_blocks2. dlia.
    + unfold mono_column. rewrite length_blocks2. dlia.
    + intros x y Hx Hy.
      exists (mono_byte info (Z.to_nat y) (Z.to_nat (x `div` 8))),
             (mono_column_byte info (Z.to_nat x) (Z.to_nat (y `div` 8))).
      unfold decision. rewrite bool_decide_true by done. split_and!.
      * rewrite Hrow by done. unfold mono_row. apply lookup_blocks2; dlia.
      * rewrite Hcol by done. unfold mono_column. apply lookup_blocks2; dlia.
      * rewrite testbit_mono_byte by dlia.
        by rewrite Hsplit, Z2Nat.id by lia.
      * rewrite testbit_mono_column_byte by dlia.
        by rewrite Hsplit, Z2Nat.id by lia.
  - destruct (Hdith Hd) as (Hres & Hwmax & Hhmax & Hfw & Hfh).
    exists (blocks (dither_row info (dithering_apply info))
              (Z.to_nat (capture_height info))),
           (blocks (dither_column info (dithering_apply info))
              (Z.to_nat (capture_width info))).
    split_and!.
    + rewrite <- Hquot. by apply emit_mono_dither_blocks.
    + rewrite <- Hquot. by apply emit_mono_rotate_flip_dither_blocks.
    + unfold dither_row. rewrite length_blocks2. dlia.
    + unfold dither_column. rewrite length_blocks2. dlia.
    + intros x y Hx Hy.
      exists (dither_byte info (dithering_apply info) (Z.to_nat y) (Z.to_nat (x `div` 8))),
             (dither_column_byte info (dithering_apply info)
                (Z.to_nat x) (Z.to_nat (y `div` 8))).
      unfold decision. rewrite bool_decide_false by done. split_and!.
      * rewrite Hrow by done. unfold dither_row. apply lookup_blocks2; dlia.
      * rewrite Hcol by done. unfold dither_column. apply lookup_blocks2; dlia.
      * rewrite testbit_dither_byte by dlia.
        by rewrite Hsplit, Z2Nat.id by lia.
      * rewrite testbit_dither_column_byte by (done || dlia).
        by rewrite Hsplit, Z2Nat.id by lia.
Qed.

(** With dithering on, the column-major encoder counts columns and rows
    in [uint16_t]: over a frame of more than 65535 columns, or of at
    least one column and more than 65528 rows, a counter wraps to zero
    before it reaches its bound and the encoder never comes to write its
    payload out. *)
Lemma emit_mono_rotate_flip_wraps (fuel : nat) (info : capture_info) (out : list Z) :
  dithering info ≠ DITHERING_NONE →
  65535 < capture_width info ∨ (0 < capture_width info ∧ 65528 < capture_height info) →
  emit_mono_rotate_flip dithering_apply fuel info ≠ Done out.
Proof.
  intros Hd Hdims. unfold emit_mono_rotate_flip. rewrite bool_decide_false by done.
  set (out0 := add_packet_length _). set (body := λ (x : Z) (st : Z * list Z), _).
  destruct (for_loop u16 fuel 0 (capture_width info) 1 body (0, out0))
    as [st| | |] eqn:Hrun; try done.
  exfalso. destruct Hdims as [Hwide|[Hw Hhigh]].
  - eapply (for_loop_u16_wraps 1 (capture_width info) body); try exact Hrun;
      try lia; [by exists 65536|by exists 0].
  - destruct fuel as [|fuel]; cbn [for_loop] in Hrun;
      rewrite bool_decide_true in Hrun by lia; [done|].
    subst body. cbn beta iota in Hrun.
    match type of Hrun with
    | context [for_loop u16 ?f 0 (capture_height info) 8 ?b ?s] =>
        destruct (for_loop u16 f 0 (capture_height info) 8 b s)
          as [st1| | |] eqn:Hinner; try done
    end.
    eapply (for_loop_u16_wraps 8 (capture_height info)); try exact Hinner;
      try lia; [by exists 8192|by exists 0].
Qed.

End Transpose.

(** C2.  A frame of 8 columns and 65536 rows with dithering on: the frame
    and its residuals are well formed and both sides are divisible by 8;
    the row-major encoder writes its 65536 payload bytes, the column-major
    encoder never finishes, whatever the fuel, because its [uint16_t] row
    counter wraps from 65528 to 0.  (Below that range, and without
    dithering, the two encoders agree: [transpose_consistency].) *)
Theorem transpose_tall_frame :
  let info := mk_capture_info [] 0 0 0 8 65536 8 (replicate (Z.to_nat 524288) 0) []
                [] 0 5 3 192 6144 1 in
  let dithering_apply := λ _ : capture_info, replicate (Z.to_nat 524288) 1 in
  frame_ok info ∧
  residual_ok info (dithering_apply info) ∧
  capture_width info `mod` 8 = 0 ∧
  capture_height info `mod` 8 = 0 ∧
  (∃ rows,
     emit_mono dithering_apply info = Done (add_packet_length 65536 ++ rows) ∧
     Z.of_nat (length rows) = 65536) ∧
  (∀ fuel out, emit_mono_rotate_flip dithering_apply fuel info ≠ Done out).
Proof.
  intros info dithering_apply.
  assert (Hres : residual_ok info (dithering_apply info)).
  { split.
    - unfold dithering_apply. rewrite length_replicate.
      cbn [capture_width capture_height info]. lia.
    - apply Forall_replicate. lia. }
  split_and!.
  - unfold frame_ok. cbn [capture_width capture_height capture_stride buffer info].
    split_and!; try lia.
    + rewrite length_replicate. lia.
    + apply Forall_replicate. unfold is_u16. lia.
  - done.
  - done.
  - done.
  - exists (blocks (dither_row info (dithering_apply info)) (Z.to_nat (capture_height info))).
    split.
    + rewrite emit_mono_dither_blocks; [done| | |done|done|].
      * cbn [capture_width info]. lia.
      * cbn [capture_height info]. lia.
      * cbn [dithering info]. done.
    + unfold dither_row. rewrite length_blocks2.
      cbn [capture_width capture_height info]. dlia.
  - intros fuel out. apply emit_mono_rotate_flip_wraps.
    + cbn [dithering info]. done.
    + right. cbn [capture_width capture_height info]. lia.
Qed.

(** ** How much an encoder writes *)

Section Growth.
Context {S : Type}.
Variable size : S → Z.

(** A loop whose body grows the output by at most [m] grows it by at most
    [m] per unit of its bound. *)
Lemma for_loop_grow (m step bound : Z) (body : Z → S → result S)
    (fuel : nat) (s s' : S) :
  0 < step → 0 <= m →
  (∀ i t t', body i t = Done t' → size t' <= size t + m) →
  for_loop id fuel 0 bound step body s = Done s' →
  size s' <= size s + Z.max 0 bound * m.
Proof.
  intros Hstep Hm Hbody Hrun.
  destruct (for_loop_inv step bound body (λ k t, size t <= size s + Z.of_nat k * m)
              fuel s s') as (n & Hn & _ & Hlt); [|lia|done|].
  - intros k t t' _ Hk Hb. specialize (Hbody _ _ _ Hb). lia.
  - assert (Z.of_nat n <= Z.max 0 bound).
    { destruct n as [|n]; [lia|]. specialize (Hlt n). nia. }
    nia.
Qed.

Lemma for_int_grow (m step bound : Z) (body : Z → S → result S) (s s' : S) :
  0 < step → 0 <= m →
  (∀ i t t', body i t = Done t' → size t' <= size t + m) →
  for_int bound step body s = Done s' →
  size s' <= size s + Z.max 0 bound * m.
Proof. unfold for_int. apply for_loop_grow. Qed.

Lemma for_loop_u16_grow (m step bound : Z) (body : Z → S → result S)
    (fuel : nat) (s s' : S) :
  0 < step → (step | 65536) → 0 <= m →
  (∀ i t t', body i t = Done t' → size t' <= size t + m) →
  for_loop u16 fuel 0 bound step body s = Done s' →
  size s' <= size s + Z.max 0 bound * m.
Proof.
  intros Hstep Hdiv Hm Hbody Hrun.
  destruct (decide (bound <= 65536 - step)) as [Hsmall|Hbig].
  - rewrite for_loop_u16_id in Hrun by (done || lia).
    by eapply for_loop_grow.
  - exfalso. eapply (for_loop_u16_wraps step bound body); try exact Hrun;
      try lia; [done|by exists 0].
Qed.

End Growth.

Lemma bind_done {A B : Type} (r : result A) (f : A → result B) (b : B) :
  r ≫= f = Done b → ∃ a, r = Done a ∧ f a = Done b.
Proof. destruct r as [a| | |]; try done. intros H. by exists a. Qed.

Lemma length_native32 (v : Z) : length (native32 v) = 4%nat.
Proof. done. Qed.

Lemma emit_capture_info_length (info : capture_info) (out : list Z) :
  emit_capture_info info = Done out → length out = 40%nat.
Proof.
  unfold emit_capture_info, memcpy_bytes. case_bool_decide as Hn; [|done].
  cbn [mbind result_bind mret result_ret]. intros [= <-].
  cbn [length]. rewrite !length_app, length_take, !length_native32. lia.
Qed.

Lemma emit_rgb24_length (info : capture_info) (out : list Z) :
  emit_rgb24 info = Done out →
  Z.of_nat (length out)
    <= 4 + Z.max 0 (capture_height info) * (Z.max 0 (capture_width info) * 3).
Proof.
  unfold emit_rgb24. intros Hrun.
  apply bind_done in Hrun as ([image out'] & Hloop & [= <-]).
  apply (for_int_grow (λ st, Z.of_nat (length st.2))
           (Z.max 0 (capture_width info) * 3)) in Hloop; [cbn in Hloop; lia|lia|lia|].
  intros y [im o] [im' o'] Hb. cbn [snd].
  apply bind_done in Hb as (o1 & Hinner & [= _ <-]).
  apply (for_int_grow (λ o, Z.of_nat (length o)) 3) in Hinner; [done|lia|lia|].
  intros x t t' Hx. apply bind_done in Hx as (px & _ & [= <-]).
  rewrite length_app. cbn. lia.
Qed.

Lemma emit_rgb565_length (info : capture_info) (out : list Z) :
  emit_rgb565 info = Done out →
  Z.of_nat (length out)
    <= 4 + Z.max 0 (capture_height info) * (Z.max 0 (capture_width info) * 2).
Proof.
  unfold emit_rgb565. intros Hrun.
  apply bind_done in Hrun as ([image out'] & Hloop & [= <-]).
  apply (for_int_grow (λ st, Z.of_nat (length st.2))
           (Z.max 0 (capture_width info) * 2)) in Hloop; [cbn in Hloop; lia|lia|lia|].
  intros y [im o] [im' o'] Hb. cbn [snd].
  apply bind_done in Hb as (row & Hcopy & [= _ <-]).
  unfold memcpy_pixels in Hcopy. case_bool_decide; [done|].
  apply (for_int_grow (λ o, Z.of_nat (length o)) 2) in Hcopy; [|lia|lia|].
  - rewrite length_app. cbn [length] in Hcopy. lia.
  - intros x t t' Hx. apply bind_done in Hx as (px & _ & [= <-]).
    rewrite length_app. cbn. lia.
Qed.

(** A group of eight loads followed by the store of one byte. *)
Ltac one_byte_body H :=
  repeat (apply bind_done in H as (? & _ & H));
  injection H as _ <-; rewrite length_app; cbn; lia.

Section MonoGrowth.
Variable dithering_apply : capture_info → list Z.

Lemma emit_mono_length (info : capture_info) (out : list Z) :
  emit_mono dithering_apply info = Done out →
  Z.of_nat (length out)
    <= 4 + Z.max 0 (capture_height info) * Z.max 0 (capture_width info).
Proof.
  unfold emit_mono. intros Hrun. case_bool_decide.
  - apply bind_done in Hrun as ([image out'] & Hloop & [= <-]).
    apply (for_int_grow (λ st, Z.of_nat (length st.2))
             (Z.max 0 (capture_width info) * 1)) in Hloop; [cbn in Hloop; lia|lia|lia|].
    intros y [im o] [im' o'] Hb. cbn [snd].
    apply bind_done in Hb as ([im1 o1] & Hinner & [= _ <-]).
    apply (for_int_grow (λ st, Z.of_nat (length st.2)) 1) in Hinner; [done|lia|lia|].
    intros x [c t] [c' t'] Hx. cbn [snd]. one_byte_body Hx.
  - apply bind_done in Hrun as ([image out'] & Hloop & [= <-]).
    apply (for_int_grow (λ st, Z.of_nat (length st.2))
             (Z.max 0 (capture_width info) * 1)) in Hloop; [cbn in Hloop; lia|lia|lia|].
    intros y [im o] [im' o'] Hinner. cbn [snd].
    apply (for_int_grow (λ st, Z.of_nat (length st.2)) 1) in Hinner; [done|lia|lia|].
    intros x [c t] [c' t'] Hx. cbn [snd]. one_byte_body Hx.
Qed.

Lemma emit_mono_rotate_flip_length (fuel : nat) (info : capture_info) (out : list Z) :
  emit_mono_rotate_flip dithering_apply fuel info = Done out →
  Z.of_nat (length out)
    <= 4 + Z.max 0 (capture_width info) * Z.max 0 (capture_height info).
Proof.
  unfold emit_mono_rotate_flip. intros Hrun. case_bool_decide.
  - apply bind_done in Hrun as ([image out'] & Hloop & [= <-]).
    apply (for_int_grow (λ st, Z.of_nat (length st.2))
             (Z.max 0 (capture_height info) * 1)) in Hloop; [cbn in Hloop; lia|lia|lia|].
    intros x [im o] [im' o'] Hb. cbn [snd].
    apply bind_done in Hb as ([im1 o1] & Hinner & [= _ <-]).
    apply (for_int_grow (λ st, Z.of_nat (length st.2)) 1) in Hinner; [done|lia|lia|].
    intros y [c t] [c' t'] Hy. cbn [snd]. one_byte_body Hy.
  - apply bind_done in Hrun as ([image out'] & Hloop & [= <-]).
    apply (for_loop_u16_grow (λ st, Z.of_nat (length st.2))
             (Z.max 0 (capture_height info) * 1)) in Hloop;
      [cbn in Hloop; lia|lia|by exists 65536|lia|].
    intros x [im o] [im' o'] Hb. cbn [snd].
    apply bind_done in Hb as ([im1 o1] & Hinner & [= _ <-]).
    apply (for_loop_u16_grow (λ st, Z.of_nat (length st.2)) 1) in Hinner;
      [done|lia|by exists 8192|lia|].
    intros y [c t] [c' t'] Hy. cbn [snd]. one_byte_body Hy.
Qed.

End MonoGrowth.

(** ** Whenever the column-major encoder completes *)

Lemma for_loop_fuel_mono {S : Type} (wrap : Z → Z) (step bound : Z)
    (body body' : Z → S → result S) :
  (∀ i s s', body i s = Done s' → body' i s = Done s') →
  ∀ (fuel fuel' : nat) (i : Z) (s s' : S),
    (fuel <= fuel')%nat →
    for_loop wrap fuel i bound step body s = Done s' →
    for_loop wrap fuel' i bound step body' s = Done s'.
Proof.
  intros Hbody. induction fuel as [|fuel IH]; intros fuel' i s s' Hle Hrun.
  - cbn in Hrun. case_bool_decide as Hlt; [done|].
    destruct fuel'; cbn; by rewrite bool_decide_false by done.
  - destruct fuel' as [|fuel']; [lia|].
    cbn [for_loop] in *. case_bool_decide as Hlt; [|done].
    apply bind_done in Hrun as (s1 & Hb & Hrest).
    rewrite (Hbody _ _ _ Hb). cbn [mbind result_bind].
    apply (IH fuel'); [lia|done].
Qed.

Section WhenDone.
Variable dithering_apply : capture_info → list Z.

(** More fuel does not change a run that is done. *)
Lemma emit_mono_rotate_flip_fuel_mono (fuel fuel' : nat) (info : capture_info)
    (out : list Z) :
  (fuel <= fuel')%nat →
  emit_mono_rotate_flip dithering_apply fuel info = Done out →
  emit_mono_rotate_flip dithering_apply fuel' info = Done out.
Proof.
  intros Hle. unfold emit_mono_rotate_flip. case_bool_decide; [done|].
  intros Hrun. apply bind_done in Hrun as (st & Hloop & Hout).
  match goal with
  | |- context [for_loop u16 fuel' 0 (capture_width info) 1 ?b ?s0] =>
      assert (Hloop' : for_loop u16 fuel' 0 (capture_width info) 1 b s0 = Done st)
  end.
  { eapply for_loop_fuel_mono; [|exact Hle|exact Hloop].
    intros x [db o] s' Hb.
    apply bind_done in Hb as ([c o1] & Hinner & Hret).
    match goal with
    | |- context [for_loop u16 fuel' 0 (capture_height info) 8 ?b ?s0] =>
        assert (Hinner' : for_loop u16 fuel' 0 (capture_height info) 8 b s0 = Done (c, o1))
    end.
    { eapply for_loop_fuel_mono; [|exact Hle|exact Hinner]. by intros. }
    by rewrite Hinner'. }
  by rewrite Hloop'.
Qed.

Lemma blocks_nil (f : nat → list Z) (n : nat) :
  (∀ k, (k < n)%nat → f k = []) → blocks f n = [].
Proof.
  induction n as [|n IH]; intros Hf; [done|].
  rewrite blocks_S, IH, Hf by (intros; (apply Hf || idtac); lia). done.
Qed.

(** For every well-formed frame with sides divisible by 8, in either
    dithering mode: if the column-major encoder completes, the row-major
    encoder completes too, the payloads have the same length and they hold
    the same decision for every pixel. *)
Theorem transpose_consistency_when_done (fuel : nat) (info : capture_info) (out : list Z) :
  frame_ok info →
  capture_width info `mod` 8 = 0 →
  capture_height info `mod` 8 = 0 →
  (dithering info ≠ DITHERING_NONE → residual_ok info (dithering_apply info)) →
  emit_mono_rotate_flip dithering_apply fuel info = Done out →
  ∃ rows cols,
    emit_mono dithering_apply info
      = Done (add_packet_length ((capture_width info * capture_height info) `div` 8)
              ++ rows) ∧
    out = add_packet_length ((capture_width info * capture_height info) `div` 8) ++ cols ∧
    Z.of_nat (length rows) = (capture_width info * capture_height info) `div` 8 ∧
    Z.of_nat (length cols) = (capture_width info * capture_height info) `div` 8 ∧
    ∀ x y, 0 <= x < capture_width info → 0 <= y < capture_height info →
      ∃ br bc,
        rows !! Z.to_nat (y * (capture_width info `div` 8) + x `div` 8) = Some br ∧
        cols !! Z.to_nat (x * (capture_height info `div` 8) + y `div` 8) = Some bc ∧
        Z.testbit br (x `mod` 8) = decision info (dithering_apply info) x y ∧
        Z.testbit bc (y `mod` 8) = decision info (dithering_apply info) x y.
Proof.
  intros Hok Hw8 Hh8 Hres Hrun. pose proof Hok as (Hw & Hh & _).
  destruct (decide (dithering info ≠ DITHERING_NONE ∧ capture_width info = 0))
    as [[Hd Hw0]|Hnot].
  - (* dithering on and no columns: both payloads are empty *)
    assert (Hquot : Z.quot (capture_width info * capture_height info) 8
                    = (capture_width info * capture_height info) `div` 8)
      by (apply quot8_div8; nia).
    exists [], []. split_and!.
    + rewrite emit_mono_dither_blocks by auto. rewrite Hquot. do 2 f_equal.
      apply blocks_nil. intros y _. unfold dither_row. by rewrite Hw0.
    + revert Hrun. unfold emit_mono_rotate_flip.
      rewrite bool_decide_false by done. rewrite Hquot, Hw0.
      destruct fuel; cbn; intros [= <-]; by rewrite ?app_nil_r.
    + rewrite Hw0. done.
    + rewrite Hw0. done.
    + intros x y Hx. lia.
  - set (fuel' := Nat.max fuel (Nat.max (Z.to_nat (capture_width info))
                                        (Z.to_nat (capture_height info `div` 8)))).
    destruct (transpose_consistency dithering_apply fuel' info Hok Hw8 Hh8)
      as (rows & cols & Hr & Hc & Hrest).
    + intros Hd. split; [auto|].
      assert (Hrange : ¬ (65535 < capture_width info ∨
                          (0 < capture_width info ∧ 65528 < capture_height info))).
      { intros Hbig.
        by apply (emit_mono_rotate_flip_wraps dithering_apply fuel info out Hd Hbig). }
      assert (capture_width info ≠ 0) by (intros ?; apply Hnot; auto).
      split_and!; unfold fuel'; lia.
    + exists rows, cols. split; [done|]. split; [|done].
      apply (emit_mono_rotate_flip_fuel_mono fuel fuel') in Hrun; [|unfold fuel'; lia].
      rewrite Hrun in Hc. by injection Hc.
Qed.

End WhenDone.

(** ** The capability frame *)

Lemma emit_capture_info_frame (info : capture_info) :
  length (backend_name info) = 16%nat →
  emit_capture_info info
    = Done ([0; 0; 0; 36] ++ backend_name info
            ++ native32 (display_id info)
            ++ native32 (display_width info)
            ++ native32 (display_height info)
            ++ native32 (capture_width info)
            ++ native32 (capture_height info)).
Proof.
  intros Hname. unfold emit_capture_info, memcpy_bytes.
  rewrite bool_decide_true by lia. rewrite take_ge by lia.
  cbn [mbind result_bind mret result_ret].
  rewrite add_packet_length_36. by rewrite <- !(assoc_L (++)).
Qed.

(** C8.  The first thing [main] writes, before its loop reads any command,
    is the capability frame: the 4-byte big-endian length field of value 36
    and a payload of exactly 36 bytes, the 16-byte backend name followed by
    five 4-byte fields, display id, display width, display height, capture
    width and capture height. *)
Theorem capability_frame (MAX : Z) (dithering_apply : capture_info → list Z)
    (capture_initialize : Z → Z → Z → capture_info → option capture_info)
    (capture : capture_info → list Z)
    (fuel : nat) (device width height : Z) (reads : list (option (list Z)))
    (info : capture_info) :
  initialize MAX capture_initialize device width height = Some info →
  length (backend_name info) = 16%nat →
  ∃ length_field name id dw dh cw ch written r,
    main MAX dithering_apply capture_initialize capture fuel device width height reads
      = ((length_field ++ name ++ id ++ dw ++ dh ++ cw ++ ch) :: written, r) ∧
    emit_capture_info info = Done (length_field ++ name ++ id ++ dw ++ dh ++ cw ++ ch) ∧
    length_field = [0; 0; 0; 36] ∧ be32 length_field = 36 ∧
    name = backend_name info ∧ length name = 16%nat ∧
    id = native32 (display_id info) ∧ length id = 4%nat ∧
    dw = native32 (display_width info) ∧ length dw = 4%nat ∧
    dh = native32 (display_height info) ∧ length dh = 4%nat ∧
    cw = native32 (capture_width info) ∧ length cw = 4%nat ∧
    ch = native32 (capture_height info) ∧ length ch = 4%nat ∧
    length (name ++ id ++ dw ++ dh ++ cw ++ ch) = 36%nat.
Proof.
  intros Hinit Hname.
  destruct (daemon_loop MAX dithering_apply capture fuel info reads) as [written r] eqn:Hloop.
  exists [0; 0; 0; 36], (backend_name info), (native32 (display_id info)),
    (native32 (display_width info)), (native32 (display_height info)),
    (native32 (capture_width info)), (native32 (capture_height info)), written, r.
  split_and!; try done.
  - unfold main. rewrite Hinit, (emit_capture_info_frame info Hname). by rewrite Hloop.
  - by apply emit_capture_info_frame.
  - rewrite !length_app, Hname, !length_native32. done.
Qed.

Lemma capability_frame_witness :
  let backend := λ (device width height : Z) (info : capture_info),
    Some (mk_capture_info [100; 105; 115; 112; 109; 97; 110; 120; 0; 0; 0; 0; 0; 0; 0; 0]
            device 1920 1080 width height width [] []
            (request_buffer info) 0 0 0 0 0 0) in
  let info := mk_capture_info [100; 105; 115; 112; 109; 97; 110; 120; 0; 0; 0; 0; 0; 0; 0; 0]
                0 1920 1080 8 8 8 (replicate 64 0) (replicate 64 0)
                (replicate 256 0) 0 0 3 192 6144 0 in
  ∃ length_field name id dw dh cw ch written r,
    main 256 (λ _, []) backend (λ i, buffer i) 2 0 8 8 []
      = ((length_field ++ name ++ id ++ dw ++ dh ++ cw ++ ch) :: written, r) ∧
    emit_capture_info info = Done (length_field ++ name ++ id ++ dw ++ dh ++ cw ++ ch) ∧
    length_field = [0; 0; 0; 36] ∧ be32 length_field = 36 ∧
    name = backend_name info ∧ length name = 16%nat ∧
    id = native32 (display_id info) ∧ length id = 4%nat ∧
    dw = native32 (display_width info) ∧ length dw = 4%nat ∧
    dh = native32 (display_height info) ∧ length dh = 4%nat ∧
    cw = native32 (capture_width info) ∧ length cw = 4%nat ∧
    ch = native32 (capture_height info) ∧ length ch = 4%nat ∧
    length (name ++ id ++ dw ++ dh ++ cw ++ ch) = 36%nat.
Proof.
  intros backend info.
  apply (capability_frame 256 (λ _, []) backend (λ i, buffer i) 2 0 8 8 [] info).
  - reflexivity.
  - reflexivity.
Defined.

(** The payload is not the name followed by four 4-byte fields: behind the
    name come 20 bytes. *)
Lemma capability_frame_not_four_fields :
  let info := mk_capture_info [100; 105; 115; 112; 109; 97; 110; 120; 0; 0; 0; 0; 0; 0; 0; 0]
                0 1920 1080 8 8 8 (replicate 64 0) (replicate 64 0)
                (replicate 256 0) 0 0 3 192 6144 0 in
  ¬ ∃ name f1 f2 f3 f4,
      emit_capture_info info = Done (add_packet_length 36 ++ name ++ f1 ++ f2 ++ f3 ++ f4) ∧
      length name = 16%nat ∧
      length f1 = 4%nat ∧ length f2 = 4%nat ∧ length f3 = 4%nat ∧ length f4 = 4%nat.
Proof.
  intros info (name & f1 & f2 & f3 & f4 & Hrun & Hn & H1 & H2 & H3 & H4).
  apply emit_capture_info_length in Hrun.
  rewrite !length_app, length_add_packet_length in Hrun. lia.
Qed.

(** ** Termination of the [int] loops *)

Lemma for_loop_id_no_timeout {S : Type} (step bound : Z) (body : Z → S → result S) :
  0 < step →
  (∀ i s, body i s ≠ Timeout) →
  ∀ (fuel : nat) (i : Z) (s : S),
    bound - i <= Z.of_nat fuel →
    for_loop id fuel i bound step body s ≠ Timeout.
Proof.
  intros Hstep Hbody. induction fuel as [|fuel IH]; intros i s Hfuel.
  - cbn. by rewrite bool_decide_false by lia.
  - cbn [for_loop]. case_bool_decide; [|done].
    destruct (body i s) as [s1| | |] eqn:Hb; try done.
    + cbn [mbind result_bind]. apply IH. unfold id. lia.
    + by apply Hbody in Hb.
Qed.

Lemma for_int_no_timeout {S : Type} (step bound : Z) (body : Z → S → result S) (s : S) :
  0 < step →
  (∀ i s, body i s ≠ Timeout) →
  for_int bound step body s ≠ Timeout.
Proof. intros Hstep Hbody. unfold for_int. apply for_loop_id_no_timeout; (done || lia). Qed.

Lemma load_no_timeout (mem : list Z) (i : Z) : load mem i ≠ Timeout.
Proof. unfold load. case_bool_decide; [|done]. by destruct (mem !! _). Qed.

Lemma bind_no_timeout {A B : Type} (r : result A) (f : A → result B) :
  r ≠ Timeout → (∀ a, f a ≠ Timeout) → r ≫= f ≠ Timeout.
Proof. intros Hr Hf. destruct r; try done. apply Hf. Qed.

(** The encoders that count in [int] come to an end on every frame. *)
Lemma emit_rgb24_no_timeout (info : capture_info) : emit_rgb24 info ≠ Timeout.
Proof.
  unfold emit_rgb24. apply bind_no_timeout; [|done].
  apply for_int_no_timeout; [lia|]. intros y [image out].
  apply bind_no_timeout; [|done].
  apply for_int_no_timeout; [lia|]. intros x o.
  apply bind_no_timeout; [apply load_no_timeout|done].
Qed.

Lemma emit_rgb565_no_timeout (info : capture_info) : emit_rgb565 info ≠ Timeout.
Proof.
  unfold emit_rgb565. apply bind_no_timeout; [|done].
  apply for_int_no_timeout; [lia|]. intros y [image out].
  apply bind_no_timeout; [|done].
  unfold memcpy_pixels. case_bool_decide; [done|].
  apply for_int_no_timeout; [lia|]. intros x o.
  apply bind_no_timeout; [apply load_no_timeout|done].
Qed.

Ltac loads_no_timeout :=
  repeat (apply bind_no_timeout; [apply load_no_timeout|intros ?]); done.

Lemma emit_mono_no_timeout (dithering_apply : capture_info → list Z) (info : capture_info) :
  emit_mono dithering_apply info ≠ Timeout.
Proof.
  unfold emit_mono. case_bool_decide.
  - apply bind_no_timeout; [|done].
    apply for_int_no_timeout; [lia|]. intros y [image out].
    apply bind_no_timeout; [|by intros []].
    apply for_int_no_timeout; [lia|]. intros x [im o]. loads_no_timeout.
  - apply bind_no_timeout; [|done].
    apply for_int_no_timeout; [lia|]. intros y [image out].
    apply for_int_no_timeout; [lia|]. intros x [im o]. loads_no_timeout.
Qed.

(** ** The stores of a run *)

Lemma agrees_bind {S C S' C' : Type} (R : S → C → list Z → Prop)
    (R' : S' → C' → list Z → Prop) (r : result S) (f : S → result S')
    (m : stores C) (g : C → stores C') (out : list Z) :
  agrees R r (m out) →
  (∀ s c out', R s c out' → agrees R' (f s) (g c out')) →
  agrees R' (r ≫= f) ((m ≫= g) out).
Proof.
  unfold agrees at 1. unfold mbind at 2, stores_bind.
  destruct (m out) as [out' [c| | |k]]; cbn [snd fst].
  - intros (s & -> & HR) Hf. by apply Hf.
  - by intros -> _.
  - by intros -> _.
  - by intros -> _.
Qed.

Lemma for_loop_agrees {S C : Type} (R : S → C → list Z → Prop) (wrap : Z → Z)
    (bound step : Z) (body : Z → S → result S) (tbody : Z → C → stores C) :
  (∀ i s c out, R s c out → agrees R (body i s) (tbody i c out)) →
  ∀ (fuel : nat) (i : Z) (s : S) (c : C) (out : list Z),
    R s c out →
    agrees R (for_loop wrap fuel i bound step body s)
             (for_loop_stores wrap fuel i bound step tbody c out).
Proof.
  intros Hbody. induction fuel as [|fuel IH]; intros i s c out HR.
  - cbn. case_bool_decide; [done|]. by exists s.
  - cbn [for_loop for_loop_stores]. case_bool_decide; [|by exists s].
    eapply agrees_bind; [by apply Hbody|]. intros s1 c1 out1 H1. by apply IH.
Qed.

Lemma for_int_agrees {S C : Type} (R : S → C → list Z → Prop)
    (bound step : Z) (body : Z → S → result S) (tbody : Z → C → stores C)
    (s : S) (c : C) (out : list Z) :
  (∀ i s c out, R s c out → agrees R (body i s) (tbody i c out)) →
  R s c out →
  agrees R (for_int bound step body s) (for_int_stores bound step tbody c out).
Proof. intros Hbody HR. by apply for_loop_agrees. Qed.

Lemma agrees_written {C : Type} (r : result (list Z)) (t : list Z * result C) :
  agrees (λ s _ out, s = out) r t → r = written t.
Proof.
  unfold agrees, written. destruct t as [out [c| | |k]]; cbn; try done.
  by intros (s & -> & ->).
Qed.

Lemma agrees_read (mem : list Z) (i : Z) (out : list Z) :
  agrees (λ v v' out', v = v' ∧ out' = out) (load mem i) (read mem i out).
Proof.
  unfold read, pure_run, agrees. cbn [snd fst].
  destruct (load mem i) as [v| | |k]; try done. by exists v.
Qed.

Lemma store_bind {B : Type} (bytes : list Z) (f : unit → stores B) (out : list Z) :
  (store bytes ≫= f) out = f () (out ++ bytes).
Proof. done. Qed.

Lemma agrees_done {S C : Type} (R : S → C → list Z → Prop) (s : S) (c : C) (out : list Z) :
  R s c out → agrees R (Done s) (out, Done c).
Proof. intros HR. by exists s. Qed.

(** Reads in the same order, then the same continuation. *)
Ltac agree_reads :=
  repeat (eapply agrees_bind; [apply agrees_read|intros ? ? ? [-> ->]]).

Lemma emit_rgb24_written (info : capture_info) :
  emit_rgb24 info = written (run (emit_rgb24_stores info)).
Proof.
  apply agrees_written. unfold emit_rgb24, emit_rgb24_stores, run.
  rewrite store_bind.
  eapply agrees_bind with (R := λ st c out, st = (c, out)).
  - apply for_int_agrees; [|done].
    intros y st image out ->.
    eapply agrees_bind with (R := λ o (_ : unit) out', o = out').
    + apply for_int_agrees; [|done].
      intros x o [] out' ->. agree_reads. by apply agrees_done.
    + intros o [] out' ->. by apply agrees_done.
  - intros st c out ->. by apply agrees_done.
Qed.

Lemma memcpy_pixels_agrees (mem : list Z) (image n : Z) (out : list Z) :
  agrees (λ row (_ : unit) out', out' = out ++ row)
    (memcpy_pixels mem image n) (memcpy_pixels_stores mem image n out).
Proof.
  unfold memcpy_pixels, memcpy_pixels_stores. case_bool_decide; [done|].
  apply for_int_agrees; [|by rewrite app_nil_r].
  intros k acc [] out' ->. agree_reads. apply agrees_done. by rewrite (assoc_L (++)).
Qed.

Lemma emit_rgb565_written (info : capture_info) :
  emit_rgb565 info = written (run (emit_rgb565_stores info)).
Proof.
  apply agrees_written. unfold emit_rgb565, emit_rgb565_stores, run.
  rewrite store_bind.
  eapply agrees_bind with (R := λ st c out, st = (c, out)).
  - apply for_int_agrees; [|done].
    intros y st image out ->.
    eapply agrees_bind; [apply memcpy_pixels_agrees|].
    intros row [] out' ->. by apply agrees_done.
  - intros st c out ->. by apply agrees_done.
Qed.

Lemma emit_capture_info_written (info : capture_info) :
  emit_capture_info info = written (run (emit_capture_info_stores info)).
Proof.
  unfold emit_capture_info, emit_capture_info_stores, run, written.
  rewrite store_bind. unfold mbind at 2, stores_bind, pure_run.
  by destruct (memcpy_bytes (backend_name info) 16).
Qed.

Section EncoderStoresAgree.
Variable dithering_apply : capture_info → list Z.

Lemma emit_mono_written (info : capture_info) :
  emit_mono dithering_apply info = written (run (emit_mono_stores dithering_apply info)).
Proof.
  apply agrees_written. unfold emit_mono, emit_mono_stores, run.
  rewrite store_bind. case_bool_decide.
  - eapply agrees_bind with (R := λ st c out, st = (c, out)).
    + apply for_int_agrees; [|done].
      intros y st image out ->.
      eapply agrees_bind with (R := λ st c out, st = (c, out)).
      * apply for_int_agrees; [|done].
        intros x st im o ->. agree_reads. rewrite store_bind. by apply agrees_done.
      * intros [im o] c out' [= -> ->]. by apply agrees_done.
    + intros st c out ->. by apply agrees_done.
  - eapply agrees_bind with (R := λ st c out, st = (c, out)).
    + apply for_int_agrees; [|done].
      intros y st image out ->.
      apply for_int_agrees; [|done].
      intros x st im o ->. agree_reads. rewrite store_bind. by apply agrees_done.
    + intros st c out ->. by apply agrees_done.
Qed.

Lemma emit_mono_rotate_flip_written (fuel : nat) (info : capture_info) :
  emit_mono_rotate_flip dithering_apply fuel info
    = written (run (emit_mono_rotate_flip_stores dithering_apply fuel info)).
Proof.
  apply agrees_written. unfold emit_mono_rotate_flip, emit_mono_rotate_flip_stores, run.
  rewrite store_bind. case_bool_decide.
  - eapply agrees_bind with (R := λ st c out, st = (c, out)).
    + apply for_int_agrees; [|done].
      intros x st image out ->.
      eapply agrees_bind with (R := λ st c out, st = (c, out)).
      * apply for_int_agrees; [|done].
        intros y st col o ->. agree_reads. rewrite store_bind. by apply agrees_done.
      * intros [col o] c out' [= -> ->]. by apply agrees_done.
    + intros st c out ->. by apply agrees_done.
  - eapply agrees_bind with (R := λ st c out, st = (c, out)).
    + apply for_loop_agrees; [|done].
      intros x st image out ->.
      eapply agrees_bind with (R := λ st c out, st = (c, out)).
      * apply for_loop_agrees; [|done].
        intros y st col o ->. agree_reads. rewrite store_bind. by apply agrees_done.
      * intros [col o] c out' [= -> ->]. by apply agrees_done.
    + intros st c out ->. by apply agrees_done.
Qed.

End EncoderStoresAgree.

(** ** How much a run stores, however it stops *)

Lemma bind_stores_grow {A B : Type} (m : stores A) (f : A → stores B) (a b : Z)
    (out : list Z) :
  0 <= b →
  Z.of_nat (length (m out).1) <= Z.of_nat (length out) + a →
  (∀ x out', Z.of_nat (length (f x out').1) <= Z.of_nat (length out') + b) →
  Z.of_nat (length ((m ≫= f) out).1) <= Z.of_nat (length out) + (a + b).
Proof.
  intros Hb Hm Hf. unfold mbind, stores_bind.
  destruct (m out) as [out' [x| | |k]]; cbn [fst] in *; try lia.
  specialize (Hf x out'). lia.
Qed.

Lemma read_grow {B : Type} (mem : list Z) (i : Z) (f : Z → stores B) (b : Z)
    (out : list Z) :
  0 <= b →
  (∀ v out', Z.of_nat (length (f v out').1) <= Z.of_nat (length out') + b) →
  Z.of_nat (length ((read mem i ≫= f) out).1) <= Z.of_nat (length out) + b.
Proof.
  intros Hb Hf.
  replace b with (0 + b) by lia. apply bind_stores_grow; [done| |done].
  unfold read, pure_run. cbn. lia.
Qed.

Lemma store_grow {B : Type} (bytes : list Z) (b : B) (out : list Z) :
  Z.of_nat (length ((store bytes ≫= λ _, mret b) out).1)
    = Z.of_nat (length out) + Z.of_nat (length bytes).
Proof. rewrite store_bind. cbn. rewrite length_app. lia. Qed.

(** A loop stores at most [m] bytes per iteration, and it has no more
    iterations than fuel. *)
Lemma for_loop_stores_grow {S : Type} (m : Z) (wrap : Z → Z) (bound step : Z)
    (body : Z → S → stores S) :
  0 <= m →
  (∀ i s out, Z.of_nat (length (body i s out).1) <= Z.of_nat (length out) + m) →
  ∀ (fuel : nat) (i : Z) (s : S) (out : list Z),
    Z.of_nat (length (for_loop_stores wrap fuel i bound step body s out).1)
      <= Z.of_nat (length out) + Z.of_nat fuel * m.
Proof.
  intros Hm Hbody. induction fuel as [|fuel IH]; intros i s out.
  - cbn. case_bool_decide; cbn; lia.
  - cbn [for_loop_stores]. case_bool_decide; [|cbn; nia].
    replace (Z.of_nat (Datatypes.S fuel) * m) with (m + Z.of_nat fuel * m) by lia.
    apply bind_stores_grow; [nia|apply Hbody|]. intros s1 out1. apply IH.
Qed.

Lemma for_int_stores_grow {S : Type} (m : Z) (bound step : Z)
    (body : Z → S → stores S) (s : S) (out : list Z) :
  0 <= m →
  (∀ i s out, Z.of_nat (length (body i s out).1) <= Z.of_nat (length out) + m) →
  Z.of_nat (length (for_int_stores bound step body s out).1)
    <= Z.of_nat (length out) + Z.max 0 bound * m.
Proof.
  intros Hm Hbody. unfold for_int_stores.
  pose proof (for_loop_stores_grow m id bound step body Hm Hbody (Z.to_nat bound) 0 s out).
  nia.
Qed.

(** Eight reads, then the store of one byte. *)
Ltac one_byte_stored :=
  repeat (apply read_grow; [lia|intros ? ?]); rewrite store_grow; cbn [length]; lia.

Lemma emit_capture_info_stores_length (info : capture_info) :
  Z.of_nat (length (run (emit_capture_info_stores info)).1) <= 40.
Proof.
  unfold emit_capture_info_stores, run. rewrite store_bind.
  unfold mbind at 1, stores_bind at 1, pure_run.
  destruct (memcpy_bytes (backend_name info) 16) as [name| | |k] eqn:Hname;
    cbn [fst length app]; rewrite ?length_add_packet_length; try lia.
  unfold memcpy_bytes in Hname. case_bool_decide; [|done]. injection Hname as <-.
  rewrite !store_bind. unfold store. cbn [fst].
  rewrite !length_app, length_take, !length_native32, length_add_packet_length.
  cbn [length]. lia.
Qed.

Lemma header_then {B : Type} (size : Z) (m : stores B) (b : Z) :
  (∀ out, Z.of_nat (length (m out).1) <= Z.of_nat (length out) + b) →
  Z.of_nat (length (run (store (add_packet_length size) ≫= λ _, m)).1) <= 4 + b.
Proof.
  intros Hm. unfold run. rewrite store_bind. specialize (Hm ([] ++ add_packet_length size)).
  rewrite length_app, length_add_packet_length in Hm. cbn [length] in Hm. lia.
Qed.

Lemma then_ret_fst {A B : Type} (m : stores A) (f : A → B) (out : list Z) :
  ((m ≫= λ a, mret (f a)) out).1 = (m out).1.
Proof. unfold mbind, stores_bind. by destruct (m out) as [out' [a| | |k]]. Qed.

Lemma emit_rgb24_stores_length (info : capture_info) :
  Z.of_nat (length (run (emit_rgb24_stores info)).1)
    <= 4 + Z.max 0 (capture_height info) * (Z.max 0 (capture_width info) * 3).
Proof.
  unfold emit_rgb24_stores. apply header_then. intros out. rewrite then_ret_fst.
  apply for_int_stores_grow; [lia|]. intros y image out1. rewrite then_ret_fst.
  apply for_int_stores_grow; [lia|]. intros x [] out2.
  apply read_grow; [lia|]. intros v out3. unfold store. cbn. rewrite length_app. cbn. lia.
Qed.

Lemma memcpy_pixels_stores_length (mem : list Z) (image n : Z) (out : list Z) :
  Z.of_nat (length (memcpy_pixels_stores mem image n out).1)
    <= Z.of_nat (length out) + Z.max 0 n * 2.
Proof.
  unfold memcpy_pixels_stores. case_bool_decide; [cbn; lia|].
  apply for_int_stores_grow; [lia|]. intros k [] out2.
  apply read_grow; [lia|]. intros v out3. unfold store. cbn. rewrite length_app. cbn. lia.
Qed.

Lemma emit_rgb565_stores_length (info : capture_info) :
  Z.of_nat (length (run (emit_rgb565_stores info)).1)
    <= 4 + Z.max 0 (capture_height info) * (Z.max 0 (capture_width info) * 2).
Proof.
  unfold emit_rgb565_stores. apply header_then. intros out. rewrite then_ret_fst.
  apply for_int_stores_grow; [lia|]. intros y image out1. rewrite then_ret_fst.
  apply memcpy_pixels_stores_length.
Qed.

Section EncoderStoresLength.
Variable dithering_apply : capture_info → list Z.

Lemma emit_mono_stores_length (info : capture_info) :
  Z.of_nat (length (run (emit_mono_stores dithering_apply info)).1)
    <= 4 + Z.max 0 (capture_height info) * Z.max 0 (capture_width info).
Proof.
  unfold emit_mono_stores. apply header_then. intros out. case_bool_decide.
  - rewrite then_ret_fst.
    apply for_int_stores_grow; [lia|]. intros y image out1. rewrite then_ret_fst.
    replace (Z.max 0 (capture_width info)) with (Z.max 0 (capture_width info) * 1) by lia.
    apply for_int_stores_grow; [lia|]. intros x im out2. one_byte_stored.
  - rewrite then_ret_fst.
    apply for_int_stores_grow; [lia|]. intros y image out1.
    replace (Z.max 0 (capture_width info)) with (Z.max 0 (capture_width info) * 1) by lia.
    apply for_int_stores_grow; [lia|]. intros x im out2. one_byte_stored.
Qed.

(** A loop with an invariant [I] and a potential [φ]: every iteration pays
    for its stores, [K] per byte, out of the potential.  However the loop
    stops, it has stored no more than the potential it started with; when it
    is done, the invariant holds at a counter that fails the test. *)
Lemma for_loop_stores_potential {S : Type} (wrap : Z → Z) (bound step K : Z)
    (body : Z → S → stores S) (I : Z → S → Prop) (φ : S → Z) :
  (∀ i s, I i s → 0 <= φ s) →
  (∀ i s out, i < bound → I i s →
     match (body i s out).2 with
     | Done s' =>
         I (wrap (i + step)) s' ∧
         K * (Z.of_nat (length (body i s out).1) - Z.of_nat (length out)) <= φ s - φ s'
     | _ => K * (Z.of_nat (length (body i s out).1) - Z.of_nat (length out)) <= φ s
     end) →
  ∀ (fuel : nat) (i : Z) (s : S) (out : list Z),
    I i s →
    let t := for_loop_stores wrap fuel i bound step body s out in
    K * (Z.of_nat (length t.1) - Z.of_nat (length out)) <= φ s ∧
    ∀ s', t.2 = Done s' → ∃ i', I i' s' ∧ ¬ i' < bound.
Proof.
  intros Hpos Hbody. induction fuel as [|fuel IH]; intros i s out HI.
  - cbn. case_bool_decide as Hlt; cbn.
    + split; [specialize (Hpos _ _ HI); lia|done].
    + split; [specialize (Hpos _ _ HI); lia|]. intros s' [= <-]. by exists i.
  - cbn [for_loop_stores]. case_bool_decide as Hlt.
    + specialize (Hbody i s out Hlt HI). unfold mbind, stores_bind.
      destruct (body i s out) as [out1 [s1| | |k]]; cbn [fst snd] in *;
        try (split; [lia|done]).
      destruct Hbody as [HI1 Hpay].
      destruct (IH (wrap (i + step)) s1 out1 HI1) as [Hrest Hdone].
      split; [|done]. specialize (Hpos _ _ HI1). lia.
    + cbn. split; [specialize (Hpos _ _ HI); lia|]. intros s' [= <-]. by exists i.
Qed.

Lemma read_bind {B : Type} (mem : list Z) (i : Z) (f : Z → stores B) (out : list Z) :
  (read mem i ≫= f) out
    = match load mem i with
      | Done v => f v out
      | Fault => (out, Fault)
      | Timeout => (out, Timeout)
      | Exit k => (out, Exit k)
      end.
Proof. unfold mbind, stores_bind, read, pure_run. by destruct (load mem i). Qed.

Lemma load_done_in (mem : list Z) (i v : Z) :
  load mem i = Done v → 0 <= i < Z.of_nat (length mem).
Proof.
  unfold load. case_bool_decide as Hi; [|done].
  destruct (mem !! Z.to_nat i) eqn:Hv; [|done]. intros _.
  apply lookup_lt_Some in Hv. lia.
Qed.

Lemma emit_mono_rotate_flip_stores_length (fuel : nat) (info : capture_info) :
  (dithering info ≠ DITHERING_NONE →
   Z.of_nat (length (dithering_apply info)) <= capture_width info * capture_height info) →
  Z.of_nat (length (run (emit_mono_rotate_flip_stores dithering_apply fuel info)).1)
    <= 4 + Z.max 0 (capture_width info) * Z.max 0 (capture_height info).
Proof.
  intros Hres. unfold emit_mono_rotate_flip_stores. apply header_then. intros out.
  case_bool_decide as Hd.
  - rewrite then_ret_fst.
    apply for_int_stores_grow; [lia|]. intros y image out1. rewrite then_ret_fst.
    replace (Z.max 0 (capture_height info)) with (Z.max 0 (capture_height info) * 1) by lia.
    apply for_int_stores_grow; [lia|]. intros x im out2. one_byte_stored.
  - rewrite then_ret_fst. specialize (Hres Hd).
    set (w := capture_width info) in *. set (h := capture_height info) in *.
    set (L := Z.of_nat (length (dithering_apply info))) in *.
    destruct (decide (0 < w)) as [Hw|Hw].
    2:{ destruct fuel; cbn [for_loop_stores]; rewrite bool_decide_false by lia; cbn; lia. }
    destruct (decide (0 < h)) as [Hh|Hh].
    2:{ pose proof (for_loop_stores_grow (S := Z) 0 u16 w 1) as Hgrow.
        match goal with
        | |- context [for_loop_stores u16 fuel 0 w 1 ?b 0 out] =>
            specialize (Hgrow b ltac:(lia))
        end.
        match type of Hgrow with
        | ?P → _ => assert (Hbody : P)
        end.
        { intros x p out1. rewrite then_ret_fst.
          destruct fuel; cbn [for_loop_stores]; rewrite bool_decide_false by lia; cbn; lia. }
        specialize (Hgrow Hbody fuel 0 0 out). lia. }
    (* both sides positive *)
    match goal with
    | |- context [for_loop_stores u16 fuel 0 w 1 ?b 0 out] => set (outer := b)
    end.
    pose proof (for_loop_stores_potential u16 w 1 8 outer
                  (λ _ p, 0 <= p <= w) (λ p, (w + 1 - p) * h)) as Hpot.
    destruct (Hpot ltac:(cbn beta; intros; nia)) with (fuel := fuel) (i := 0) (s := 0) (out := out)
      as [Hall _]; [|lia|nia].
    clear Hpot. intros x p out1 _ Hp. subst outer. cbn beta.
    match goal with
    | |- context [for_loop_stores u16 fuel 0 h 8 ?b p] => set (inner := b)
    end.
    pose proof (for_loop_stores_potential u16 h 8 (8 * w) inner
                  (λ y c, 0 <= y < 65536 ∧
                          ∃ k, 0 <= k ∧ c = p + w * (y + 65536 * k) ∧
                               ((y = 0 ∧ k = 0) ∨ c - w < L))
                  (λ c, Z.max 0 (L + w - 1 - c))) as Hpot.
    destruct (Hpot ltac:(cbn beta; intros; lia)) with (fuel := fuel) (i := 0) (s := p) (out := out1)
      as [Hin Hdone].
    + clear Hpot. intros y c out2 Hy (Hy16 & k & Hk & Hc & Hlast). subst inner. cbn beta.
      repeat (rewrite read_bind;
              match goal with
              | |- context [match load ?m ?a with _ => _ end] => destruct (load m a) eqn:?
              end; cbn [fst snd]; try lia).
      rewrite store_bind. cbn [mret stores_ret fst snd].
      match goal with
      | H : load _ (c + w * 7) = Done _ |- _ => apply load_done_in in H; fold L in H
      end.
      rewrite length_app. cbn [length]. split; [|lia].
      split; [unfold u16; apply Z.mod_pos_bound; lia|].
      destruct (decide (y + 8 < 65536)) as [Hsmall|Hbig].
      * exists k. unfold u16. rewrite Z.mod_small by lia. split_and!; [lia|lia|right; lia].
      * exists (k + 1). unfold u16.
        replace ((y + 8) `mod` 65536) with (y + 8 - 65536) by dlia.
        split_and!; [lia|lia|right; lia].
    + split; [lia|]. exists 0. split_and!; [lia|lia|left; done].
    + rewrite !then_ret_fst.
      unfold mbind, stores_bind.
      destruct (for_loop_stores u16 fuel 0 h 8 inner p out1) as [out2 [c| | |k]] eqn:Hrun;
        cbn [fst snd] in *; try nia.
      destruct (Hdone c eq_refl) as (y' & (Hy16 & k & Hk & Hc & Hlast) & Hexit).
      assert (p < w) by nia.
      split; [lia|]. nia.
Qed.

End EncoderStoresLength.

(** A run that stops early.  In a frame of 4 by 3 pixels the row-major
    encoder takes its first group of eight pixels from the first two rows
    and stores one byte; the second group starts at pixel 8 and its fifth
    read is behind the 12 pixels of the buffer.  The run has stored the
    length field and that byte. *)
Example emit_mono_stores_4x3 :
  let info := mk_capture_info (replicate 16 0) 0 0 0 4 3 4 (replicate 12 65535)
                (replicate 12 0) [] 0 0 3 192 6144 0 in
  run (emit_mono_stores (λ _, []) info) = ([0; 0; 0; 1; 255], Fault) ∧
  emit_mono (λ _, []) info = Fault.
Proof. intros info. split; by vm_compute. Qed.

(** ** The work buffer *)

(** C10.  When [capture_width * capture_height >= 12] and the size
    [capture_width * capture_height * 4] of the work buffer is at most
    [INT_MAX], so that the 32-bit product of [initialize] is that size,
    every emission (capability frame, RGB24, RGB565, either monochrome
    encoder) has stored at most [4 + 3 * width * height] bytes through [out]
    when it stops, whether it stops at its [write_stdout], at a read outside
    a buffer or with its fuel used up; for the dithered column-major
    encoder this takes a dither buffer of no more than the
    [width * height] entries that [initialize] allocates.  That
    many bytes are within the capacity of the work buffer.  The runs are
    those of the encoders: what an encoder hands to [write_stdout] is what
    its run has stored when it gets there, and an emission that gets there
    stays within the bound whatever the dither buffer.  The capability frame
    and the encoders that count in [int] always come to an end. *)
Theorem work_buffer_sufficient (dithering_apply : capture_info → list Z) (fuel : nat)
    (info : capture_info) :
  12 <= capture_width info * capture_height info →
  capture_width info * capture_height info * 4 <= INT_MAX →
  (∀ stored outcome,
     run (emit_capture_info_stores info) = (stored, outcome) ∨
     run (emit_rgb24_stores info) = (stored, outcome) ∨
     run (emit_rgb565_stores info) = (stored, outcome) ∨
     run (emit_mono_stores dithering_apply info) = (stored, outcome) →
     Z.of_nat (length stored) <= 4 + 3 * capture_width info * capture_height info) ∧
  ((dithering info ≠ DITHERING_NONE →
    Z.of_nat (length (dithering_apply info))
      <= capture_width info * capture_height info) →
   ∀ stored outcome,
     run (emit_mono_rotate_flip_stores dithering_apply fuel info) = (stored, outcome) →
     Z.of_nat (length stored) <= 4 + 3 * capture_width info * capture_height info) ∧
  (∀ out,
     emit_capture_info info = Done out ∨
     emit_rgb24 info = Done out ∨
     emit_rgb565 info = Done out ∨
     emit_mono dithering_apply info = Done out ∨
     emit_mono_rotate_flip dithering_apply fuel info = Done out →
     Z.of_nat (length out) <= 4 + 3 * capture_width info * capture_height info) ∧
  4 + 3 * capture_width info * capture_height info <= work_capacity info ∧
  emit_capture_info info = written (run (emit_capture_info_stores info)) ∧
  emit_rgb24 info = written (run (emit_rgb24_stores info)) ∧
  emit_rgb565 info = written (run (emit_rgb565_stores info)) ∧
  emit_mono dithering_apply info = written (run (emit_mono_stores dithering_apply info)) ∧
  emit_mono_rotate_flip dithering_apply fuel info
    = written (run (emit_mono_rotate_flip_stores dithering_apply fuel info)) ∧
  emit_capture_info info ≠ Timeout ∧
  emit_rgb24 info ≠ Timeout ∧
  emit_rgb565 info ≠ Timeout ∧
  emit_mono dithering_apply info ≠ Timeout.
Proof.
  intros Hsize Hmax. split_and!.
  - intros stored outcome Hrun.
    destruct Hrun as [Hrun|[Hrun|[Hrun|Hrun]]].
    + pose proof (emit_capture_info_stores_length info) as Hlen.
      rewrite Hrun in Hlen. cbn [fst] in Hlen. lia.
    + pose proof (emit_rgb24_stores_length info) as Hlen.
      rewrite Hrun in Hlen. cbn [fst] in Hlen. nia.
    + pose proof (emit_rgb565_stores_length info) as Hlen.
      rewrite Hrun in Hlen. cbn [fst] in Hlen. nia.
    + pose proof (emit_mono_stores_length dithering_apply info) as Hlen.
      rewrite Hrun in Hlen. cbn [fst] in Hlen. nia.
  - intros Hres stored outcome Hrun.
    pose proof (emit_mono_rotate_flip_stores_length dithering_apply fuel info Hres) as Hlen.
    rewrite Hrun in Hlen. cbn [fst] in Hlen. nia.
  - intros out Hrun.
    destruct Hrun as [Hrun|[Hrun|[Hrun|[Hrun|Hrun]]]].
    + apply emit_capture_info_length in Hrun. lia.
    + apply emit_rgb24_length in Hrun. nia.
    + apply emit_rgb565_length in Hrun. nia.
    + apply emit_mono_length in Hrun. nia.
    + apply emit_mono_rotate_flip_length in Hrun. nia.
  - unfold work_capacity, u32, INT_MAX in *. rewrite Z.mod_small by lia. lia.
  - apply emit_capture_info_written.
  - apply emit_rgb24_written.
  - apply emit_rgb565_written.
  - apply emit_mono_written.
  - apply emit_mono_rotate_flip_written.
  - unfold emit_capture_info, memcpy_bytes. by case_bool_decide.
  - apply emit_rgb24_no_timeout.
  - apply emit_rgb565_no_timeout.
  - apply emit_mono_no_timeout.
Qed.

Lemma work_buffer_sufficient_witness :
  let info := mk_capture_info (replicate 16 0) 0 8 8 8 8 8 (replicate 64 65535)
                (replicate 64 0) [] 0 0 3 192 6144 1 in
  let engine := λ _ : capture_info, replicate 64 1 in
  ((run (emit_capture_info_stores info)).2 = Done () ∧
   (run (emit_rgb24_stores info)).2 = Done () ∧
   (run (emit_rgb565_stores info)).2 = Done () ∧
   (run (emit_mono_stores engine info)).2 = Done () ∧
   (run (emit_mono_rotate_flip_stores engine 8 info)).2 = Done ()) ∧
  (∀ stored outcome,
     run (emit_capture_info_stores info) = (stored, outcome) ∨
     run (emit_rgb24_stores info) = (stored, outcome) ∨
     run (emit_rgb565_stores info) = (stored, outcome) ∨
     run (emit_mono_stores engine info) = (stored, outcome) →
     Z.of_nat (length stored) <= 4 + 3 * capture_width info * capture_height info) ∧
  ((dithering info ≠ DITHERING_NONE →
    Z.of_nat (length (engine info)) <= capture_width info * capture_height info) →
   ∀ stored outcome,
     run (emit_mono_rotate_flip_stores engine 8 info) = (stored, outcome) →
     Z.of_nat (length stored) <= 4 + 3 * capture_width info * capture_height info) ∧
  (∀ out,
     emit_capture_info info = Done out ∨
     emit_rgb24 info = Done out ∨
     emit_rgb565 info = Done out ∨
     emit_mono engine info = Done out ∨
     emit_mono_rotate_flip engine 8 info = Done out →
     Z.of_nat (length out) <= 4 + 3 * capture_width info * capture_height info) ∧
  4 + 3 * capture_width info * capture_height info <= work_capacity info ∧
  emit_capture_info info = written (run (emit_capture_info_stores info)) ∧
  emit_rgb24 info = written (run (emit_rgb24_stores info)) ∧
  emit_rgb565 info = written (run (emit_rgb565_stores info)) ∧
  emit_mono engine info = written (run (emit_mono_stores engine info)) ∧
  emit_mono_rotate_flip engine 8 info
    = written (run (emit_mono_rotate_flip_stores engine 8 info)) ∧
  emit_capture_info info ≠ Timeout ∧
  emit_rgb24 info ≠ Timeout ∧
  emit_rgb565 info ≠ Timeout ∧
  emit_mono engine info ≠ Timeout.
Proof.
  intros info engine. split; [by vm_compute|].
  apply (work_buffer_sufficient engine 8 info); by vm_compute.
Defined.

(** The two preconditions are needed.  With
    [capture_width * capture_height = 10] the capability frame, 40 bytes, is
    more than [4 + 3 * 10] bytes (it just fits the 40 bytes of the work
    buffer).  With a capture of 32768 by 32768 the 32-bit size of the work
    buffer is 0, and the same 40 bytes go into it. *)
Lemma work_buffer_bound_fails :
  (let info := mk_capture_info (replicate 16 0) 0 5 2 5 2 5 (replicate 10 0) (replicate 10 0)
                 [] 0 0 3 192 6144 0 in
   4 <= capture_width info * capture_height info ∧
   ∃ out,
     emit_capture_info info = Done out ∧
     ¬ (Z.of_nat (length out) <= 4 + 3 * capture_width info * capture_height info) ∧
     Z.of_nat (length out) = work_capacity info) ∧
  (let info := mk_capture_info (replicate 16 0) 0 32768 32768 32768 32768 32768 [] []
                 [] 0 0 3 192 6144 0 in
   4 <= capture_width info * capture_height info ∧
   work_capacity info = 0 ∧
   ∃ out,
     emit_capture_info info = Done out ∧
     run (emit_capture_info_stores info) = (out, Done ()) ∧
     Z.of_nat (length out) = 40 ∧
     Z.of_nat (length out) <= 4 + 3 * capture_width info * capture_height info ∧
     ¬ (Z.of_nat (length out) <= work_capacity info) ∧
     ¬ (4 + 3 * capture_width info * capture_height info <= work_capacity info)).
Proof.
  split.
  - intros info. split; [by vm_compute|].
    eexists. split; [vm_compute; reflexivity|]. split; by vm_compute.
  - intros info. split; [by vm_compute|]. split; [by vm_compute|].
    eexists. split; [vm_compute; reflexivity|]. split_and!; by vm_compute.
Qed.

(** With [capture_width * capture_height = 4] it takes 40 bytes of a work
    buffer of 16. *)
Lemma work_buffer_overflow_2x2 :
  let info := mk_capture_info (replicate 16 0) 0 2 2 2 2 2 [0; 0; 0; 0] [0; 0; 0; 0]
                [] 0 0 3 192 6144 0 in
  4 <= capture_width info * capture_height info ∧
  ∃ out,
    emit_capture_info info = Done out ∧
    ¬ (Z.of_nat (length out) <= 4 + 3 * capture_width info * capture_height info) ∧
    ¬ (Z.of_nat (length out) <= work_capacity info).
Proof.
  intros info. split; [by vm_compute|].
  eexists. split; [vm_compute; reflexivity|]. split; by vm_compute.
Qed.

(** The bound on the dither buffer is needed: the dithering engine is a
    parameter of the encoders, and one that left a buffer of more than
    [width * height] entries would keep the column-major encoder, on a
    frame of 65536 rows, reading and storing beyond the bound.  Here the
    frame is 1 by 65536 and the buffer has 1572872 entries: after 196609
    passes the run has stored 196613 bytes, one more than
    [4 + 3 * 65536]. *)
Lemma dither_buffer_longer_than_allocated :
  let info := mk_capture_info (replicate 16 0) 0 1 65536 1 65536 1 [] [] [] 0 0 3 192 6144 1 in
  let engine := λ _ : capture_info, replicate (Z.to_nat 1572872) 0 in
  12 <= capture_width info * capture_height info ∧
  capture_width info * capture_height info * 4 <= INT_MAX ∧
  ¬ (Z.of_nat (length (engine info)) <= capture_width info * capture_height info) ∧
  ∃ stored,
    run (emit_mono_rotate_flip_stores engine (Z.to_nat 196609) info) = (stored, Timeout) ∧
    Z.of_nat (length stored) = 196613 ∧
    ¬ (Z.of_nat (length stored) <= 4 + 3 * capture_width info * capture_height info).
Proof.
  intros info engine.
  split; [by vm_compute|]. split; [by vm_compute|].
  split.
  { unfold engine. rewrite length_replicate.
    change (capture_width info) with 1. change (capture_height info) with 65536. lia. }
  unfold run, emit_mono_rotate_flip_stores. rewrite store_bind.
  rewrite bool_decide_false by done.
  change (capture_width info) with 1. change (capture_height info) with 65536.
  unfold engine. set (residual := replicate (Z.to_nat 1572872) 0).
  set (fuel := Z.to_nat 196609). assert (Hfuel : Z.of_nat fuel = 196609) by (unfold fuel; lia).
  clearbody fuel.
  match goal with
  | |- context [for_loop_stores u16 _ 0 65536 8 ?b] => set (inner := b)
  end.
  assert (Hspin : ∀ (f : nat) (y c : Z) (out : list Z),
            0 <= y < 65536 → 0 <= c → c + 8 * Z.of_nat f <= 1572872 →
            for_loop_stores u16 f y 65536 8 inner c out
              = (out ++ replicate f 0, Timeout)).
  { induction f as [|f IH]; intros y c out Hy Hc Hn.
    - cbn. rewrite bool_decide_true by lia. by rewrite app_nil_r.
    - cbn [for_loop_stores]. rewrite bool_decide_true by lia.
      unfold mbind at 1, stores_bind at 1.
      assert (Hbody : inner y c out = (out ++ [0], Done (c + 8))).
      { unfold inner.
        assert (Hload : ∀ a, c <= a < c + 8 → load residual a = Done 0).
        { intros a Ha. unfold load, residual. rewrite bool_decide_true by lia.
          rewrite lookup_replicate_2; [done|lia]. }
        repeat (rewrite read_bind, Hload by lia).
        rewrite store_bind. cbn [mret stores_ret]. by do 2 f_equal. }
      rewrite Hbody. rewrite IH.
      + rewrite <- (assoc_L (++)). done.
      + unfold u16. apply Z.mod_pos_bound. lia.
      + lia.
      + lia. }
  match goal with
  | |- context [for_loop_stores u16 fuel 0 1 1 ?b] => set (outer := b)
  end.
  assert (Houter : ∀ out, outer 0 0 out = (out ++ replicate fuel 0, Timeout)).
  { intros out. unfold outer, mbind, stores_bind. by rewrite Hspin by lia. }
  exists (([] ++ add_packet_length (Z.quot (1 * 65536) 8)) ++ replicate fuel 0). split.
  - assert (Hpos : fuel ≠ 0%nat) by lia. clear Hspin.
    destruct fuel as [|f]; [done|].
    cbn [for_loop_stores]. rewrite bool_decide_true by lia.
    unfold mbind, stores_bind. by rewrite Houter.
  - rewrite !length_app, length_replicate, length_add_packet_length.
    change (capture_width info) with 1. change (capture_height info) with 65536.
    cbn [length]. lia.
Qed.

(** ** A length byte of 252

    [len] is a [uint8_t]: with [L = 252] it is 0, the pass drops nothing and
    the loop sees the same buffer again. *)
Lemma parse_commands_spins (fuel : nat) :
  ∀ (info : capture_info) (log : list dispatch) (cmd : Z) (rest : list Z),
    request_buffer info = [0; 0; 0; 252; cmd] ++ rest →
    5 <= request_buffer_ix info →
    ¬ (1 <= cmd <= 7) →
    parse_commands fuel info log = Timeout.
Proof.
  induction fuel as [|fuel IH]; intros info log cmd rest Hbuf Hix Hcmd.
  - cbn. by rewrite bool_decide_true by lia.
  - erewrite parse_commands_step; [|done|done|change (u8 (4 + 252)) with 0; lia].
    unfold switch_command. rewrite !bool_decide_false by lia.
    cbn [mbind result_bind]. change (u8 (4 + 252)) with 0.
    rewrite Z.sub_0_r, bool_decide_true by lia.
    apply (IH _ _ cmd rest); cbn [request_buffer request_buffer_ix store_request]; try done.
    unfold memmove_front. rewrite drop_0. change (Z.to_nat 0) with 0%nat.
    by rewrite take_drop.
Qed.

(** ** Runs of the daemon

    A backend that captures 2 x 1 pixels.  The request [00 00 00 01 03] is
    answered with an RGB565 frame of [2 * width * height] bytes; the end of
    the input ends the process with success. *)
Example daemon_rgb565 :
  let backend := λ (device width height : Z) (info : capture_info),
    Some (mk_capture_info [100; 105; 115; 112; 109; 97; 110; 120; 0; 0; 0; 0; 0; 0; 0; 0]
            device 1920 1080 width height width [] []
            (request_buffer info) 0 0 0 0 0 0) in
  main 256 (λ _, []) backend (λ _, [0x0102; 0x0304]) 4 0 2 1
       [Some [0; 0; 0; 1; 3]; Some []]
  = ([[0; 0; 0; 36; 100; 105; 115; 112; 109; 97; 110; 120; 0; 0; 0; 0; 0; 0; 0; 0;
       0; 0; 0; 0; 128; 7; 0; 0; 56; 4; 0; 0; 2; 0; 0; 0; 1; 0; 0; 0];
      [0; 0; 0; 4; 2; 1; 4; 3]],
     Exit EXIT_SUCCESS).
Proof. vm_compute. reflexivity. Qed.

(** Two snapshot requests that arrive in one read leave one pending request,
    the later one, and one frame is sent; when they arrive in two reads a
    frame is sent for each. *)
Example daemon_last_request_wins :
  let backend := λ (device width height : Z) (info : capture_info),
    Some (mk_capture_info [100; 105; 115; 112; 109; 97; 110; 120; 0; 0; 0; 0; 0; 0; 0; 0]
            device 1920 1080 width height width [] []
            (request_buffer info) 0 0 0 0 0 0) in
  let run := main 256 (λ _, []) backend (λ _, [0x0102; 0x0304]) 4 0 2 1 in
  tail (run [Some [0; 0; 0; 1; 3; 0; 0; 0; 1; 2]]).1
    = [[0; 0; 0; 6; 0; 32; 16; 0; 96; 32]] ∧
  tail (run [Some [0; 0; 0; 1; 3]; Some [0; 0; 0; 1; 2]]).1
    = [[0; 0; 0; 4; 2; 1; 4; 3]; [0; 0; 0; 6; 0; 32; 16; 0; 96; 32]].
Proof. split; vm_compute; reflexivity. Qed.

(** * Further properties of the code *)

(** ** RGB565 *)

Lemma pixel_bytes_u16 (p : Z) :
  is_u16 p → pixel_bytes p = [p `mod` 256; p `div` 256].
Proof.
  intros Hp. unfold is_u16 in Hp. unfold pixel_bytes.
  change 0xff with (Z.ones 8). rewrite !Z.land_ones by lia. shifts_to_div.
  f_equal. f_equal. apply Z.mod_small. dlia.
Qed.

Lemma length_rgb565_row (info : capture_info) (y : nat) :
  length (rgb565_row info y) = (Z.to_nat (capture_width info) * 2)%nat.
Proof. unfold rgb565_row. by apply length_blocks. Qed.

Lemma memcpy_pixels_row (info : capture_info) (y : nat) :
  frame_ok info →
  (y < Z.to_nat (capture_height info))%nat →
  memcpy_pixels (buffer info) (Z.of_nat y * capture_stride info) (capture_width info)
    = Done (rgb565_row info y).
Proof.
  intros Hok Hy. pose proof Hok as (Hw & Hh & Hs & Hlen & _).
  unfold memcpy_pixels. rewrite bool_decide_false by lia.
  rewrite (for_int_emit 1 (capture_width info) _ []
             (λ x, pixel_bytes (pixel_at info (Z.of_nat x) (Z.of_nat y)))
             (Z.to_nat (capture_width info))); [done|lia|lia|lia|].
  intros x out Hx.
  replace (Z.of_nat y * capture_stride info + Z.of_nat x * 1)
    with (Z.of_nat y * capture_stride info + Z.of_nat x) by lia.
  by rewrite load_pixel by (done || lia).
Qed.

Lemma emit_rgb565_blocks (info : capture_info) :
  frame_ok info →
  emit_rgb565 info =
    Done (add_packet_length (2 * capture_width info * capture_height info)
          ++ blocks (rgb565_row info) (Z.to_nat (capture_height info))).
Proof.
  intros Hok. pose proof Hok as (Hw & Hh & Hs & Hlen & _).
  unfold emit_rgb565.
  set (out0 := add_packet_length _).
  rewrite (for_int_emit_at 1 (capture_height info) _ 0 (capture_stride info) out0
             (rgb565_row info) (Z.to_nat (capture_height info))); [done|lia|lia|lia|].
  intros y out Hy.
  replace (0 + Z.of_nat y * capture_stride info)
    with (Z.of_nat y * capture_stride info) by lia.
  rewrite memcpy_pixels_row by done.
  cbn [mbind result_bind mret result_ret]. do 2 f_equal. lia.
Qed.

Lemma lookup_rgb565 (info : capture_info) (x y j : nat) :
  (x < Z.to_nat (capture_width info))%nat →
  (y < Z.to_nat (capture_height info))%nat →
  (j < 2)%nat →
  blocks (rgb565_row info) (Z.to_nat (capture_height info))
    !! (2 * (y * Z.to_nat (capture_width info) + x) + j)%nat
  = pixel_bytes (pixel_at info (Z.of_nat x) (Z.of_nat y)) !! j.
Proof.
  intros Hx Hy Hj.
  replace (2 * (y * Z.to_nat (capture_width info) + x) + j)%nat
    with (y * (Z.to_nat (capture_width info) * 2) + (x * 2 + j))%nat by lia.
  rewrite (lookup_blocks _ (Z.to_nat (capture_width info) * 2));
    [|intros; apply length_rgb565_row|done|lia].
  unfold rgb565_row. by rewrite (lookup_blocks _ 2).
Qed.

(** X1.  [emit_rgb565] writes the length field of [2 * width * height] and
    then two bytes per pixel, row after row and within a row pixel after
    pixel, only pixels of columns below [width] (the stride padding is
    skipped): the low byte of the pixel, then its high byte, so that
    [lo + 256 * hi] is the pixel. *)
Theorem emit_rgb565_spec (info : capture_info) :
  frame_ok info →
  ∃ payload,
    emit_rgb565 info
      = Done (add_packet_length (2 * capture_width info * capture_height info) ++ payload) ∧
    Z.of_nat (length payload) = 2 * capture_width info * capture_height info ∧
    ∀ x y, 0 <= x < capture_width info → 0 <= y < capture_height info →
      ∃ lo hi,
        payload !! Z.to_nat (2 * (y * capture_width info + x)) = Some lo ∧
        payload !! Z.to_nat (2 * (y * capture_width info + x) + 1) = Some hi ∧
        0 <= lo < 256 ∧ 0 <= hi < 256 ∧
        lo + 256 * hi = pixel_at info x y.
Proof.
  intros Hok. pose proof Hok as (Hw & Hh & _).
  exists (blocks (rgb565_row info) (Z.to_nat (capture_height info))).
  split_and!.
  - by apply emit_rgb565_blocks.
  - rewrite (length_blocks _ (Z.to_nat (capture_width info) * 2))
      by (intros; apply length_rgb565_row). nia.
  - intros x y Hx Hy.
    pose proof (pixel_at_u16 info x y Hok) as Hp.
    pose proof (pixel_bytes_u16 _ Hp) as Hbytes.
    assert (Hidx : ∀ j, 0 <= j < 2 →
              blocks (rgb565_row info) (Z.to_nat (capture_height info))
                !! Z.to_nat (2 * (y * capture_width info + x) + j)
              = pixel_bytes (pixel_at info x y) !! Z.to_nat j).
    { intros j Hj.
      replace (Z.to_nat (2 * (y * capture_width info + x) + j))
        with (2 * (Z.to_nat y * Z.to_nat (capture_width info) + Z.to_nat x)
              + Z.to_nat j)%nat by nia.
      rewrite lookup_rgb565 by lia. by rewrite !Z2Nat.id by lia. }
    exists (pixel_at info x y `mod` 256), (pixel_at info x y `div` 256).
    unfold is_u16 in Hp. split_and!.
    + rewrite <- (Z.add_0_r (2 * _)). rewrite (Hidx 0) by lia. by rewrite Hbytes.
    + rewrite (Hidx 1) by lia. by rewrite Hbytes.
    + dlia.
    + dlia.
    + dlia.
    + dlia.
    + dlia.
Qed.

Lemma emit_rgb565_spec_witness :
  let info := mk_capture_info [] 0 0 0 2 2 3 [0xf800; 0x07e0; 0; 0x001f; 0xffff; 0] []
                [] 0 0 3 96 6144 0 in
  ∃ payload,
    emit_rgb565 info
      = Done (add_packet_length (2 * capture_width info * capture_height info) ++ payload) ∧
    Z.of_nat (length payload) = 2 * capture_width info * capture_height info ∧
    ∀ x y, 0 <= x < capture_width info → 0 <= y < capture_height info →
      ∃ lo hi,
        payload !! Z.to_nat (2 * (y * capture_width info + x)) = Some lo ∧
        payload !! Z.to_nat (2 * (y * capture_width info + x) + 1) = Some hi ∧
        0 <= lo < 256 ∧ 0 <= hi < 256 ∧
        lo + 256 * hi = pixel_at info x y.
Proof.
  intros info. apply (emit_rgb565_spec info).
  split_and!; [by vm_compute|by vm_compute|by vm_compute|reflexivity|].
  repeat (constructor; [by vm_compute|]). constructor.
Defined.

(** ** RGB24 is lossless *)

(** X2.  The three bytes [emit_rgb24] writes for a pixel determine the
    pixel: the first is a multiple of 8 up to 248, the second a multiple of
    4 up to 252, the third a multiple of 8 up to 248 (a channel never
    reaches 255), and [(r / 8) * 2048 + (g / 4) * 32 + b / 8] is the
    pixel. *)
Theorem emit_rgb24_lossless (info : capture_info) :
  frame_ok info →
  ∃ payload,
    emit_rgb24 info
      = Done (add_packet_length (3 * capture_width info * capture_height info) ++ payload) ∧
    ∀ x y, 0 <= x < capture_width info → 0 <= y < capture_height info →
      ∃ r g b,
        payload !! Z.to_nat (3 * (y * capture_width info + x)) = Some r ∧
        payload !! Z.to_nat (3 * (y * capture_width info + x) + 1) = Some g ∧
        payload !! Z.to_nat (3 * (y * capture_width info + x) + 2) = Some b ∧
        r `mod` 8 = 0 ∧ g `mod` 4 = 0 ∧ b `mod` 8 = 0 ∧
        0 <= r <= 248 ∧ 0 <= g <= 252 ∧ 0 <= b <= 248 ∧
        (r `div` 8) * 2048 + (g `div` 4) * 32 + b `div` 8 = pixel_at info x y.
Proof.
  intros Hok. pose proof Hok as (Hw & Hh & _).
  exists (blocks (rgb24_row info) (Z.to_nat (capture_height info))).
  split; [by apply emit_rgb24_blocks|].
  intros x y Hx Hy.
  pose proof (pixel_at_u16 info x y Hok) as Hp.
  pose proof (rgb24_bytes_u16 _ Hp) as Hbytes.
  assert (Hidx : ∀ j, 0 <= j < 3 →
            blocks (rgb24_row info) (Z.to_nat (capture_height info))
              !! Z.to_nat (3 * (y * capture_width info + x) + j)
            = rgb24_bytes (pixel_at info x y) !! Z.to_nat j).
  { intros j Hj.
    replace (Z.to_nat (3 * (y * capture_width info + x) + j))
      with (3 * (Z.to_nat y * Z.to_nat (capture_width info) + Z.to_nat x)
            + Z.to_nat j)%nat by nia.
    rewrite lookup_rgb24 by lia. by rewrite !Z2Nat.id by lia. }
  set (p := pixel_at info x y) in *. unfold is_u16 in Hp.
  exists ((p ≫ 11) ≪ 3), ((Z.land (p ≫ 5) 0x3f) ≪ 2), ((Z.land p 0x1f) ≪ 3).
  split; [|split; [|split]].
  - rewrite <- (Z.add_0_r (3 * _)). rewrite (Hidx 0) by lia. by rewrite Hbytes.
  - rewrite (Hidx 1) by lia. by rewrite Hbytes.
  - rewrite (Hidx 2) by lia. by rewrite Hbytes.
  - change 0x3f with (Z.ones 6). change 0x1f with (Z.ones 5).
    rewrite !Z.land_ones by lia. shifts_to_div.
    split_and!; dlia.
Qed.

Lemma emit_rgb24_lossless_witness :
  let info := mk_capture_info [] 0 0 0 2 2 3 [0xf800; 0x07e0; 0; 0x001f; 0xffff; 0] []
                [] 0 0 3 96 6144 0 in
  ∃ payload,
    emit_rgb24 info
      = Done (add_packet_length (3 * capture_width info * capture_height info) ++ payload) ∧
    ∀ x y, 0 <= x < capture_width info → 0 <= y < capture_height info →
      ∃ r g b,
        payload !! Z.to_nat (3 * (y * capture_width info + x)) = Some r ∧
        payload !! Z.to_nat (3 * (y * capture_width info + x) + 1) = Some g ∧
        payload !! Z.to_nat (3 * (y * capture_width info + x) + 2) = Some b ∧
        r `mod` 8 = 0 ∧ g `mod` 4 = 0 ∧ b `mod` 8 = 0 ∧
        0 <= r <= 248 ∧ 0 <= g <= 252 ∧ 0 <= b <= 248 ∧
        (r `div` 8) * 2048 + (g `div` 4) * 32 + b `div` 8 = pixel_at info x y.
Proof.
  intros info. apply (emit_rgb24_lossless info).
  split_and!; [by vm_compute|by vm_compute|by vm_compute|reflexivity|].
  repeat (constructor; [by vm_compute|]). constructor.
Defined.

(** ** The column-major encoder and the dithered encoders, bit by bit *)

(** X3.  With dithering off and a height divisible by 8 (the width is
    free), [emit_mono_rotate_flip] writes the length field and then exactly
    [width * height / 8] bytes, column after column from the left and
    within a column from the top; the byte of group [g] of column [x] has
    in bit [i] the [to_1bpp] decision of the pixel in row [8 g + i] of that
    column.  It counts in [int] and needs no fuel. *)
Theorem emit_mono_rotate_flip_packing (dithering_apply : capture_info → list Z)
    (fuel : nat) (info : capture_info) :
  frame_ok info →
  capture_height info `mod` 8 = 0 →
  dithering info = DITHERING_NONE →
  ∃ payload,
    emit_mono_rotate_flip dithering_apply fuel info
      = Done (add_packet_length ((capture_width info * capture_height info) `div` 8)
              ++ payload) ∧
    Z.of_nat (length payload) = (capture_width info * capture_height info) `div` 8 ∧
    ∀ x g i,
      0 <= x < capture_width info → 0 <= g < capture_height info `div` 8 → 0 <= i < 8 →
      ∃ byte,
        payload !! Z.to_nat (x * (capture_height info `div` 8) + g) = Some byte ∧
        0 <= byte < 256 ∧
        Z.testbit byte i = bool_decide (to_1bpp info (pixel_at info x (8 * g + i)) = 1).
Proof.
  intros Hok Hh8 Hd. pose proof Hok as (Hw & Hh & _).
  exists (blocks (mono_column info) (Z.to_nat (capture_width info))).
  assert (Hquot : Z.quot (capture_width info * capture_height info) 8
                  = (capture_width info * capture_height info) `div` 8)
    by (apply quot8_div8; nia).
  split_and!.
  - rewrite <- Hquot. by apply emit_mono_rotate_flip_blocks.
  - unfold mono_column. rewrite length_blocks2.
    rewrite Nat2Z.inj_mul, !Z2Nat.id by dlia.
    dlia.
  - intros x g i Hx Hg Hi. exists (mono_column_byte info (Z.to_nat x) (Z.to_nat g)).
    split; [|split].
    + replace (Z.to_nat (x * (capture_height info `div` 8) + g))
        with (Z.to_nat x * Z.to_nat (capture_height info `div` 8) + Z.to_nat g)%nat by nia.
      unfold mono_column. apply lookup_blocks2; lia.
    + apply pack8_byte.
    + rewrite testbit_mono_column_byte by done. by rewrite !Z2Nat.id by lia.
Qed.

Lemma emit_mono_rotate_flip_packing_witness :
  let info := mk_capture_info [] 0 0 0 3 8 4
                [0; 1; 0; 9;  1; 1; 0; 9;  0; 0; 0; 9;  0x20; 0; 0; 9;
                 0; 0; 0; 9;  0x800; 0; 0; 9;  0; 0; 0xffff; 9;  7; 0; 0; 9] []
                [] 0 0 0 0 0 0 in
  ∃ payload,
    emit_mono_rotate_flip (λ _, []) 0 info
      = Done (add_packet_length ((capture_width info * capture_height info) `div` 8)
              ++ payload) ∧
    Z.of_nat (length payload) = (capture_width info * capture_height info) `div` 8 ∧
    ∀ x g i,
      0 <= x < capture_width info → 0 <= g < capture_height info `div` 8 → 0 <= i < 8 →
      ∃ byte,
        payload !! Z.to_nat (x * (capture_height info `div` 8) + g) = Some byte ∧
        0 <= byte < 256 ∧
        Z.testbit byte i = bool_decide (to_1bpp info (pixel_at info x (8 * g + i)) = 1).
Proof.
  intros info. apply (emit_mono_rotate_flip_packing (λ _, []) 0 info).
  - split_and!; [by vm_compute|by vm_compute|by vm_compute|reflexivity|].
    repeat (constructor; [by vm_compute|]). constructor.
  - reflexivity.
  - reflexivity.
Defined.

(** X4.  With dithering on and a width divisible by 8, [emit_mono] writes
    the length field and then exactly [width * height / 8] bytes; the byte
    of group [g] of row [y] has in bit [i] whether the entry of the dither
    buffer for pixel [8 g + i] of that row, as [dithering_apply] left it,
    is non-zero.  The dither buffer has [width] entries per row, no
    padding. *)
Theorem emit_mono_dither_packing (dithering_apply : capture_info → list Z)
    (info : capture_info) :
  0 <= capture_width info → 0 <= capture_height info →
  residual_ok info (dithering_apply info) →
  capture_width info `mod` 8 = 0 →
  dithering info ≠ DITHERING_NONE →
  ∃ payload,
    emit_mono dithering_apply info
      = Done (add_packet_length ((capture_width info * capture_height info) `div` 8)
              ++ payload) ∧
    Z.of_nat (length payload) = (capture_width info * capture_height info) `div` 8 ∧
    ∀ y g i,
      0 <= y < capture_height info → 0 <= g < capture_width info `div` 8 → 0 <= i < 8 →
      ∃ byte,
        payload !! Z.to_nat (y * (capture_width info `div` 8) + g) = Some byte ∧
        0 <= byte < 256 ∧
        Z.testbit byte i
          = bool_decide (residual_at (dithering_apply info) (capture_width info)
                           (8 * g + i) y ≠ 0).
Proof.
  intros Hw Hh Hres Hw8 Hd.
  exists (blocks (dither_row info (dithering_apply info)) (Z.to_nat (capture_height info))).
  assert (Hquot : Z.quot (capture_width info * capture_height info) 8
                  = (capture_width info * capture_height info) `div` 8)
    by (apply quot8_div8; nia).
  split_and!.
  - rewrite <- Hquot. by apply emit_mono_dither_blocks.
  - unfold dither_row. rewrite length_blocks2.
    rewrite Nat2Z.inj_mul, !Z2Nat.id by dlia.
    dlia.
  - intros y g i Hy Hg Hi.
    exists (dither_byte info (dithering_apply info) (Z.to_nat y) (Z.to_nat g)).
    split; [|split].
    + replace (Z.to_nat (y * (capture_width info `div` 8) + g))
        with (Z.to_nat y * Z.to_nat (capture_width info `div` 8) + Z.to_nat g)%nat by nia.
      unfold dither_row. apply lookup_blocks2; lia.
    + apply pack8_byte.
    + rewrite testbit_dither_byte by done. by rewrite !Z2Nat.id by lia.
Qed.

Lemma emit_mono_dither_packing_witness :
  let info := mk_capture_info [] 0 0 0 8 2 8 (replicate 16 0) (replicate 16 0)
                [] 0 0 3 192 6144 1 in
  let dithering_apply := λ _ : capture_info,
    [0; 255; 0; 0; -255; 0; 0; 1;  0; 0; 0; 0; 0; 0; 0; 255] in
  ∃ payload,
    emit_mono dithering_apply info
      = Done (add_packet_length ((capture_width info * capture_height info) `div` 8)
              ++ payload) ∧
    Z.of_nat (length payload) = (capture_width info * capture_height info) `div` 8 ∧
    ∀ y g i,
      0 <= y < capture_height info → 0 <= g < capture_width info `div` 8 → 0 <= i < 8 →
      ∃ byte,
        payload !! Z.to_nat (y * (capture_width info `div` 8) + g) = Some byte ∧
        0 <= byte < 256 ∧
        Z.testbit byte i
          = bool_decide (residual_at (dithering_apply info) (capture_width info)
                           (8 * g + i) y ≠ 0).
Proof.
  intros info dithering_apply. apply (emit_mono_dither_packing dithering_apply info).
  - by vm_compute.
  - by vm_compute.
  - split; [reflexivity|]. repeat (constructor; [lia|]). constructor.
  - reflexivity.
  - by vm_compute.
Defined.

(** X5.  With dithering on, a height divisible by 8 and both dimensions
    within the 16-bit loop counters, [emit_mono_rotate_flip] comes to an
    end once the fuel covers its [width] columns and [height / 8] groups,
    and writes the length field and then exactly [width * height / 8]
    bytes; the byte of group [g] of column [x] has in bit [i] whether the
    entry of the dither buffer for the pixel in row [8 g + i] of that
    column is non-zero.  Reading the signed residuals through a
    [uint16_t] pointer does not change which are zero. *)
Theorem emit_mono_rotate_flip_dither_packing (dithering_apply : capture_info → list Z)
    (fuel : nat) (info : capture_info) :
  0 <= capture_width info → 0 <= capture_height info →
  residual_ok info (dithering_apply info) →
  capture_height info `mod` 8 = 0 →
  dithering info ≠ DITHERING_NONE →
  capture_width info <= 65535 → capture_height info <= 65535 →
  (Z.to_nat (capture_width info) <= fuel)%nat →
  (Z.to_nat (capture_height info `div` 8) <= fuel)%nat →
  ∃ payload,
    emit_mono_rotate_flip dithering_apply fuel info
      = Done (add_packet_length ((capture_width info * capture_height info) `div` 8)
              ++ payload) ∧
    Z.of_nat (length payload) = (capture_width info * capture_height info) `div` 8 ∧
    ∀ x g i,
      0 <= x < capture_width info → 0 <= g < capture_height info `div` 8 → 0 <= i < 8 →
      ∃ byte,
        payload !! Z.to_nat (x * (capture_height info `div` 8) + g) = Some byte ∧
        0 <= byte < 256 ∧
        Z.testbit byte i
          = bool_decide (residual_at (dithering_apply info) (capture_width info)
                           x (8 * g + i) ≠ 0).
Proof.
  intros Hw Hh Hres Hh8 Hd Hwmax Hhmax Hfw Hfh.
  exists (blocks (dither_column info (dithering_apply info)) (Z.to_nat (capture_width info))).
  assert (Hquot : Z.quot (capture_width info * capture_height info) 8
                  = (capture_width info * capture_height info) `div` 8)
    by (apply quot8_div8; nia).
  split_and!.
  - rewrite <- Hquot. by apply emit_mono_rotate_flip_dither_blocks.
  - unfold dither_column. rewrite length_blocks2.
    rewrite Nat2Z.inj_mul, !Z2Nat.id by dlia.
    dlia.
  - intros x g i Hx Hg Hi.
    exists (dither_column_byte info (dithering_apply info) (Z.to_nat x) (Z.to_nat g)).
    split; [|split].
    + replace (Z.to_nat (x * (capture_height info `div` 8) + g))
        with (Z.to_nat x * Z.to_nat (capture_height info `div` 8) + Z.to_nat g)%nat by nia.
      unfold dither_column. apply lookup_blocks2; lia.
    + apply pack8_byte.
    + rewrite testbit_dither_column_byte by done. by rewrite !Z2Nat.id by lia.
Qed.

Lemma emit_mono_rotate_flip_dither_packing_witness :
  let info := mk_capture_info [] 0 0 0 2 8 2 (replicate 16 0) (replicate 16 0)
                [] 0 0 3 192 6144 1 in
  let dithering_apply := λ _ : capture_info,
    [0; 255;  0; 0;  -255; 0;  0; 1;  0; 0;  0; 0;  0; -1;  255; 255] in
  ∃ payload,
    emit_mono_rotate_flip dithering_apply 2 info
      = Done (add_packet_length ((capture_width info * capture_height info) `div` 8)
              ++ payload) ∧
    Z.of_nat (length payload) = (capture_width info * capture_height info) `div` 8 ∧
    ∀ x g i,
      0 <= x < capture_width info → 0 <= g < capture_height info `div` 8 → 0 <= i < 8 →
      ∃ byte,
        payload !! Z.to_nat (x * (capture_height info `div` 8) + g) = Some byte ∧
        0 <= byte < 256 ∧
        Z.testbit byte i
          = bool_decide (residual_at (dithering_apply info) (capture_width info)
                           x (8 * g + i) ≠ 0).
Proof.
  intros info dithering_apply.
  apply (emit_mono_rotate_flip_dither_packing dithering_apply 2 info).
  - by vm_compute.
  - by vm_compute.
  - split; [reflexivity|]. repeat (constructor; [lia|]). constructor.
  - reflexivity.
  - by vm_compute.
  - by vm_compute.
  - by vm_compute.
  - vm_compute. lia.
  - vm_compute. lia.
Defined.

(** ** Sides that are not divisible by 8 *)

Lemma load_in_bounds (mem : list Z) (pos i : Z) :
  0 <= i < Z.of_nat (length mem) → pos = i →
  load mem pos = Done (default 0 (mem !! Z.to_nat i)).
Proof.
  intros Hi ->. unfold load. rewrite bool_decide_true by lia.
  destruct (lookup_lt_is_Some_2 mem (Z.to_nat i)) as [v ->]; [lia|done].
Qed.

Lemma load_past_end (mem : list Z) (i : Z) :
  Z.of_nat (length mem) <= i → load mem i = Fault.
Proof.
  intros Hi. unfold load. case_bool_decide; [|done].
  by rewrite lookup_ge_None_2 by lia.
Qed.

Lemma load_no_exit (mem : list Z) (i c : Z) : load mem i ≠ Exit c.
Proof. unfold load. case_bool_decide; [|done]. by destruct (mem !! _). Qed.

Lemma testbit_mono_byte_at (info : capture_info) (pos i : Z) :
  0 <= i < 8 →
  Z.testbit (mono_byte_at info pos) i
    = bool_decide (to_1bpp info (default 0 (buffer info !! Z.to_nat (pos + i))) = 1).
Proof.
  intros Hi. unfold mono_byte_at.
  rewrite testbit_pack8 by (apply to_1bpp_is_bit || done).
  by bit_cases i.
Qed.

(** X6.  [emit_mono] with dithering off, for any width: it writes one byte
    for every started group of 8 columns, [(width + 7) / 8] per row, and
    after a row it moves on by [stride - width], so that row [y] is read
    from [y * (stride + 8 * ((width + 7) / 8) - width)] on.  When the width
    is not divisible by 8 the last byte of a row takes in what is stored
    behind the row, every row starts later than the frame has it, and the
    payload is longer than the [width * height / 8] of the length field. *)
Theorem emit_mono_any_width (dithering_apply : capture_info → list Z)
    (info : capture_info) :
  let groups := (capture_width info + 7) `div` 8 in
  let pitch := capture_stride info + (8 * groups - capture_width info) in
  0 <= capture_width info → 0 <= capture_height info →
  capture_width info <= capture_stride info →
  dithering info = DITHERING_NONE →
  (0 < capture_width info → 0 < capture_height info →
     (capture_height info - 1) * pitch + 8 * groups <= Z.of_nat (length (buffer info))) →
  ∃ payload,
    emit_mono dithering_apply info
      = Done (add_packet_length ((capture_width info * capture_height info) `div` 8)
              ++ payload) ∧
    Z.of_nat (length payload) = capture_height info * groups ∧
    (∀ y g i,
       0 <= y < capture_height info → 0 <= g < groups → 0 <= i < 8 →
       ∃ byte,
         payload !! Z.to_nat (y * groups + g) = Some byte ∧
         0 <= byte < 256 ∧
         Z.testbit byte i
           = bool_decide (to_1bpp info (default 0 (buffer info
                                          !! Z.to_nat (y * pitch + 8 * g + i))) = 1)) ∧
    (capture_width info `mod` 8 ≠ 0 → 0 < capture_height info →
       (capture_width info * capture_height info) `div` 8 < capture_height info * groups).
Proof.
  intros groups pitch Hw Hh Hs Hd Hfit.
  assert (Hg0 : 0 <= groups) by (unfold groups; dlia).
  assert (Hg1 : capture_width info <= 8 * groups) by (unfold groups; dlia).
  assert (Hg2 : 8 * groups < capture_width info + 8) by (unfold groups; dlia).
  assert (Hp0 : 0 <= pitch) by (unfold pitch; lia).
  assert (Hpitch : pitch = capture_stride info + (8 * groups - capture_width info)) by done.
  clearbody pitch groups.
  set (byte y g := mono_byte_at info (Z.of_nat y * pitch + 8 * Z.of_nat g)).
  set (row y := blocks (λ g, [byte y g]) (Z.to_nat groups)).
  exists (blocks row (Z.to_nat (capture_height info))).
  assert (Hquot : Z.quot (capture_width info * capture_height info) 8
                  = (capture_width info * capture_height info) `div` 8)
    by (apply quot8_div8; nia).
  split_and!.
  - rewrite <- Hquot. unfold emit_mono. rewrite bool_decide_true by done.
    set (out0 := add_packet_length _).
    rewrite (for_int_emit_at 1 (capture_height info) _ 0 pitch out0
               row (Z.to_nat (capture_height info))); [done|lia|lia|lia|].
    intros y out Hy.
    rewrite (for_int_emit_at 8 (capture_width info) _
               (0 + Z.of_nat y * pitch) 8 out
               (λ g, [byte y g]) (Z.to_nat groups));
      [|lia|intros; lia|lia|].
    + cbn [mbind result_bind mret result_ret].
      apply (f_equal Done), (f_equal2 pair); [lia|reflexivity].
    + intros g out1 Hg.
      assert (Hrow : Z.of_nat y * pitch + 8 * groups <= Z.of_nat (length (buffer info))).
      { assert (Z.of_nat y * pitch <= (capture_height info - 1) * pitch) by nia.
        assert (0 < capture_width info) by lia.
        assert (0 < capture_height info) by lia.
        specialize (Hfit ltac:(lia) ltac:(lia)). lia. }
      assert (Hpos : 0 <= Z.of_nat y * pitch) by nia.
      set (pos := Z.of_nat y * pitch + 8 * Z.of_nat g).
      rewrite (load_in_bounds (buffer info) (0 + Z.of_nat y * pitch + Z.of_nat g * 8 + 0) (pos + 0))
        by (unfold pos; lia).
      cbn [mbind result_bind].
      rewrite (load_in_bounds (buffer info) (0 + Z.of_nat y * pitch + Z.of_nat g * 8 + 1) (pos + 1))
        by (unfold pos; lia).
      cbn [mbind result_bind].
      rewrite (load_in_bounds (buffer info) (0 + Z.of_nat y * pitch + Z.of_nat g * 8 + 2) (pos + 2))
        by (unfold pos; lia).
      cbn [mbind result_bind].
      rewrite (load_in_bounds (buffer info) (0 + Z.of_nat y * pitch + Z.of_nat g * 8 + 3) (pos + 3))
        by (unfold pos; lia).
      cbn [mbind result_bind].
      rewrite (load_in_bounds (buffer info) (0 + Z.of_nat y * pitch + Z.of_nat g * 8 + 4) (pos + 4))
        by (unfold pos; lia).
      cbn [mbind result_bind].
      rewrite (load_in_bounds (buffer info) (0 + Z.of_nat y * pitch + Z.of_nat g * 8 + 5) (pos + 5))
        by (unfold pos; lia).
      cbn [mbind result_bind].
      rewrite (load_in_bounds (buffer info) (0 + Z.of_nat y * pitch + Z.of_nat g * 8 + 6) (pos + 6))
        by (unfold pos; lia).
      cbn [mbind result_bind].
      rewrite (load_in_bounds (buffer info) (0 + Z.of_nat y * pitch + Z.of_nat g * 8 + 7) (pos + 7))
        by (unfold pos; lia).
      cbn [mbind result_bind mret result_ret].
      apply (f_equal Done), (f_equal2 pair); [lia|reflexivity].
  - unfold row. rewrite length_blocks2. nia.
  - intros y g i Hy Hg Hi. exists (byte (Z.to_nat y) (Z.to_nat g)).
    split; [|split].
    + replace (Z.to_nat (y * groups + g))
        with (Z.to_nat y * Z.to_nat groups + Z.to_nat g)%nat by nia.
      unfold row. apply lookup_blocks2; lia.
    + apply pack8_byte.
    + unfold byte. rewrite testbit_mono_byte_at by done.
      by rewrite !Z2Nat.id by lia.
  - intros Hrag Hpos. assert (capture_width info + 1 <= 8 * groups) by dlia.
    assert ((capture_width info * capture_height info) `div` 8 * 8
            <= capture_width info * capture_height info) by dlia.
    nia.
Qed.

Lemma emit_mono_any_width_witness :
  let info := mk_capture_info [] 0 0 0 4 2 12
                [0; 1; 0; 1;  9; 0; 9; 0;  0; 0; 0; 0;
                 1; 1; 1; 1;  0; 0; 0; 0;  0; 0; 0; 0] []
                [] 0 0 0 0 0 0 in
  let groups := (capture_width info + 7) `div` 8 in
  let pitch := capture_stride info + (8 * groups - capture_width info) in
  ∃ payload,
    emit_mono (λ _, []) info
      = Done (add_packet_length ((capture_width info * capture_height info) `div` 8)
              ++ payload) ∧
    Z.of_nat (length payload) = capture_height info * groups ∧
    (∀ y g i,
       0 <= y < capture_height info → 0 <= g < groups → 0 <= i < 8 →
       ∃ byte,
         payload !! Z.to_nat (y * groups + g) = Some byte ∧
         0 <= byte < 256 ∧
         Z.testbit byte i
           = bool_decide (to_1bpp info (default 0 (buffer info
                                          !! Z.to_nat (y * pitch + 8 * g + i))) = 1)) ∧
    (capture_width info `mod` 8 ≠ 0 → 0 < capture_height info →
       (capture_width info * capture_height info) `div` 8 < capture_height info * groups).
Proof.
  intros info. apply (emit_mono_any_width (λ _, []) info).
  - by vm_compute.
  - by vm_compute.
  - by vm_compute.
  - reflexivity.
  - intros _ _. by vm_compute.
Defined.

(** Width 4, height 2, stride 12: the length field says 1 byte, the payload
    has 2; the second byte is read from entry 16 on, not from the start of
    the second row at entry 12. *)
Example emit_mono_4x2 :
  emit_mono (λ _, [])
    (mk_capture_info [] 0 0 0 4 2 12
       [0; 1; 0; 1;  9; 0; 9; 0;  0; 0; 0; 0;
        1; 1; 1; 1;  0; 0; 0; 0;  0; 0; 0; 0] []
       [] 0 0 0 0 0 0)
  = Done [0; 0; 0; 1;  0x5a; 0].
Proof. reflexivity. Qed.

(** A loop whose iteration [m] reads outside its buffer. *)
Lemma for_loop_fault_from {S : Type} (step bound : Z) (body : Z → S → result S)
    (st : nat → S) (m : nat) :
  0 < step → Z.of_nat m * step < bound →
  (∀ k, (k < m)%nat → body (Z.of_nat k * step) (st k) = Done (st (Datatypes.S k))) →
  body (Z.of_nat m * step) (st m) = Fault →
  ∀ (d j fuel : nat), (j + d = m)%nat → (d < fuel)%nat →
    for_loop id fuel (Z.of_nat j * step) bound step body (st j) = Fault.
Proof.
  intros Hstep Hm Hbody Hfault. induction d as [|d IH]; intros j fuel Hj Hfuel.
  - replace j with m by lia. destruct fuel as [|fuel]; [lia|]. cbn [for_loop].
    rewrite bool_decide_true by lia. by rewrite Hfault.
  - destruct fuel as [|fuel]; [lia|]. cbn [for_loop].
    rewrite bool_decide_true by nia.
    rewrite Hbody by lia. cbn [mbind result_bind]. unfold id at 1.
    replace (Z.of_nat j * step + step) with (Z.of_nat (Datatypes.S j) * step) by lia.
    apply IH; lia.
Qed.

Lemma for_int_fault_at (step bound : Z) (body : Z → Z * list Z → result (Z * list Z))
    (pos0 dpos : Z) (out0 : list Z) (f : nat → list Z) (m : nat) :
  0 < step → Z.of_nat m * step < bound →
  (∀ k out, (k < m)%nat →
     body (Z.of_nat k * step) (pos0 + Z.of_nat k * dpos, out)
       = Done (pos0 + Z.of_nat (S k) * dpos, out ++ f k)) →
  (∀ out, body (Z.of_nat m * step) (pos0 + Z.of_nat m * dpos, out) = Fault) →
  for_int bound step body (pos0, out0) = Fault.
Proof.
  intros Hstep Hm Hbody Hfault. unfold for_int.
  set (st := λ k : nat, (pos0 + Z.of_nat k * dpos, out0 ++ blocks f k)).
  replace (pos0, out0) with (st 0%nat)
    by (unfold st; cbn; rewrite app_nil_r; f_equal; lia).
  assert (Hrun : ∀ k, (k < m)%nat →
            body (Z.of_nat k * step) (st k) = Done (st (Datatypes.S k))).
  { intros k Hk. unfold st. rewrite Hbody by done. by rewrite blocks_S, (assoc_L (++)). }
  assert (Hlt : (m < Z.to_nat bound)%nat) by nia.
  exact (for_loop_fault_from step bound body st m Hstep Hm Hrun (Hfault _)
           m 0%nat (Z.to_nat bound) eq_refl Hlt).
Qed.

(** X7.  With dithering off, a frame of at least one column and a height
    that is not divisible by 8: [emit_mono_rotate_flip] packs the last
    rows of a column together with rows below the frame, and reads outside
    the [stride * height] pixels allocated for the frame buffer. *)
Theorem emit_mono_rotate_flip_ragged_height (dithering_apply : capture_info → list Z)
    (fuel : nat) (info : capture_info) :
  frame_ok info →
  0 < capture_width info →
  capture_height info `mod` 8 ≠ 0 →
  dithering info = DITHERING_NONE →
  emit_mono_rotate_flip dithering_apply fuel info = Fault.
Proof.
  intros Hok Hw0 Hh8 Hd. pose proof Hok as (Hw & Hh & Hs & Hlen & _).
  unfold emit_mono_rotate_flip. rewrite bool_decide_true by done.
  set (out0 := add_packet_length _).
  rewrite (for_int_fault_at 1 (capture_width info) _ 0 1 out0 (λ _, []) 0);
    [done|lia|lia|intros; lia|].
  intros out.
  rewrite (for_int_fault_at 8 (capture_height info) _
             (0 + Z.of_nat 0 * 1) (8 * capture_stride info) out
             (λ g, [mono_column_byte info 0 g]) (Z.to_nat (capture_height info `div` 8)));
    [done|lia|dlia| |].
  - intros g out1 Hg.
    assert (8 * Z.of_nat g + 7 < capture_height info) by dlia.
    set (column := 0 + Z.of_nat 0 * 1 + Z.of_nat g * (8 * capture_stride info)).
    load_one (load_pixel_eq info) (λ _ : Z, column + 0)
      (λ _ : Z, Z.of_nat 0) (λ k : Z, 8 * Z.of_nat g + k) 0.
    load_one (load_pixel_eq info) (λ _ : Z, column + capture_stride info)
      (λ _ : Z, Z.of_nat 0) (λ k : Z, 8 * Z.of_nat g + k) 1.
    load_one (load_pixel_eq info) (λ k : Z, column + k * capture_stride info)
      (λ _ : Z, Z.of_nat 0) (λ k : Z, 8 * Z.of_nat g + k) 2.
    load_one (load_pixel_eq info) (λ k : Z, column + k * capture_stride info)
      (λ _ : Z, Z.of_nat 0) (λ k : Z, 8 * Z.of_nat g + k) 3.
    load_one (load_pixel_eq info) (λ k : Z, column + k * capture_stride info)
      (λ _ : Z, Z.of_nat 0) (λ k : Z, 8 * Z.of_nat g + k) 4.
    load_one (load_pixel_eq info) (λ k : Z, column + k * capture_stride info)
      (λ _ : Z, Z.of_nat 0) (λ k : Z, 8 * Z.of_nat g + k) 5.
    load_one (load_pixel_eq info) (λ k : Z, column + k * capture_stride info)
      (λ _ : Z, Z.of_nat 0) (λ k : Z, 8 * Z.of_nat g + k) 6.
    load_one (load_pixel_eq info) (λ k : Z, column + k * capture_stride info)
      (λ _ : Z, Z.of_nat 0) (λ k : Z, 8 * Z.of_nat g + k) 7.
    cbn [mret result_ret]. apply (f_equal Done), (f_equal2 pair); [unfold column; lia|reflexivity].
  - intros out1.
    set (column := 0 + Z.of_nat 0 * 1
                   + Z.of_nat (Z.to_nat (capture_height info `div` 8))
                     * (8 * capture_stride info)).
    assert (Hlast : Z.of_nat (length (buffer info)) <= column + 7 * capture_stride info).
    { unfold column. rewrite Z2Nat.id by dlia.
      assert (capture_height info <= capture_height info `div` 8 * 8 + 7) by dlia.
      nia. }
    repeat match goal with
    | |- context [load (buffer info) ?i ≫= _] =>
        let H := fresh "Hload" in
        destruct (load (buffer info) i) as [?| | |?] eqn:H; cbn [mbind result_bind];
        [ | reflexivity | by apply load_no_timeout in H | by apply load_no_exit in H ]
    end.
    match goal with
    | H : load (buffer info) (column + 7 * capture_stride info) = Done _ |- _ =>
        rewrite load_past_end in H by done; discriminate H
    end.
Qed.

Lemma emit_mono_rotate_flip_ragged_height_witness :
  emit_mono_rotate_flip (λ _, []) 0
    (mk_capture_info [] 0 0 0 1 4 1 [0; 1; 0; 1] [] [] 0 0 0 0 0 0) = Fault.
Proof.
  apply (emit_mono_rotate_flip_ragged_height (λ _, []) 0
           (mk_capture_info [] 0 0 0 1 4 1 [0; 1; 0; 1] [] [] 0 0 0 0 0 0)).
  - split_and!; [by vm_compute|by vm_compute|by vm_compute|reflexivity|].
    repeat (constructor; [by vm_compute|]). constructor.
  - by vm_compute.
  - by vm_compute.
  - reflexivity.
Defined.

(** ** The parser on arbitrary input *)

Lemma switch_command_total (info : capture_info) (cmd : Z) :
  6 <= Z.of_nat (length (request_buffer info)) →
  ∃ info1 ev,
    switch_command info cmd = Done (info1, ev) ∧
    request_buffer info1 = request_buffer info ∧
    request_buffer_ix info1 = request_buffer_ix info ∧
    backend_view info1 = backend_view info ∧
    (send_snapshot info1 = send_snapshot info ∨ 1 <= send_snapshot info1 <= 5).
Proof.
  intros Hlen. unfold switch_command.
  rewrite (load_in_bounds (request_buffer info) 5 5) by lia.
  cbn [mbind result_bind].
  repeat case_bool_decide; eexists _, _; split_and!;
    (done || (left; done) || (right; cbn; lia)).
Qed.

(** One pass through the loop body, whatever the buffer holds: the process
    ends on a header that does not start with three zero bytes, the loop
    ends on a frame that is not complete, and otherwise the pass drops
    [len] bytes and touches nothing of the backend's. *)
Lemma parse_commands_cases (fuel : nat) (info : capture_info) (log : list dispatch) :
  5 <= request_buffer_ix info →
  request_buffer_ix info + 1 <= Z.of_nat (length (request_buffer info)) →
  let b k := default 0 (request_buffer info !! Z.to_nat k) in
  let len := u8 (4 + b 3) in
  (parse_commands (S fuel) info log = Exit EXIT_FAILURE ∧
   (b 0 ≠ 0 ∨ b 1 ≠ 0 ∨ b 2 ≠ 0)) ∨
  (parse_commands (S fuel) info log = Done (info, log) ∧
   request_buffer_ix info < len) ∨
  (len <= request_buffer_ix info ∧
   ∃ info2 ev,
     parse_commands (S fuel) info log = parse_commands fuel info2 (log ++ [ev]) ∧
     request_buffer_ix info2 = request_buffer_ix info - len ∧
     request_buffer info2
       = (if bool_decide (request_buffer_ix info - len > 0)
          then memmove_front (request_buffer info) len (request_buffer_ix info - len)
          else request_buffer info) ∧
     backend_view info2 = backend_view info ∧
     (send_snapshot info2 = send_snapshot info ∨ 1 <= send_snapshot info2 <= 5)).
Proof.
  intros H5 Hcap b len. subst len b. cbn beta. cbn [parse_commands].
  rewrite bool_decide_true by lia.
  rewrite (load_in_bounds (request_buffer info) 0 0) by lia. cbn [mbind result_bind].
  rewrite (load_in_bounds (request_buffer info) 1 1) by lia. cbn [mbind result_bind].
  rewrite (load_in_bounds (request_buffer info) 2 2) by lia. cbn [mbind result_bind].
  destruct (bool_decide (_ ≠ 0) || bool_decide (_ ≠ 0) || bool_decide (_ ≠ 0)) eqn:Hhead.
  { left. split; [done|].
    apply orb_true_iff in Hhead as [Hhead|Hhead];
      [apply orb_true_iff in Hhead as [Hhead|Hhead]|];
      apply bool_decide_eq_true in Hhead; auto. }
  clear Hhead. right.
  rewrite (load_in_bounds (request_buffer info) 3 3) by lia. cbn [mbind result_bind].
  case_bool_decide as Hlen; [left; split; [done|exact Hlen]|right].
  split; [lia|].
  rewrite (load_in_bounds (request_buffer info) 4 4) by lia. cbn [mbind result_bind].
  destruct (switch_command_total info (default 0 (request_buffer info !! Z.to_nat 4)))
    as (info1 & ev & Hsw & Hbuf & Hix & Hback & Hsnap); [lia|].
  rewrite Hsw. cbn [mbind result_bind].
  eexists _, ev. split; [reflexivity|].
  cbn [request_buffer request_buffer_ix store_request].
  rewrite Hix, Hbuf. split_and!; [done|done| |exact Hsnap].
  by rewrite <- Hback.
Qed.

Lemma length_memmove_front (buf : list Z) (len n : Z) :
  0 <= len → 0 <= n → n + len <= Z.of_nat (length buf) →
  length (memmove_front buf len n) = length buf.
Proof.
  intros Hlen Hn Hfit. unfold memmove_front.
  rewrite length_app, length_take, !length_drop. lia.
Qed.

Lemma length_store_at (buf : list Z) (ix : Z) (data : list Z) :
  0 <= ix → ix + Z.of_nat (length data) <= Z.of_nat (length buf) →
  length (store_at buf ix data) = length buf.
Proof.
  intros Hix Hfit. unfold store_at.
  rewrite !length_app, length_take, length_drop. lia.
Qed.

Lemma u8_range (z : Z) : 0 <= u8 z <= 255.
Proof. unfold u8. pose proof (Z.mod_pos_bound z 256). lia. Qed.

Lemma parse_commands_in_bounds (fuel : nat) :
  ∀ (info : capture_info) (log : list dispatch),
    0 <= request_buffer_ix info →
    request_buffer_ix info + 1 <= Z.of_nat (length (request_buffer info)) →
    parse_commands fuel info log ≠ Fault ∧
    ∀ info' log', parse_commands fuel info log = Done (info', log') →
      length (request_buffer info') = length (request_buffer info) ∧
      0 <= request_buffer_ix info' <= request_buffer_ix info ∧
      request_buffer_ix info' <= 254 ∧
      (request_buffer_ix info' < 5 ∨
       ∃ L, request_buffer info' !! 3%nat = Some L ∧ request_buffer_ix info' < u8 (4 + L)) ∧
      backend_view info' = backend_view info ∧
      (0 <= send_snapshot info <= 5 → 0 <= send_snapshot info' <= 5).
Proof.
  induction fuel as [|fuel IH]; intros info log Hix Hcap.
  - cbn. case_bool_decide; [done|]. split; [done|].
    intros info' log' [= <- <-]. split_and!; (done || lia || (left; lia)).
  - destruct (decide (request_buffer_ix info < 5)) as [Hshort|Hlong].
    { rewrite parse_commands_short by done. split; [done|].
      intros info' log' [= <- <-]. split_and!; (done || lia || (left; lia)). }
    destruct (parse_commands_cases fuel info log) as [[Hrun _]|[[Hrun Hlt]|(Hge & Hnext)]];
      [lia|lia| | |].
    + rewrite Hrun. done.
    + rewrite Hrun. split; [done|].
      intros info' log' [= <- <-].
      pose proof (u8_range (4 + default 0 (request_buffer info !! Z.to_nat 3))).
      split_and!; try (done || lia).
      right. destruct (lookup_lt_is_Some_2 (request_buffer info) 3) as [L HL]; [lia|].
      exists L. split; [done|].
      change (Z.to_nat 3) with 3%nat in Hlt. by rewrite HL in Hlt.
    + destruct Hnext as (info2 & ev & Hrun & Hix2 & Hbuf2 & Hback2 & Hsnap2).
      pose proof (u8_range (4 + default 0 (request_buffer info !! Z.to_nat 3))) as Hlen.
      set (len := u8 (4 + default 0 (request_buffer info !! Z.to_nat 3))) in *.
      assert (Hlen2 : length (request_buffer info2) = length (request_buffer info)).
      { rewrite Hbuf2. case_bool_decide; [|done].
        apply length_memmove_front; lia. }
      destruct (IH info2 (log ++ [ev])) as [Hnf Hdone]; [lia|lia|].
      rewrite Hrun. split; [done|].
      intros info' log' Hres.
      destruct (Hdone info' log' Hres) as (Hl & Hi & H254 & Hwait & Hback & Hsnap).
      split_and!; (done || lia || congruence).
Qed.

(** X8.  [handle_stdin] on any input, well formed or not: every read of
    the request buffer is inside the buffer and the buffer keeps its size;
    when the call returns, at most 254 bytes are pending and they are no
    complete frame (fewer than 5, or fewer than the [len] of their header),
    nothing of the backend's part of the session (geometry, name, pixel
    buffers) has changed, and the pending request is one of the codes 0 to
    5 when it was one before: [send_snapshot()] never gets to its
    [default] branch. *)
Theorem handle_stdin_in_bounds (MAX : Z) (fuel : nat) (info : capture_info)
    (input : option (list Z)) :
  Z.of_nat (length (request_buffer info)) = MAX →
  0 <= request_buffer_ix info <= MAX - 1 →
  handle_stdin MAX fuel info input ≠ Fault ∧
  ∀ info' log, handle_stdin MAX fuel info input = Done (info', log) →
    Z.of_nat (length (request_buffer info')) = MAX ∧
    0 <= request_buffer_ix info' <= MAX - 1 ∧
    request_buffer_ix info' <= 254 ∧
    (request_buffer_ix info' < 5 ∨
     ∃ L, request_buffer info' !! 3%nat = Some L ∧ request_buffer_ix info' < u8 (4 + L)) ∧
    backend_view info' = backend_view info ∧
    (0 <= send_snapshot info <= 5 → 0 <= send_snapshot info' <= 5).
Proof.
  intros Hmax Hix. unfold handle_stdin. destruct input as [avail|]; [|done].
  rewrite bool_decide_false by lia.
  set (data := take (Z.to_nat (MAX - request_buffer_ix info - 1)) avail).
  assert (Hdata : Z.of_nat (length data) <= MAX - request_buffer_ix info - 1).
  { unfold data. rewrite length_take. lia. }
  case_bool_decide as Hempty; [done|].
  set (info1 := store_request info _ _).
  assert (Hlen1 : length (request_buffer info1) = length (request_buffer info)).
  { unfold info1. cbn [request_buffer store_request]. apply length_store_at; lia. }
  destruct (parse_commands_in_bounds fuel info1 []) as [Hnf Hdone].
  { unfold info1. cbn [request_buffer_ix store_request]. lia. }
  { rewrite Hlen1. unfold info1. cbn [request_buffer_ix store_request]. lia. }
  split; [done|]. intros info' log Hres.
  destruct (Hdone info' log Hres) as (Hl & Hi & H254 & Hwait & Hback & Hsnap).
  unfold info1 in Hi. cbn [request_buffer_ix store_request] in Hi.
  split_and!; try (done || lia).
Qed.

Lemma handle_stdin_in_bounds_witness :
  let info := mk_capture_info [] 0 0 0 0 0 0 [] [] (replicate 8 0) 0 0 0 0 0 0 in
  let input := Some [0; 0; 0; 1; 7; 9; 9; 9; 9; 9] in
  handle_stdin 8 3 info input ≠ Fault ∧
  ∀ info' log, handle_stdin 8 3 info input = Done (info', log) →
    Z.of_nat (length (request_buffer info')) = 8 ∧
    0 <= request_buffer_ix info' <= 8 - 1 ∧
    request_buffer_ix info' <= 254 ∧
    (request_buffer_ix info' < 5 ∨
     ∃ L, request_buffer info' !! 3%nat = Some L ∧ request_buffer_ix info' < u8 (4 + L)) ∧
    backend_view info' = backend_view info ∧
    (0 <= send_snapshot info <= 5 → 0 <= send_snapshot info' <= 5).
Proof.
  intros info input. apply (handle_stdin_in_bounds 8 3 info input).
  - reflexivity.
  - by vm_compute.
Defined.

(** ** The end of the input *)

Lemma parse_commands_exit (fuel : nat) :
  ∀ (info : capture_info) (log : list dispatch) (c : Z),
    0 <= request_buffer_ix info →
    request_buffer_ix info + 1 <= Z.of_nat (length (request_buffer info)) →
    parse_commands fuel info log = Exit c → c = EXIT_FAILURE.
Proof.
  induction fuel as [|fuel IH]; intros info log c Hix Hcap Hrun.
  - cbn in Hrun. by case_bool_decide.
  - destruct (decide (request_buffer_ix info < 5)) as [Hshort|Hlong].
    { by rewrite parse_commands_short in Hrun by done. }
    destruct (parse_commands_cases fuel info log) as [[Hr _]|[[Hr _]|(Hge & Hnext)]];
      [lia|lia| | |].
    + rewrite Hr in Hrun. by injection Hrun.
    + by rewrite Hr in Hrun.
    + destruct Hnext as (info2 & ev & Hr & Hix2 & Hbuf2 & _).
      pose proof (u8_range (4 + default 0 (request_buffer info !! Z.to_nat 3))) as Hlen.
      rewrite Hr in Hrun. apply (IH info2 (log ++ [ev])); [lia| |done].
      rewrite Hbuf2. case_bool_decide; [|lia].
      rewrite length_memmove_front by lia. lia.
Qed.

(** X9.  [handle_stdin] takes a read of no bytes for the end of the input
    and ends the process with [EXIT_SUCCESS].  While the request buffer
    has room for one more byte besides the one it always keeps free, that
    happens exactly when no input is left.  Once [request_buffer_ix] has
    reached [MAX_REQUEST_BUFFER_SIZE - 1] the read asks for no bytes, and
    the process ends with [EXIT_SUCCESS] whatever input is waiting. *)
Theorem end_of_input (MAX : Z) (fuel : nat) (info : capture_info) (avail : list Z) :
  Z.of_nat (length (request_buffer info)) = MAX →
  0 <= request_buffer_ix info <= MAX - 1 →
  (request_buffer_ix info < MAX - 1 →
     (handle_stdin MAX fuel info (Some avail) = Exit EXIT_SUCCESS ↔ avail = [])) ∧
  (request_buffer_ix info = MAX - 1 →
     handle_stdin MAX fuel info (Some avail) = Exit EXIT_SUCCESS).
Proof.
  intros Hmax Hix. split.
  - intros Hroom. unfold handle_stdin. rewrite bool_decide_false by lia.
    destruct avail as [|a avail].
    + rewrite take_nil. cbn. done.
    + split; [|done].
      destruct (Z.to_nat (MAX - request_buffer_ix info - 1)) as [|n] eqn:Hn; [lia|].
      cbn [take length]. rewrite bool_decide_false by lia.
      intros Hrun. apply parse_commands_exit in Hrun; [done| |].
      * cbn [request_buffer_ix store_request]. lia.
      * cbn [request_buffer request_buffer_ix store_request].
        assert (Z.of_nat (length (take n avail)) <= Z.of_nat n)
          by (rewrite length_take; lia).
        rewrite length_store_at by (cbn [length]; lia). cbn [length]. lia.
  - intros Hfull. unfold handle_stdin. rewrite bool_decide_false by lia.
    replace (MAX - request_buffer_ix info - 1) with 0 by lia.
    rewrite take_0. cbn. done.
Qed.

Lemma end_of_input_witness :
  let info := mk_capture_info [] 0 0 0 0 0 0 [] []
                [0; 0; 0; 9; 1; 0; 0; 0] 7 0 0 0 0 0 in
  (request_buffer_ix info < 8 - 1 →
     (handle_stdin 8 3 info (Some [0; 0; 0; 1; 3]) = Exit EXIT_SUCCESS
      ↔ [0; 0; 0; 1; 3] = [])) ∧
  (request_buffer_ix info = 8 - 1 →
     handle_stdin 8 3 info (Some [0; 0; 0; 1; 3]) = Exit EXIT_SUCCESS).
Proof.
  intros info. apply (end_of_input 8 3 info [0; 0; 0; 1; 3]).
  - reflexivity.
  - by vm_compute.
Defined.

(** A pending frame that is longer than the request buffer fills it: the
    next call ends the process although input is waiting. *)
Example frame_longer_than_buffer :
  let info := mk_capture_info [] 0 0 0 0 0 0 [] [] (replicate 8 0) 0 0 0 0 0 0 in
  ∃ info',
    handle_stdin 8 3 info (Some [0; 0; 0; 9; 1; 0; 0; 0; 0; 0; 0; 0; 0]) = Done (info', []) ∧
    request_buffer_ix info' = 7 ∧
    handle_stdin 8 3 info' (Some [0; 0; 0; 0; 0; 0]) = Exit EXIT_SUCCESS.
Proof. eexists. split; [vm_compute; reflexivity|]. split; reflexivity. Qed.

(** ** Termination of the parser *)

Lemma parse_commands_advances (fuel : nat) :
  ∀ (info : capture_info) (log : list dispatch),
    0 <= request_buffer_ix info →
    request_buffer_ix info + 1 <= Z.of_nat (length (request_buffer info)) →
    Forall (λ b, 0 <= b < 256 ∧ b ≠ 252)
           (take (Z.to_nat (request_buffer_ix info)) (request_buffer info)) →
    request_buffer_ix info <= Z.of_nat fuel →
    parse_commands fuel info log ≠ Timeout ∧
    ∀ info' log', parse_commands fuel info log = Done (info', log') →
      Forall (λ b, 0 <= b < 256 ∧ b ≠ 252)
             (take (Z.to_nat (request_buffer_ix info')) (request_buffer info')).
Proof.
  induction fuel as [|fuel IH]; intros info log Hix Hcap Hbytes Hfuel.
  - rewrite parse_commands_short by lia. split; [done|]. by intros ? ? [= <- <-].
  - destruct (decide (request_buffer_ix info < 5)) as [Hshort|Hlong].
    { rewrite parse_commands_short by done. split; [done|]. by intros ? ? [= <- <-]. }
    destruct (parse_commands_cases fuel info log) as [[Hrun _]|[[Hrun _]|(Hge & Hnext)]];
      [lia|lia| | |].
    + rewrite Hrun. done.
    + rewrite Hrun. split; [done|]. by intros ? ? [= <- <-].
    + destruct Hnext as (info2 & ev & Hrun & Hix2 & Hbuf2 & _).
      pose proof (u8_range (4 + default 0 (request_buffer info !! Z.to_nat 3))) as Hlen.
      assert (Hpos : 0 < u8 (4 + default 0 (request_buffer info !! Z.to_nat 3))).
      { destruct (lookup_lt_is_Some_2 (request_buffer info) 3) as [L HL]; [lia|].
        change (Z.to_nat 3) with 3%nat in *. rewrite HL in *. cbn [default from_option] in *.
        unfold id in *.
        assert (HL' : take (Z.to_nat (request_buffer_ix info)) (request_buffer info)
                        !! 3%nat = Some L) by (rewrite lookup_take_lt by lia; done).
        pose proof (Forall_lookup_1 _ _ _ _ Hbytes HL') as [HLr HLn].
        unfold u8 in *. dlia. }
      set (len := u8 (4 + default 0 (request_buffer info !! Z.to_nat 3))) in *.
      rewrite Hrun. apply (IH info2 (log ++ [ev])); [lia| | |lia].
      * rewrite Hbuf2. case_bool_decide; [|lia].
        rewrite length_memmove_front by lia. lia.
      * rewrite Hbuf2, Hix2. case_bool_decide as Hmore.
        -- unfold memmove_front. rewrite take_app_le by (rewrite length_take, length_drop; lia).
           rewrite take_take, Nat.min_id.
           rewrite take_drop_commute. apply Forall_drop.
           replace (Z.to_nat len + Z.to_nat (request_buffer_ix info - len))%nat
             with (Z.to_nat (request_buffer_ix info)) by lia.
           done.
        -- replace (request_buffer_ix info - len) with 0 by lia. rewrite take_0. constructor.
Qed.

(** X10.  When no byte among the pending bytes and the bytes read is 252
    (the length byte that makes [len] wrap to 0), the parser loop comes to
    an end within as many passes as the request buffer has bytes: every
    pass drops at least one byte.  The condition holds again for what the
    call leaves pending. *)
Theorem handle_stdin_terminates (MAX : Z) (fuel : nat) (info : capture_info)
    (avail : list Z) :
  Z.of_nat (length (request_buffer info)) = MAX →
  0 <= request_buffer_ix info <= MAX - 1 →
  Forall (λ b, 0 <= b < 256 ∧ b ≠ 252)
         (take (Z.to_nat (request_buffer_ix info)) (request_buffer info)) →
  Forall (λ b, 0 <= b < 256 ∧ b ≠ 252) avail →
  MAX <= Z.of_nat fuel →
  handle_stdin MAX fuel info (Some avail) ≠ Timeout ∧
  ∀ info' log, handle_stdin MAX fuel info (Some avail) = Done (info', log) →
    Forall (λ b, 0 <= b < 256 ∧ b ≠ 252)
           (take (Z.to_nat (request_buffer_ix info')) (request_buffer info')).
Proof.
  intros Hmax Hix Hpending Havail Hfuel. unfold handle_stdin.
  rewrite bool_decide_false by lia.
  set (data := take (Z.to_nat (MAX - request_buffer_ix info - 1)) avail).
  assert (Hdata : Z.of_nat (length data) <= MAX - request_buffer_ix info - 1).
  { unfold data. rewrite length_take. lia. }
  case_bool_decide as Hempty; [done|].
  apply parse_commands_advances; cbn [request_buffer request_buffer_ix store_request].
  - lia.
  - rewrite length_store_at by lia. lia.
  - unfold store_at.
    rewrite (assoc_L (++)).
    rewrite take_app_le by (rewrite length_app, length_take; lia).
    rewrite take_ge by (rewrite length_app, length_take; lia).
    apply Forall_app. split; [done|]. unfold data. by apply Forall_take.
  - lia.
Qed.

Lemma handle_stdin_terminates_witness :
  let info := mk_capture_info [] 0 0 0 0 0 0 [] [] (replicate 8 0) 0 0 0 0 0 0 in
  let avail := [0; 0; 0; 0; 0; 0; 0; 0] in
  handle_stdin 8 8 info (Some avail) ≠ Timeout ∧
  ∀ info' log, handle_stdin 8 8 info (Some avail) = Done (info', log) →
    Forall (λ b, 0 <= b < 256 ∧ b ≠ 252)
           (take (Z.to_nat (request_buffer_ix info')) (request_buffer info')).
Proof.
  intros info avail. apply (handle_stdin_terminates 8 8 info avail).
  - reflexivity.
  - by vm_compute.
  - constructor.
  - repeat (constructor; [lia|]). constructor.
  - by vm_compute.
Defined.

(** ** Frames in front of other input *)

(** The loop on a buffer that starts with whole frames: every frame is
    dispatched in order and what follows them is parsed next, from the
    start of the buffer. *)
Lemma parse_commands_frames_then (fs : list frame) :
  ∀ (fuel : nat) (info : capture_info) (log : list dispatch) (rest stale : list Z),
    Forall well_formed fs →
    request_buffer info = (wires fs ++ rest) ++ stale →
    request_buffer_ix info = Z.of_nat (length (wires fs ++ rest)) →
    ∃ info' stale',
      parse_commands (length fs + fuel) info log
        = parse_commands fuel info' (log ++ (frame_dispatch <$> fs)) ∧
      session_view info' = session_view (foldl frame_effect info fs) ∧
      request_buffer info' = rest ++ stale' ∧
      request_buffer_ix info' = Z.of_nat (length rest) ∧
      length (request_buffer info') = length (request_buffer info).
Proof.
  induction fs as [|f fs IH]; intros fuel info log rest stale Hwf Hbuf Hix.
  - cbn in Hbuf, Hix. exists info, stale. rewrite app_nil_r. by split_and!.
  - inversion_clear Hwf as [|? ? Hf Hwf']. rename Hwf' into Hwf.
    cbn [length Nat.add].
    unfold wires in Hbuf, Hix. cbn [fmap list_fmap concat] in Hbuf, Hix.
    fold (wires fs) in Hbuf, Hix.
    assert (Hbuf' : request_buffer info = wire f ++ (wires fs ++ rest) ++ stale).
    { rewrite Hbuf. by rewrite <- !(assoc_L (++)). }
    assert (Hix' : request_buffer_ix info
                   = Z.of_nat (length (wire f)) + Z.of_nat (length (wires fs ++ rest))).
    { rewrite Hix. rewrite <- !(assoc_L (++)), (length_app (wire f)). lia. }
    pose proof (well_formed_len f Hf) as Hlen.
    pose proof (length_wire f) as Hlw.
    assert (1 <= frame_length_byte f) by (unfold frame_length_byte; lia).
    erewrite parse_commands_step; cycle 1.
    { rewrite Hbuf'. unfold wire. by rewrite <- !(assoc_L (++)). }
    { lia. }
    { lia. }
    destruct (switch_command_frame info f _ Hf Hbuf')
      as (info1 & -> & Hview & Hbuf1 & Hix1).
    cbn [mbind result_bind]. rewrite Hbuf1, Hix1, Hlen, Hix', Hbuf'.
    replace (Z.of_nat (length (wire f)) + Z.of_nat (length (wires fs ++ rest))
             - Z.of_nat (length (wire f)))
      with (Z.of_nat (length (wires fs ++ rest))) by lia.
    destruct (memmove_front_app (wire f) (wires fs ++ rest) stale)
      as (stale1 & Hmv & Hmvlen).
    set (buf1 := if bool_decide (Z.of_nat (length (wires fs ++ rest)) > 0)
                 then memmove_front (wire f ++ (wires fs ++ rest) ++ stale)
                        (Z.of_nat (length (wire f))) (Z.of_nat (length (wires fs ++ rest)))
                 else wire f ++ (wires fs ++ rest) ++ stale).
    assert (∃ stale2, buf1 = (wires fs ++ rest) ++ stale2 ∧
                      length buf1 = length (wire f ++ (wires fs ++ rest) ++ stale))
      as (stale2 & Hb1 & Hb1len).
    { unfold buf1. case_bool_decide as Hpos.
      - exists stale1. by rewrite Hmv.
      - assert (wires fs ++ rest = []) as ->
          by (apply length_zero_iff_nil; lia).
        eexists. split; done. }
    destruct (IH fuel (store_request info1 buf1 (Z.of_nat (length (wires fs ++ rest))))
                (log ++ [frame_dispatch f]) rest stale2)
      as (info' & stale' & Hrun & Hv' & Hb' & Hi' & Hl'); [done|done|done|].
    exists info', stale'. split_and!; try done.
    + rewrite Hrun. by rewrite fmap_cons, <- (assoc_L (++)).
    + rewrite Hv'. cbn [foldl]. apply foldl_frame_effect_view.
      by rewrite <- Hview.
    + rewrite Hl'. cbn [request_buffer store_request]. by rewrite Hb1len.
Qed.

(** X11.  A header with a non-zero byte among its first three ends the
    process with [EXIT_FAILURE] as soon as five bytes of it are in the
    buffer.  The frames in front of it in the same read are dispatched
    first, but the process ends inside [handle_stdin]: a snapshot they
    asked for is never written. *)
Theorem bad_header_exits (MAX : Z) (dithering_apply : capture_info → list Z)
    (capture : capture_info → list Z) (fuel : nat) (info : capture_info)
    (fs : list frame) (b0 b1 b2 b3 b4 : Z) (more : list Z)
    (reads : list (option (list Z))) :
  request_buffer_ix info = 0 →
  Z.of_nat (length (request_buffer info)) = MAX →
  Forall well_formed fs →
  b0 ≠ 0 ∨ b1 ≠ 0 ∨ b2 ≠ 0 →
  Z.of_nat (length (wires fs ++ b0 :: b1 :: b2 :: b3 :: b4 :: more)) <= MAX - 1 →
  (length fs < fuel)%nat →
  handle_stdin MAX fuel info (Some (wires fs ++ b0 :: b1 :: b2 :: b3 :: b4 :: more))
    = Exit EXIT_FAILURE ∧
  daemon_loop MAX dithering_apply capture fuel info
      (Some (wires fs ++ b0 :: b1 :: b2 :: b3 :: b4 :: more) :: reads)
    = ([], Exit EXIT_FAILURE).
Proof.
  intros Hix Hmax Hwf Hbad Hfit Hfuel.
  set (input := wires fs ++ b0 :: b1 :: b2 :: b3 :: b4 :: more) in *.
  assert (Hrun : handle_stdin MAX fuel info (Some input) = Exit EXIT_FAILURE).
  { unfold handle_stdin. rewrite Hix.
    rewrite bool_decide_false by lia.
    rewrite take_ge by lia.
    rewrite bool_decide_false
      by (unfold input; rewrite length_app; cbn [length]; lia).
    unfold store_at. change (Z.to_nat 0) with 0%nat. rewrite take_0.
    cbn [app Nat.add].
    replace fuel with (length fs + S (fuel - length fs - 1))%nat by lia.
    destruct (parse_commands_frames_then fs (S (fuel - length fs - 1))
                (store_request info (input ++ drop (length input) (request_buffer info))
                   (0 + Z.of_nat (length input)))
                [] (b0 :: b1 :: b2 :: b3 :: b4 :: more)
                (drop (length input) (request_buffer info)))
      as (info' & stale' & -> & _ & Hbuf' & Hix' & _); [done|done| |].
    { cbn [request_buffer_ix store_request]. unfold input. lia. }
    cbn [parse_commands]. rewrite Hix'. rewrite bool_decide_true by (cbn [length]; lia).
    rewrite Hbuf'. cbn [app].
    rewrite load_at_0, load_at_1, load_at_2. cbn [mbind result_bind].
    destruct Hbad as [Hb|[Hb|Hb]].
    - by rewrite (bool_decide_true (b0 ≠ 0)) by done.
    - rewrite (bool_decide_true (b1 ≠ 0)) by done. by rewrite orb_true_r.
    - rewrite (bool_decide_true (b2 ≠ 0)) by done. by rewrite orb_true_r. }
  split; [done|]. cbn [daemon_loop]. by rewrite Hrun.
Qed.

Lemma bad_header_exits_witness :
  let info := mk_capture_info [] 0 0 0 2 1 2 [0; 0] [] (replicate 256 0) 0 0 3 192 6144 0 in
  let input := wires [mk_frame 3 []] ++ [0; 1; 0; 1; 3] in
  handle_stdin 256 2 info (Some input) = Exit EXIT_FAILURE ∧
  daemon_loop 256 (λ _, []) (λ _, [7; 7]) 2 info [Some input; Some [0; 0; 0; 1; 3]]
    = ([], Exit EXIT_FAILURE).
Proof.
  intros info input.
  apply (bad_header_exits 256 (λ _, []) (λ _, [7; 7]) 2 info [mk_frame 3 []] 0 1 0 1 3 []).
  - reflexivity.
  - reflexivity.
  - constructor; [solve_well_formed|constructor].
  - right. left. discriminate.
  - by vm_compute.
  - cbn. lia.
Defined.

(** ** Which request is served *)

Lemma last_snapshot_fold (fs : list frame) :
  ∀ info, Forall (λ f, ¬ 1 <= frame_code f <= 5) fs →
    send_snapshot (foldl frame_effect info fs) = send_snapshot info.
Proof.
  induction fs as [|f fs IH]; intros info Hfs; [done|].
  inversion_clear Hfs as [|? ? Hf Hfs']. cbn [foldl]. rewrite IH by done.
  unfold frame_effect. rewrite bool_decide_false by done.
  by repeat case_bool_decide.
Qed.

(** X12.  Of the snapshot requests that one read brings, the last one
    is the one left pending when [handle_stdin] returns, whatever other
    commands come before, between or after them; and the thresholds and
    the dithering mode it is served with are those in force after all
    commands of the read, also the ones behind the request. *)
Theorem last_request_wins (MAX : Z) (fuel : nat) (info : capture_info)
    (before after : list frame) (request : frame) :
  request_buffer_ix info = 0 →
  Z.of_nat (length (request_buffer info)) = MAX →
  Forall well_formed (before ++ request :: after) →
  1 <= frame_code request <= 5 →
  Forall (λ f, ¬ 1 <= frame_code f <= 5) after →
  Z.of_nat (length (wires (before ++ request :: after))) <= MAX - 1 →
  (length (before ++ request :: after) < fuel)%nat →
  ∃ info',
    handle_stdin MAX fuel info (Some (wires (before ++ request :: after)))
      = Done (info', frame_dispatch <$> (before ++ request :: after)) ∧
    send_snapshot info' = frame_code request ∧
    session_view info' = session_view (foldl frame_effect info (before ++ request :: after)) ∧
    request_buffer_ix info' = 0.
Proof.
  intros Hix Hmax Hwf Hcode Hafter Hfit Hfuel.
  assert (Hbuf : request_buffer info = [] ++ request_buffer info) by done.
  assert (Hq : partial_frame []).
  { exists (mk_frame 1 []), (wire (mk_frame 1 [])).
    split_and!; [solve_well_formed|reflexivity|discriminate]. }
  destruct (handle_stdin_frames MAX fuel info [] (request_buffer info)
              (wires (before ++ request :: after)) (before ++ request :: after) [])
    as (info' & stale' & Hrun & Hview & _ & Hix' & _); try done.
  { unfold wires. rewrite fmap_app, concat_app. cbn [fmap list_fmap concat].
    unfold wire at 2. cbn [app]. by destruct (concat _). }
  { by rewrite app_nil_r. }
  exists info'. split_and!; try done.
  assert (Hsnap : send_snapshot info'
                  = send_snapshot (foldl frame_effect info (before ++ request :: after))).
  { unfold session_view in Hview. by injection Hview. }
  rewrite Hsnap, foldl_app. cbn [foldl]. rewrite last_snapshot_fold by done.
  unfold frame_effect. by rewrite bool_decide_true by done.
Qed.

Lemma last_request_wins_witness :
  let info := mk_capture_info [] 0 0 0 0 0 0 [] [] (replicate 256 0) 0 0 3 192 6144 0 in
  let fs := [mk_frame 3 []; mk_frame 6 [200]] ++ mk_frame 4 [] :: [mk_frame 7 [1]] in
  ∃ info',
    handle_stdin 256 5 info (Some (wires fs)) = Done (info', frame_dispatch <$> fs) ∧
    send_snapshot info' = frame_code (mk_frame 4 []) ∧
    session_view info' = session_view (foldl frame_effect info fs) ∧
    request_buffer_ix info' = 0.
Proof.
  intros info fs.
  apply (last_request_wins 256 5 info [mk_frame 3 []; mk_frame 6 [200]] [mk_frame 7 [1]]
           (mk_frame 4 [])).
  - reflexivity.
  - reflexivity.
  - do 4 (constructor; [solve_well_formed|]). constructor.
  - by vm_compute.
  - constructor; [cbn; lia|constructor].
  - by vm_compute.
  - cbn. lia.
Defined.

(** ** The daemon loop *)

Section DaemonProofs.
Variable MAX_REQUEST_BUFFER_SIZE : Z.
Variable dithering_apply : capture_info → list Z.
Variable capture_initialize : Z → Z → Z → capture_info → option capture_info.
Variable capture : capture_info → list Z.

Lemma send_snapshot_frame_one (fuel : nat) (info : capture_info) (written : list (list Z)) :
  send_snapshot_frame dithering_apply fuel info = Done written → (length written <= 1)%nat.
Proof.
  unfold send_snapshot_frame. intros Hrun.
  repeat case_bool_decide;
    try (apply bind_done in Hrun as (out & _ & [= <-]); cbn; lia).
  injection Hrun as <-. cbn. lia.
Qed.

Lemma daemon_loop_writes (fuel : nat) (reads : list (option (list Z))) :
  ∀ info,
    (length (daemon_loop MAX_REQUEST_BUFFER_SIZE dithering_apply capture fuel info reads).1
     <= length reads)%nat.
Proof.
  induction reads as [|input reads IH]; intros info; [done|].
  cbn [daemon_loop length].
  destruct (handle_stdin MAX_REQUEST_BUFFER_SIZE fuel info input) as [[info1 log]| | |c];
    cbn; try lia.
  case_bool_decide.
  - destruct (send_snapshot_frame _ _ _) as [written| | |c] eqn:Hsend; cbn; try lia.
    apply send_snapshot_frame_one in Hsend.
    match goal with
    | |- context [daemon_loop ?m ?d ?c ?f ?i reads] =>
        specialize (IH i); destruct (daemon_loop m d c f i reads) as [more r]
    end.
    cbn in *. rewrite length_app. lia.
  - specialize (IH info1). lia.
Qed.

Lemma daemon_loop_serves (fuel : nat) (reads : list (option (list Z))) :
  ∀ info info',
    reads ≠ [] →
    (daemon_loop MAX_REQUEST_BUFFER_SIZE dithering_apply capture fuel info reads).2
      = Done info' →
    send_snapshot info' = 0.
Proof.
  induction reads as [|input reads IH]; intros info info' Hne Hrun; [done|].
  cbn [daemon_loop] in Hrun.
  destruct (handle_stdin MAX_REQUEST_BUFFER_SIZE fuel info input) as [[info1 log]| | |c];
    try done.
  case_bool_decide as Hpending.
  - destruct (send_snapshot_frame _ _ _) as [written| | |c]; try done.
    match type of Hrun with
    | context [daemon_loop ?m ?d ?c ?f ?i reads] =>
        specialize (IH i info');
        destruct (daemon_loop m d c f i reads) as [more r] eqn:Hloop
    end.
    cbn [snd] in *. destruct reads as [|input' reads'].
    + cbn in Hloop. injection Hloop as _ <-. by injection Hrun as <-.
    + by apply IH.
  - destruct reads as [|input' reads'].
    + cbn in Hrun. injection Hrun as <-.
      by destruct (decide (send_snapshot info1 = 0)).
    + by apply (IH info1).
Qed.

(** X13.  The daemon answers a read with at most one frame: after [n]
    reads [main] has written the capability frame and at most [n] frames
    more, however many snapshot requests the reads held.  And no request
    stays pending from one read to the next: whenever the loop is back at
    [poll], [send_snapshot] is 0. *)
Theorem one_frame_per_read (fuel : nat) (device width height : Z) (info : capture_info)
    (reads : list (option (list Z))) :
  (length (daemon_loop MAX_REQUEST_BUFFER_SIZE dithering_apply capture fuel info reads).1
   <= length reads)%nat ∧
  (length (main MAX_REQUEST_BUFFER_SIZE dithering_apply capture_initialize capture
             fuel device width height reads).1
   <= 1 + length reads)%nat ∧
  (∀ info',
     reads ≠ [] →
     (daemon_loop MAX_REQUEST_BUFFER_SIZE dithering_apply capture fuel info reads).2
       = Done info' →
     send_snapshot info' = 0).
Proof.
  split_and!.
  - apply daemon_loop_writes.
  - unfold main. destruct (initialize _ _ _ _ _) as [info0|]; [|cbn; lia].
    destruct (emit_capture_info info0) as [frame| | |c]; cbn; try lia.
    pose proof (daemon_loop_writes fuel reads info0) as Hw.
    destruct (daemon_loop _ _ _ _ info0 reads) as [written r]. cbn in *. lia.
  - intros info'. apply daemon_loop_serves.
Qed.

(** X14.  [initialize] fails exactly when the backend fails, and [main]
    then ends with [EXIT_FAILURE] before it has written anything.  When it
    succeeds, the thresholds are those of the default 25, set after the
    backend has filled in its part: a pixel is on when its low five bits
    are above 3, its middle six bits above 6 or its high five bits above
    3.  The frame buffer has [capture_stride * capture_height] entries, the
    dither buffer [capture_width * capture_height], and the rest of the
    session is as the backend left it. *)
Theorem initialize_defaults (device width height : Z) :
  (initialize MAX_REQUEST_BUFFER_SIZE capture_initialize device width height = None ↔
   capture_initialize device width height (zeroed_info MAX_REQUEST_BUFFER_SIZE) = None) ∧
  (∀ fuel reads,
     initialize MAX_REQUEST_BUFFER_SIZE capture_initialize device width height = None →
     main MAX_REQUEST_BUFFER_SIZE dithering_apply capture_initialize capture
          fuel device width height reads
       = ([], Exit EXIT_FAILURE)) ∧
  ∀ info,
    initialize MAX_REQUEST_BUFFER_SIZE capture_initialize device width height = Some info →
    ∃ backend,
      capture_initialize device width height (zeroed_info MAX_REQUEST_BUFFER_SIZE)
        = Some backend ∧
      (mono_threshold_r5 info, mono_threshold_g6 info, mono_threshold_b5 info)
        = (3, 6 * 32, 3 * 2048) ∧
      (∀ rgb565, to_1bpp info rgb565 = 1 ↔
         rgb565 `mod` 32 > 3 ∨ (rgb565 `div` 32) `mod` 64 > 6 ∨
         (rgb565 `div` 2048) `mod` 32 > 3) ∧
      length (buffer info) = Z.to_nat (capture_stride info * capture_height info) ∧
      length (dithering_buffer info) = Z.to_nat (capture_width info * capture_height info) ∧
      (backend_name info, display_id info, display_width info, display_height info,
       capture_width info, capture_height info, capture_stride info)
        = (backend_name backend, display_id backend, display_width backend,
           display_height backend, capture_width backend, capture_height backend,
           capture_stride backend) ∧
      (request_buffer info, request_buffer_ix info, send_snapshot info, dithering info)
        = (request_buffer backend, request_buffer_ix backend, send_snapshot backend,
           dithering backend).
Proof.
  split; [|split].
  - unfold initialize. by destruct (capture_initialize _ _ _ _).
  - intros fuel reads Hnone. unfold main. by rewrite Hnone.
  - unfold initialize. intros info Hinit.
    destruct (capture_initialize _ _ _ _) as [backend|]; [|done].
    cbn in Hinit. injection Hinit as <-. exists backend.
    split_and!; try done.
    + intros p. rewrite to_1bpp_on. cbn [mono_threshold_r5 mono_threshold_g6
        mono_threshold_b5 store_buffers set_mono_threshold store_thresholds].
      rewrite land_001f, land_07e0, land_f800.
      change (u16 (u8 25 ≫ 3)) with 3. change (u16 ((u8 25 ≫ 2) ≪ 5)) with (6 * 32).
      change (u16 ((u8 25 ≫ 3) ≪ 11)) with (3 * 2048). lia.
    + cbn. by rewrite length_replicate.
    + cbn. by rewrite length_replicate.
Qed.

End DaemonProofs.

(** ** Thresholds by colour component *)

(** X15.  After [set_mono_threshold] with [t] (taken as a [uint8_t]), a
    pixel is on exactly when its low five bits are above [t / 8], its
    middle six bits above [t / 4] or its high five bits above [t / 8]:
    each component is compared with the threshold cut down to the
    component's width.  So a pixel with all bits clear is never on, and
    with [t] below 4 every other pixel is. *)
Theorem threshold_components (info : capture_info) (t rgb565 : Z) :
  (to_1bpp (set_mono_threshold info t) rgb565 = 1 ↔
     rgb565 `mod` 32 > (t `mod` 256) `div` 8 ∨
     (rgb565 `div` 32) `mod` 64 > (t `mod` 256) `div` 4 ∨
     (rgb565 `div` 2048) `mod` 32 > (t `mod` 256) `div` 8) ∧
  to_1bpp (set_mono_threshold info t) 0 = 0 ∧
  (t `mod` 256 < 4 →
     (to_1bpp (set_mono_threshold info t) rgb565 = 1 ↔ rgb565 `mod` 65536 ≠ 0)).
Proof.
  assert (Hfields := set_mono_threshold_fields info (t `mod` 256)).
  assert (Hsame : set_mono_threshold info (t `mod` 256) = set_mono_threshold info t).
  { unfold set_mono_threshold, u8. by rewrite Z.mod_mod by lia. }
  rewrite Hsame in Hfields.
  pose proof (Z.mod_pos_bound t 256 ltac:(lia)) as Ht.
  destruct Hfields as (Hr & Hg & Hb); [lia|].
  assert (Hon : ∀ p, to_1bpp (set_mono_threshold info t) p = 1 ↔
            p `mod` 32 > (t `mod` 256) `div` 8 ∨
            (p `div` 32) `mod` 64 > (t `mod` 256) `div` 4 ∨
            (p `div` 2048) `mod` 32 > (t `mod` 256) `div` 8).
  { intros p. rewrite to_1bpp_on, Hr, Hg, Hb, land_001f, land_07e0, land_f800.
    shifts_to_div. lia. }
  split_and!.
  - apply Hon.
  - destruct (to_1bpp_bit (set_mono_threshold info t) 0) as [H0|H1]; [done|].
    apply Hon in H1. exfalso. change (0 `mod` 32) with 0 in H1.
    change ((0 `div` 32) `mod` 64) with 0 in H1.
    change ((0 `div` 2048) `mod` 32) with 0 in H1. dlia.
  - intros Hlow. rewrite Hon.
    replace ((t `mod` 256) `div` 8) with 0 by dlia.
    replace ((t `mod` 256) `div` 4) with 0 by dlia.
    dlia.
Qed.

(** ** From a request to its answer *)

Lemma handle_stdin_backend (MAX : Z) (fuel : nat) (info info' : capture_info)
    (input : option (list Z)) (log : list dispatch) :
  Z.of_nat (length (request_buffer info)) = MAX →
  0 <= request_buffer_ix info <= MAX - 1 →
  handle_stdin MAX fuel info input = Done (info', log) →
  backend_view info' = backend_view info.
Proof.
  intros Hmax Hix. unfold handle_stdin. destruct input as [avail|]; [|done].
  rewrite bool_decide_false by lia.
  set (data := take (Z.to_nat (MAX - request_buffer_ix info - 1)) avail).
  assert (Hdata : Z.of_nat (length data) <= MAX - request_buffer_ix info - 1).
  { unfold data. rewrite length_take. lia. }
  case_bool_decide as Hempty; [done|].
  intros Hrun.
  eapply (parse_commands_in_bounds fuel) in Hrun as (_ & _ & _ & _ & Hback & _);
    cbn [request_buffer request_buffer_ix store_request].
  - exact Hback.
  - lia.
  - rewrite length_store_at by lia. lia.
Qed.

Section Answer.
Variable MAX_REQUEST_BUFFER_SIZE : Z.
Variable dithering_apply : capture_info → list Z.
Variable capture : capture_info → list Z.


End Answer.


(** ** The column-major encoder as a transposition *)

Lemma pixel_at_transpose (info : capture_info) (x y : Z) :
  0 <= x < capture_width info → 0 <= y < capture_height info →
  pixel_at (transpose info) y x = pixel_at info x y.
Proof.
  intros Hx Hy. unfold pixel_at at 1. cbn [buffer capture_stride transpose].
  replace (Z.to_nat (x * capture_height info + y))
    with (Z.to_nat x * Z.to_nat (capture_height info) + Z.to_nat y)%nat by nia.
  rewrite (lookup_blocks _ (Z.to_nat (capture_height info)));
    [|intros; by rewrite length_fmap, length_seq|lia|lia].
  rewrite list_lookup_fmap, lookup_seq_lt by lia. cbn.
  by rewrite !Z2Nat.id by lia.
Qed.

Lemma frame_ok_transpose (info : capture_info) : frame_ok info → frame_ok (transpose info).
Proof.
  intros Hok. pose proof Hok as (Hw & Hh & _).
  unfold frame_ok. cbn [capture_width capture_height capture_stride buffer transpose].
  split_and!; try lia.
  - rewrite (length_blocks _ (Z.to_nat (capture_height info)))
      by (intros; by rewrite length_fmap, length_seq). nia.
  - unfold blocks. apply Forall_concat, Forall_fmap, Forall_forall. intros x _.
    apply Forall_fmap, Forall_forall. intros y _. by apply pixel_at_u16.
Qed.

(** X17.  With dithering off and a height divisible by 8,
    [emit_mono_rotate_flip] writes exactly what [emit_mono] writes for the
    transposed frame, the frame of [height] columns and [width] rows whose
    pixel [(y, x)] is pixel [(x, y)] of the captured one. *)
Theorem rotate_flip_is_transpose (dithering_apply : capture_info → list Z) (fuel : nat)
    (info : capture_info) :
  frame_ok info →
  capture_height info `mod` 8 = 0 →
  dithering info = DITHERING_NONE →
  frame_ok (transpose info) ∧
  capture_width (transpose info) = capture_height info ∧
  capture_height (transpose info) = capture_width info ∧
  (∀ x y, 0 <= x < capture_width info → 0 <= y < capture_height info →
          pixel_at (transpose info) y x = pixel_at info x y) ∧
  emit_mono_rotate_flip dithering_apply fuel info
    = emit_mono dithering_apply (transpose info).
Proof.
  intros Hok Hh8 Hd. pose proof Hok as (Hw & Hh & _).
  split_and!; [by apply frame_ok_transpose|done|done|apply pixel_at_transpose|].
  rewrite emit_mono_rotate_flip_blocks by done.
  rewrite emit_mono_blocks by (done || by apply frame_ok_transpose).
  cbn [capture_width capture_height transpose].
  rewrite (Z.mul_comm (capture_height info)). do 2 f_equal.
  apply blocks_ext. intros x Hx. unfold mono_column, mono_row.
  cbn [capture_width transpose].
  apply blocks_ext. intros g Hg. unfold mono_column_byte, mono_byte.
  assert (Hgh : 8 * Z.of_nat g + 7 < capture_height info) by dlia.
  rewrite !(to_1bpp_thresholds info (transpose info)) by done.
  by rewrite !pixel_at_transpose by lia.
Qed.

Lemma rotate_flip_is_transpose_witness :
  let info := mk_capture_info [] 0 0 0 3 8 4
                [0; 1; 0; 9;  1; 1; 0; 9;  0; 0; 0; 9;  0x20; 0; 0; 9;
                 0; 0; 0; 9;  0x800; 0; 0; 9;  0; 0; 0xffff; 9;  7; 0; 0; 9] []
                [] 0 0 0 0 0 0 in
  frame_ok (transpose info) ∧
  capture_width (transpose info) = capture_height info ∧
  capture_height (transpose info) = capture_width info ∧
  (∀ x y, 0 <= x < capture_width info → 0 <= y < capture_height info →
          pixel_at (transpose info) y x = pixel_at info x y) ∧
  emit_mono_rotate_flip (λ _, []) 0 info = emit_mono (λ _, []) (transpose info).
Proof.
  intros info. apply (rotate_flip_is_transpose (λ _, []) 0 info).
  - split_and!; [by vm_compute|by vm_compute|by vm_compute|reflexivity|].
    repeat (constructor; [by vm_compute|]). constructor.
  - reflexivity.
  - reflexivity.
Defined.

(** ** Commands the switch does not know *)

Lemma ignored_fold (fs : list frame) :
  ∀ info, Forall (λ f, ¬ 1 <= frame_code f <= 7) fs →
    foldl frame_effect info fs = info ∧
    frame_dispatch <$> fs = (λ f, Ignored (frame_code f)) <$> fs.
Proof.
  induction fs as [|f fs IH]; intros info Hfs; [done|].
  inversion_clear Hfs as [|? ? Hf Hfs']. cbn [foldl fmap list_fmap].
  assert (Heff : frame_effect info f = info).
  { unfold frame_effect. repeat case_bool_decide; (done || lia). }
  assert (Hdis : frame_dispatch f = Ignored (frame_code f)).
  { unfold frame_dispatch. repeat case_bool_decide; (done || lia). }
  rewrite Heff, Hdis. destruct (IH info Hfs') as [-> Hmap]. split; [done|].
  f_equal. exact Hmap.
Qed.

(** X18.  Frames whose command code is none of 1 to 7 are consumed with
    all their argument bytes and change nothing: the pending request, the
    thresholds, the dithering mode and the backend's part of the session
    are as before, and no byte of them stays in the request buffer. *)
Theorem unknown_commands_ignored (MAX : Z) (fuel : nat) (info : capture_info)
    (fs : list frame) :
  request_buffer_ix info = 0 →
  Z.of_nat (length (request_buffer info)) = MAX →
  Forall well_formed fs →
  Forall (λ f, ¬ 1 <= frame_code f <= 7) fs →
  fs ≠ [] →
  Z.of_nat (length (wires fs)) <= MAX - 1 →
  (length fs < fuel)%nat →
  ∃ info',
    handle_stdin MAX fuel info (Some (wires fs))
      = Done (info', (λ f, Ignored (frame_code f)) <$> fs) ∧
    session_view info' = session_view info ∧
    backend_view info' = backend_view info ∧
    request_buffer_ix info' = 0.
Proof.
  intros Hix Hmax Hwf Hcodes Hne Hfit Hfuel.
  assert (Hbuf : request_buffer info = [] ++ request_buffer info) by done.
  assert (Hq : partial_frame []).
  { exists (mk_frame 1 []), (wire (mk_frame 1 [])).
    split_and!; [solve_well_formed|reflexivity|discriminate]. }
  destruct (handle_stdin_frames MAX fuel info [] (request_buffer info)
              (wires fs) fs [])
    as (info' & stale' & Hrun & Hview & _ & Hix' & _); try done.
  { destruct fs as [|f fs]; [done|]. unfold wires. cbn [fmap list_fmap concat].
    unfold wire at 1. by cbn [app]. }
  { by rewrite app_nil_r. }
  destruct (ignored_fold fs info Hcodes) as [Hfold Hmap].
  exists info'. split_and!.
  - by rewrite Hrun, Hmap.
  - by rewrite Hview, Hfold.
  - apply (handle_stdin_backend MAX fuel info info' _ _ Hmax ltac:(lia) Hrun).
  - done.
Qed.

Lemma unknown_commands_ignored_witness :
  let info := mk_capture_info [] 0 0 0 0 0 0 [] [] (replicate 256 0) 0 4 3 192 6144 1 in
  let fs := [mk_frame 0 []; mk_frame 9 [1; 2; 3]; mk_frame 255 [6]] in
  ∃ info',
    handle_stdin 256 4 info (Some (wires fs))
      = Done (info', (λ f, Ignored (frame_code f)) <$> fs) ∧
    session_view info' = session_view info ∧
    backend_view info' = backend_view info ∧
    request_buffer_ix info' = 0.
Proof.
  intros info fs. apply (unknown_commands_ignored 256 4 info fs).
  - reflexivity.
  - reflexivity.
  - do 3 (constructor; [solve_well_formed|]). constructor.
  - do 3 (constructor; [cbn; lia|]). constructor.
  - discriminate.
  - by vm_compute.
  - cbn. lia.
Defined.

(** ** Reads behind the buffers *)

Lemma load_done_bounds (mem : list Z) (i v : Z) :
  load mem i = Done v → 0 <= i < Z.of_nat (length mem).
Proof.
  unfold load. case_bool_decide as Hi; [|done].
  destruct (mem !! Z.to_nat i) eqn:Hv; [|done]. intros _.
  apply lookup_lt_Some in Hv. lia.
Qed.

(** The last iteration of a loop that is done. *)
Lemma for_loop_last {S : Type} (step bound : Z) (body : Z → S → result S)
    (I : nat → S → Prop) :
  0 < step →
  (∀ k t t', Z.of_nat k * step < bound → I k t →
             body (Z.of_nat k * step) t = Done t' → I (Datatypes.S k) t') →
  ∀ (fuel j : nat) (s s' : S),
    I j s → Z.of_nat j * step < bound →
    for_loop id fuel (Z.of_nat j * step) bound step body s = Done s' →
    ∃ n t, I n t ∧ Z.of_nat n * step < bound ∧ bound <= (Z.of_nat n + 1) * step ∧
           body (Z.of_nat n * step) t = Done s'.
Proof.
  intros Hstep Hbody. induction fuel as [|fuel IH]; intros j s s' HI Hlt Hrun.
  - cbn in Hrun. by rewrite bool_decide_true in Hrun by done.
  - cbn [for_loop] in Hrun. rewrite bool_decide_true in Hrun by done.
    destruct (body (Z.of_nat j * step) s) as [t1| | |] eqn:Hb; try done.
    cbn [mbind result_bind] in Hrun. unfold id at 1 in Hrun.
    replace (Z.of_nat j * step + step) with (Z.of_nat (Datatypes.S j) * step) in Hrun by lia.
    destruct (decide (Z.of_nat (Datatypes.S j) * step < bound)) as [Hmore|Hlast].
    + apply (IH (Datatypes.S j) t1 s'); [by eapply Hbody|done|done].
    + destruct fuel; cbn in Hrun; rewrite bool_decide_false in Hrun by done;
        injection Hrun as <-; exists j, s; split_and!; (done || lia).
Qed.

Lemma for_loop_no_exit {S : Type} (wrap : Z → Z) (step bound : Z) (body : Z → S → result S)
    (c : Z) :
  (∀ i s, body i s ≠ Exit c) →
  ∀ (fuel : nat) (i : Z) (s : S), for_loop wrap fuel i bound step body s ≠ Exit c.
Proof.
  intros Hbody. induction fuel as [|fuel IH]; intros i s.
  - cbn. by case_bool_decide.
  - cbn [for_loop]. case_bool_decide; [|done].
    destruct (body i s) as [s1| | |c'] eqn:Hb; try done.
    + cbn [mbind result_bind]. apply IH.
    + cbn. intros [= ->]. by apply Hbody in Hb.
Qed.

Lemma bind_no_exit {A B : Type} (r : result A) (f : A → result B) (c : Z) :
  r ≠ Exit c → (∀ a, f a ≠ Exit c) → r ≫= f ≠ Exit c.
Proof.
  intros Hr Hf. destruct r as [a| | |c']; cbn; [apply Hf|done|done|].
  intros [= ->]. by apply Hr.
Qed.

Ltac loads_no_exit :=
  repeat (apply bind_no_exit; [apply load_no_exit|intros ?]); done.

Lemma emit_mono_no_exit (dithering_apply : capture_info → list Z) (info : capture_info)
    (c : Z) :
  emit_mono dithering_apply info ≠ Exit c.
Proof.
  unfold emit_mono, for_int. case_bool_decide.
  - apply bind_no_exit; [|done].
    apply for_loop_no_exit. intros y [image out].
    apply bind_no_exit; [|by intros []].
    apply for_loop_no_exit. intros x [im o]. loads_no_exit.
  - apply bind_no_exit; [|done].
    apply for_loop_no_exit. intros y [image out].
    apply for_loop_no_exit. intros x [im o]. loads_no_exit.
Qed.

Section GroupLoops.
Variable mem : list Z.
Variable body : Z → Z * list Z → result (Z * list Z).
Hypothesis body_done :
  ∀ i p o p' o', body i (p, o) = Done (p', o') →
    p' = p + 8 ∧ p + 7 < Z.of_nat (length mem).

(** A row of groups that is done has read eight entries for every started
    group of 8 columns, all of them inside the buffer. *)
Lemma row_done (width p0 p1 : Z) (o o1 : list Z) :
  0 < width →
  for_int width 8 body (p0, o) = Done (p1, o1) →
  p1 = p0 + 8 * ((width + 7) `div` 8) ∧ p1 <= Z.of_nat (length mem).
Proof.
  intros Hw Hrun. unfold for_int in Hrun.
  destruct (for_loop_last 8 width body (λ k st, st.1 = p0 + 8 * Z.of_nat k) ltac:(lia))
    with (fuel := Z.to_nat width) (j := 0%nat) (s := (p0, o)) (s' := (p1, o1))
    as (n & [p o'] & HI & Hlt & Hge & Hb).
  - intros k [p o'] [p' o''] _ HI Hb. cbn [fst] in *.
    apply body_done in Hb as [-> _]. lia.
  - cbn. lia.
  - lia.
  - exact Hrun.
  - cbn [fst] in HI. apply body_done in Hb as [-> Hin]. subst p. dlia.
Qed.

End GroupLoops.

(** Whenever [emit_mono] is done, everything it has read was inside its
    buffer: the frame buffer up to the last group of the last row as the
    encoder places it, or the first [8 * groups * height] entries of the
    dither buffer. *)
Lemma emit_mono_done_bounds (dithering_apply : capture_info → list Z) (info : capture_info)
    (out : list Z) :
  0 < capture_width info → 0 < capture_height info →
  emit_mono dithering_apply info = Done out →
  let groups := (capture_width info + 7) `div` 8 in
  (dithering info = DITHERING_NONE →
     (capture_height info - 1)
       * (capture_stride info + (8 * groups - capture_width info)) + 8 * groups
     <= Z.of_nat (length (buffer info))) ∧
  (dithering info ≠ DITHERING_NONE →
     8 * groups * capture_height info <= Z.of_nat (length (dithering_apply info))).
Proof.
  intros Hw Hh Hrun groups. unfold emit_mono in Hrun. split; intros Hd.
  - rewrite bool_decide_true in Hrun by done.
    apply bind_done in Hrun as ([image o] & Hloop & _). unfold for_int at 1 in Hloop.
    set (pitch := capture_stride info + (8 * groups - capture_width info)).
    match type of Hloop with
    | for_loop id _ 0 _ 1 ?outer _ = _ =>
        match outer with
        | (λ y st, _ ← for_int _ 8 ?inner st; _) =>
            assert (Hinner : ∀ i p o p' o', inner i (p, o) = Done (p', o') →
                       p' = p + 8 ∧ p + 7 < Z.of_nat (length (buffer info)));
            [|destruct (for_loop_last 1 (capture_height info) outer
                          (λ k st, st.1 = Z.of_nat k * pitch) ltac:(lia))
                with (fuel := Z.to_nat (capture_height info)) (j := 0%nat)
                     (s := (0, add_packet_length
                                 (Z.quot (capture_width info * capture_height info) 8)))
                     (s' := (image, o))
                as (n & [p o'] & HI & Hlt & Hge & Hb)]
        end
    end.
    + intros i p o0 p' o' Hb. cbn beta iota in Hb.
      do 7 (apply bind_done in Hb as (? & _ & Hb)).
      apply bind_done in Hb as (p7 & Hload & Hb).
      apply load_done_bounds in Hload. injection Hb as <- _. lia.
    + intros k [p o'] [p' o''] _ HI Hb. cbn [fst] in *. cbn beta iota in Hb.
      apply bind_done in Hb as ([p1 o1] & Hrow & Hb). injection Hb as <- _.
      apply (row_done _ _ Hinner) in Hrow as [-> _]; [|done]. unfold pitch, groups. lia.
    + done.
    + lia.
    + exact Hloop.
    + cbn [fst] in HI. cbn beta iota in Hb.
      apply bind_done in Hb as ([p1 o1] & Hrow & _).
      apply (row_done _ _ Hinner) in Hrow as [-> Hin]; [|done].
      subst p. fold groups in Hin.
      replace (capture_height info - 1) with (Z.of_nat n) by lia. lia.
  - rewrite bool_decide_false in Hrun by done.
    apply bind_done in Hrun as ([image o] & Hloop & _). unfold for_int at 1 in Hloop.
    match type of Hloop with
    | for_loop id _ 0 _ 1 ?outer _ = _ =>
        match outer with
        | (λ y st, for_int _ 8 ?inner st) =>
            assert (Hinner : ∀ i p o p' o', inner i (p, o) = Done (p', o') →
                       p' = p + 8 ∧ p + 7 < Z.of_nat (length (dithering_apply info)));
            [|destruct (for_loop_last 1 (capture_height info) outer
                          (λ k st, st.1 = Z.of_nat k * (8 * groups)) ltac:(lia))
                with (fuel := Z.to_nat (capture_height info)) (j := 0%nat)
                     (s := (0, add_packet_length
                                 (Z.quot (capture_width info * capture_height info) 8)))
                     (s' := (image, o))
                as (n & [p o'] & HI & Hlt & Hge & Hb)]
        end
    end.
    + intros i p o0 p' o' Hb. cbn beta iota in Hb.
      do 7 (apply bind_done in Hb as (? & _ & Hb)).
      apply bind_done in Hb as (p7 & Hload & Hb).
      apply load_done_bounds in Hload. injection Hb as <- _. lia.
    + intros k [p o'] [p' o''] _ HI Hb. cbn [fst] in *. cbn beta in Hb.
      apply (row_done _ _ Hinner) in Hb as [-> _]; [|done]. unfold groups. lia.
    + done.
    + lia.
    + exact Hloop.
    + cbn [fst] in HI. cbn beta in Hb.
      apply (row_done _ _ Hinner) in Hb as [-> Hin]; [|done].
      subst p. fold groups in Hin.
      replace (capture_height info) with (Z.of_nat n + 1) by lia. lia.
Qed.

(** X19.  [emit_mono] on a frame whose width is not divisible by 8 reads
    outside its buffer: with dithering on always, since the dither buffer
    has [width * height] entries and the encoder reads 8 for every started
    group; with dithering off whenever the stride is below
    [width + height * (8 * ((width + 7) / 8) - width)], in particular on
    every frame stored without padding. *)
Theorem emit_mono_ragged_reads_outside (dithering_apply : capture_info → list Z)
    (info : capture_info) :
  frame_ok info →
  0 < capture_width info → 0 < capture_height info →
  capture_width info `mod` 8 ≠ 0 →
  (dithering info = DITHERING_NONE →
     capture_stride info
     < capture_width info
       + capture_height info * (8 * ((capture_width info + 7) `div` 8) - capture_width info)) →
  (dithering info ≠ DITHERING_NONE → residual_ok info (dithering_apply info)) →
  emit_mono dithering_apply info = Fault.
Proof.
  intros Hok Hw Hh Hrag Htight Hres. pose proof Hok as (_ & _ & Hs & Hlen & _).
  destruct (emit_mono dithering_apply info) as [out| | |c] eqn:Hrun.
  - exfalso. apply emit_mono_done_bounds in Hrun as [Hframe Hdither]; [|done|done].
    set (groups := (capture_width info + 7) `div` 8) in *.
    assert (Hg : capture_width info + 1 <= 8 * groups) by (unfold groups; dlia).
    destruct (decide (dithering info = DITHERING_NONE)) as [Hd|Hd].
    + specialize (Hframe Hd). specialize (Htight Hd). nia.
    + specialize (Hdither Hd). destruct (Hres Hd) as [Hrl _]. nia.
  - done.
  - by apply emit_mono_no_timeout in Hrun.
  - by apply emit_mono_no_exit in Hrun.
Qed.

Lemma emit_mono_ragged_reads_outside_witness :
  emit_mono (λ _, [])
    (mk_capture_info [] 0 0 0 4 2 4 [0; 1; 0; 1;  9; 0; 9; 0] [] [] 0 0 0 0 0 0) = Fault.
Proof.
  apply (emit_mono_ragged_reads_outside (λ _, [])
           (mk_capture_info [] 0 0 0 4 2 4 [0; 1; 0; 1;  9; 0; 9; 0] [] [] 0 0 0 0 0 0)).
  - split_and!; [by vm_compute|by vm_compute|by vm_compute|reflexivity|].
    repeat (constructor; [by vm_compute|]). constructor.
  - by vm_compute.
  - by vm_compute.
  - by vm_compute.
  - intros _. by vm_compute.
  - intros Hd. by exfalso.
Defined.

(** ** A length byte of 252, whatever the command *)

Lemma memmove_front_0 (buf : list Z) (n : Z) : memmove_front buf 0 n = buf.
Proof. unfold memmove_front. change (Z.to_nat 0) with 0%nat. by rewrite drop_0, take_drop. Qed.

Lemma parse_commands_252 (fuel : nat) :
  ∀ (info : capture_info) (log : list dispatch),
    request_buffer info !! 0%nat = Some 0 →
    request_buffer info !! 1%nat = Some 0 →
    request_buffer info !! 2%nat = Some 0 →
    request_buffer info !! 3%nat = Some 252 →
    5 <= request_buffer_ix info →
    request_buffer_ix info + 1 <= Z.of_nat (length (request_buffer info)) →
    parse_commands fuel info log = Timeout.
Proof.
  induction fuel as [|fuel IH]; intros info log H0 H1 H2 H3 H5 Hcap.
  - cbn. by rewrite bool_decide_true by lia.
  - destruct (parse_commands_cases fuel info log H5 Hcap)
      as [[_ Hbad]|[[_ Hlt]|(_ & info2 & ev & Hrun & Hix2 & Hbuf2 & _)]].
    + exfalso. change (Z.to_nat 0) with 0%nat in Hbad. change (Z.to_nat 1) with 1%nat in Hbad.
      change (Z.to_nat 2) with 2%nat in Hbad. rewrite H0, H1, H2 in Hbad. cbn in Hbad.
      by destruct Hbad as [?|[?|?]].
    + exfalso. change (Z.to_nat 3) with 3%nat in Hlt. rewrite H3 in Hlt.
      change (u8 (4 + default 0 (Some 252))) with 0 in Hlt. lia.
    + change (Z.to_nat 3) with 3%nat in Hix2, Hbuf2. rewrite H3 in Hix2, Hbuf2.
      change (u8 (4 + default 0 (Some 252))) with 0 in Hix2, Hbuf2.
      rewrite memmove_front_0 in Hbuf2.
      assert (Hsame : request_buffer info2 = request_buffer info)
        by (rewrite Hbuf2; by case_bool_decide).
      rewrite Hrun. apply IH; rewrite ?Hsame; (done || lia).
Qed.

(** X20.  A header with the length byte 252 stops the daemon for good:
    [len = 4 + 252] is 0 in a [uint8_t], the pass drops no byte, and the
    loop dispatches on the same five bytes forever, whatever the command
    code is and whatever follows.  No fuel is enough for [handle_stdin] to
    return, and nothing is written any more. *)
Theorem length_byte_252_hangs (MAX : Z) (dithering_apply : capture_info → list Z)
    (capture : capture_info → list Z) (fuel : nat) (info : capture_info)
    (cmd : Z) (more : list Z) (reads : list (option (list Z))) :
  request_buffer_ix info = 0 →
  Z.of_nat (length (request_buffer info)) = MAX →
  5 + Z.of_nat (length more) <= MAX - 1 →
  handle_stdin MAX fuel info (Some ([0; 0; 0; 252; cmd] ++ more)) = Timeout ∧
  daemon_loop MAX dithering_apply capture fuel info
      (Some ([0; 0; 0; 252; cmd] ++ more) :: reads)
    = ([], Timeout).
Proof.
  intros Hix Hmax Hfit.
  assert (Hrun : handle_stdin MAX fuel info (Some ([0; 0; 0; 252; cmd] ++ more)) = Timeout).
  { unfold handle_stdin. rewrite Hix. rewrite bool_decide_false by lia.
    rewrite take_ge by (cbn [length app]; lia).
    rewrite bool_decide_false by (cbn [length app]; lia).
    apply parse_commands_252; cbn [request_buffer request_buffer_ix store_request];
      try done.
    - cbn [length app]. lia.
    - rewrite length_store_at by (cbn [length app]; lia). cbn [length app]. lia. }
  split; [done|]. cbn [daemon_loop]. by rewrite Hrun.
Qed.

Lemma length_byte_252_hangs_witness :
  let info := mk_capture_info [] 0 0 0 2 1 2 [0; 0] [] (replicate 256 0) 0 0 3 192 6144 0 in
  handle_stdin 256 1000 info (Some ([0; 0; 0; 252; 3] ++ [0; 0; 0; 1; 3])) = Timeout ∧
  daemon_loop 256 (λ _, []) (λ _, [7; 7]) 1000 info
      (Some ([0; 0; 0; 252; 3] ++ [0; 0; 0; 1; 3]) :: [Some [0; 0; 0; 1; 3]])
    = ([], Timeout).
Proof.
  intros info.
  apply (length_byte_252_hangs 256 (λ _, []) (λ _, [7; 7]) 1000 info 3 [0; 0; 0; 1; 3]).
  - reflexivity.
  - reflexivity.
  - by vm_compute.
Defined.

(** ** The capability frame in a small work buffer *)

(** X21.  The capability frame takes 40 bytes of the work buffer whatever
    the capture size, and [initialize] asks for
    [capture_width * capture_height * 4] bytes.  While that size is formed
    without overflow, from 0 to [INT_MAX], the frame fits the buffer exactly
    when the capture has at least 10 pixels. *)
Theorem capability_frame_needs_ten_pixels (info : capture_info) :
  length (backend_name info) = 16%nat →
  0 <= capture_width info * capture_height info * 4 <= INT_MAX →
  ∃ out,
    emit_capture_info info = Done out ∧
    Z.of_nat (length out) = 40 ∧
    (Z.of_nat (length out) <= work_capacity info ↔
     10 <= capture_width info * capture_height info).
Proof.
  intros Hname Hsize. eexists. split; [by apply emit_capture_info_frame|].
  assert (Hlen : Z.of_nat (length ([0; 0; 0; 36] ++ backend_name info
            ++ native32 (display_id info) ++ native32 (display_width info)
            ++ native32 (display_height info) ++ native32 (capture_width info)
            ++ native32 (capture_height info))) = 40).
  { rewrite !length_app, Hname, !length_native32. done. }
  split; [exact Hlen|]. rewrite Hlen.
  unfold work_capacity, u32, INT_MAX in *. rewrite Z.mod_small by lia. lia.
Qed.

Lemma capability_frame_needs_ten_pixels_witness :
  let info := mk_capture_info (replicate 16 0) 0 3 3 3 3 3 (replicate 9 0) (replicate 9 0)
                [] 0 0 3 192 6144 0 in
  ∃ out,
    emit_capture_info info = Done out ∧
    Z.of_nat (length out) = 40 ∧
    (Z.of_nat (length out) <= work_capacity info ↔
     10 <= capture_width info * capture_height info).
Proof.
  intros info. apply (capability_frame_needs_ten_pixels info); by vm_compute.
Defined.
